(** * dash-proxy: a shallow embedding of [dashproxy.py]

    The development follows the layers of the program:

    - [ISO8601DurationSeconds], the duration parser;
    - [MpdLocator], the address-based accessors over a parsed manifest and
      the period timing ([period_start], [period_end]);
    - [DashDownloader]: timeline expansion, start-time assignment,
      [render_template] and [download_template];
    - [DashProxy]: [ensure_downloader], [handle_mpd], [refresh_mpd];
    - an interleaving semantics of concurrent [ensure_downloader] calls.

    Modelling conventions.

    - A parsed manifest is a tree of records typed after the MPD schema.
      Attributes the program only reads through [int(...)] are carried as
      [Z]; the attribute [t] of an [S] element, which the program reads
      through [int(...)] and also copies into URLs, is carried as its text,
      like the attributes the program parses itself (durations) and the
      ones it only copies (templates, ids).  An absent attribute is [None],
      as [attrib.get] without a default returns.
    - A string is a sequence of characters with codes below 256.  Integers
      are unbounded, as in Python; the limit the interpreter puts on the
      number of digits of a conversion between [int] and [str] is not
      modelled.
    - A Python float is an IEEE 754 binary64 number, with the operations of
      the specification of floating-point arithmetic of the standard
      library ([SpecFloat]): every operation rounds to nearest, ties to
      even.
    - A Python exception is a value of [exn]; code that can raise returns a
      [result].  Code that also mutates state returns the state reached
      together with the result, so that what was done before an exception
      stays done.
    - [RepAddr] instances are heap objects: the class defines neither
      [__eq__] nor [__hash__], so a dictionary keyed by them compares keys
      by object identity.  An instance therefore carries the identity it
      was allocated with.
    - The file system holds regular files and directories by the text of
      their path; it accepts every name and refuses no access.  Two texts
      that name one file ([a/b] and [a//b], or a path through [.] or [..])
      are outside the model. *)

From Stdlib Require Import ZArith String Ascii List Lia SpecFloat.
From stdpp Require Import base option list strings gmap pretty numbers.

Local Open Scope string_scope.
Local Open Scope list_scope.
Local Open Scope Z_scope.

(** ** Exceptions and results *)

Inductive exn : Type :=
| RuntimeError (msg : string)
| TypeError
| AttributeError
| UnboundLocalError
| IndexError
| KeyError (key : string)
| ValueError
| ZeroDivisionError
| OverflowError
| FileNotFoundError
| FileExistsError
| NotADirectoryError
| RecursionError
| RequestException
| ParseError.

Inductive result (A : Type) : Type :=
| Ok (a : A)
| Raise (e : exn).

Arguments Ok {A} a.
Arguments Raise {A} e.

#[global] Instance result_ret : MRet result := fun _ a => Ok a.
#[global] Instance result_bind : MBind result := fun _ _ f m =>
  match m with
  | Ok a => f a
  | Raise e => Raise e
  end.

#[global] Instance result_fmap : FMap result := fun _ _ f m =>
  match m with
  | Ok a => Ok (f a)
  | Raise e => Raise e
  end.

#[global] Instance exn_eq_dec : EqDecision exn.
Proof. solve_decision. Defined.

#[global] Instance result_eq_dec {A} `{EqDecision A} : EqDecision (result A).
Proof. solve_decision. Defined.

Definition is_ok {A} (r : result A) : bool :=
  match r with Ok _ => true | Raise _ => false end.

(** ** Strings *)

Definition is_digit (c : ascii) : bool :=
  (48 <=? nat_of_ascii c)%nat && (nat_of_ascii c <=? 57)%nat.

#[global] Arguments is_digit : simpl never.

Definition digit_value (c : ascii) : Z :=
  Z.of_nat (nat_of_ascii c) - 48.

(** The longest prefix of decimal digits, and what follows it: how the
    greedy [[0-9]*] consumes its input. *)
Fixpoint span_digits (s : string) : string * string :=
  match s with
  | String c r =>
      if is_digit c
      then let '(ds, rest) := span_digits r in (String c ds, rest)
      else (EmptyString, s)
  | EmptyString => (EmptyString, EmptyString)
  end.

(** The value of a run of decimal digits, most significant first. *)
Fixpoint digits_value (acc : Z) (s : string) : Z :=
  match s with
  | String c r => digits_value (10 * acc + digit_value c) r
  | EmptyString => acc
  end.

(** [s[n:]] and [s[:n]] for a position [n]. *)
Fixpoint string_drop (n : nat) (s : string) : string :=
  match n, s with
  | S k, String _ r => string_drop k r
  | _, _ => s
  end.

Fixpoint string_take (n : nat) (s : string) : string :=
  match n, s with
  | S k, String c r => String c (string_take k r)
  | _, _ => EmptyString
  end.

(** [url.rfind(c)]: the index of the last occurrence of [c]. *)
Fixpoint rfind (c : ascii) (s : string) : option nat :=
  match s with
  | EmptyString => None
  | String a r =>
      match rfind c r with
      | Some i => Some (S i)
      | None => if Ascii.eqb a c then Some 0%nat else None
      end
  end.

(** [s.split(c)[0]]: the text before the first [c]. *)
Fixpoint before_first (c : ascii) (s : string) : string :=
  match s with
  | EmptyString => EmptyString
  | String a r => if Ascii.eqb a c then EmptyString else String a (before_first c r)
  end.

(** [s.replace(old, new)] for a non-empty [old]: occurrences are found left
    to right and do not overlap.  [skip] counts the characters of a match
    still to be dropped. *)
Fixpoint replace_go (old new : string) (skip : nat) (s : string) : string :=
  match s with
  | EmptyString => EmptyString
  | String c r =>
      match skip with
      | S k => replace_go old new k r
      | O =>
          if String.prefix old s
          then new +:+ replace_go old new (String.length old - 1) r
          else String c (replace_go old new 0 r)
      end
  end.

Definition str_replace (old new s : string) : string :=
  replace_go old new 0 s.

(** ** Numbers *)

(** The characters [int(...)] skips around a number: the white space of
    [str.isspace] among the characters below 256. *)
Definition is_space (c : ascii) : bool :=
  let n := nat_of_ascii c in
  ((9 <=? n) && (n <=? 13) || (28 <=? n) && (n <=? 32) || (n =? 133) || (n =? 160))%nat.

Fixpoint lstrip_space (s : string) : string :=
  match s with
  | String c r => if is_space c then lstrip_space r else s
  | EmptyString => EmptyString
  end.

Fixpoint rstrip_space (s : string) : string :=
  match s with
  | EmptyString => EmptyString
  | String c r =>
      match rstrip_space r with
      | EmptyString => if is_space c then EmptyString else String c EmptyString
      | r' => String c r'
      end
  end.

(** The digits of an integer literal in base 10: at least one digit, and
    single underscores between digits.  [after_digit] tells whether the
    character before was a digit. *)
Fixpoint int_digits (acc : Z) (after_digit : bool) (s : string) : option Z :=
  match s with
  | EmptyString => if after_digit then Some acc else None
  | String c r =>
      if is_digit c then int_digits (10 * acc + digit_value c) true r
      else if Ascii.eqb c "_" && after_digit then int_digits acc false r
      else None
  end.

(** [int(text)]: white space around the number is skipped, a sign may come
    first; anything else is a [ValueError]. *)
Definition int_of_text (text : string) : result Z :=
  let s := rstrip_space (lstrip_space text) in
  let '(negative, body) :=
    match s with
    | String "-" r => (true, r)
    | String "+" r => (false, r)
    | _ => (false, s)
    end in
  match int_digits 0 false body with
  | Some n => Ok (if negative then - n else n)
  | None => Raise ValueError
  end.

(** A Python float: a binary64 number. *)
Definition float : Type := spec_float.

Definition prec : Z := 53.
Definition emax : Z := 1024.

Definition float_add : float → float → float := SFadd prec emax.
Definition float_sub : float → float → float := SFsub prec emax.
Definition float_mul : float → float → float := SFmul prec emax.
Definition float_div : float → float → float := SFdiv prec emax.

(** [x <= y] on floats: false when one of them is not a number. *)
Definition float_le : float → float → bool := SFleb.

(** The literal [0.0]. *)
Definition float_zero : float := S754_zero false.

(** The float nearest to an integer. *)
Definition float_of_Z (n : Z) : float := binary_normalize prec emax n 0 false.

(** An [int] operand of a float operation is converted first, and an [int]
    beyond the range of the floats is an [OverflowError]. *)
Definition float_of_int (n : Z) : result float :=
  match float_of_Z n with
  | S754_infinity _ => Raise OverflowError
  | x => Ok x
  end.

(** The float nearest to the quotient of an integer by a positive integer
    (infinite when the quotient is beyond the range). *)
Definition nearest_float (n : Z) (d : positive) : float :=
  match n with
  | Z0 => S754_zero false
  | Zpos p => float_div (S754_finite false p 0) (S754_finite false d 0)
  | Zneg p => float_div (S754_finite true p 0) (S754_finite false d 0)
  end.

(** [a / b] on two [int]: the float nearest to the quotient. *)
Definition true_divide (a b : Z) : result float :=
  match b with
  | Z0 => Raise ZeroDivisionError
  | _ =>
      match a with
      | Z0 => Ok (S754_zero (b <? 0))
      | _ =>
          match nearest_float (a * Z.sgn b) (Z.to_pos (Z.abs b)) with
          | S754_infinity _ => Raise OverflowError
          | x => Ok x
          end
      end
  end.

(** The integer a finite float stands for when its exponent is not
    negative, else the numerator over [2 ^ k]. *)
Definition float_signed (s : bool) (m : positive) : Z :=
  if s then Zneg m else Zpos m.

(** [math.ceil(x)]. *)
Definition float_ceil (x : float) : result Z :=
  match x with
  | S754_zero _ => Ok 0
  | S754_infinity _ => Raise OverflowError
  | S754_nan => Raise ValueError
  | S754_finite s m e =>
      let z := float_signed s m in
      Ok (if 0 <=? e then z * 2 ^ e else - ((- z) / 2 ^ (- e)))
  end.

(** [round(x)] with one argument: the nearest integer, ties to even. *)
Definition float_round (x : float) : result Z :=
  match x with
  | S754_zero _ => Ok 0
  | S754_infinity _ => Raise OverflowError
  | S754_nan => Raise ValueError
  | S754_finite s m e =>
      let z := float_signed s m in
      if 0 <=? e then Ok (z * 2 ^ e)
      else
        let k := 2 ^ (- e) in
        let q := z / k in
        Ok (match 2 * (z mod k) ?= k with
            | Lt => q
            | Gt => q + 1
            | Eq => if Z.even q then q else q + 1
            end)
  end.

(** [timedelta(seconds=n)] for an [int]: the days it holds must have a
    magnitude of at most 999999999.  The object is only printed into a log
    line, so only whether it can be built is kept. *)
Definition timedelta_seconds (n : Z) : result unit :=
  let days := n / 86400 in
  if (-999999999 <=? days) && (days <=? 999999999) then Ok ()
  else Raise OverflowError.

(** [str(timedelta(seconds=round(a / b)))], as [handle_mpd] computes it for
    its log lines. *)
Definition time_info (a b : Z) : result unit :=
  x ← true_divide a b;
  n ← float_round x;
  timedelta_seconds n.

(** ** The duration parser *)

(** [a_float = '([0-9]+(\.[0-9]+)?)'] matched at the start of [s]: the
    matched text and the rest.  The integer digits and the fraction digits
    are taken greedily; a fraction is taken only if a digit follows the dot. *)
Definition a_float (s : string) : option (string * string) :=
  let '(int_part, rest) := span_digits s in
  match int_part with
  | EmptyString => None
  | _ =>
      match rest with
      | String "." rest' =>
          let '(frac, rest'') := span_digits rest' in
          match frac with
          | EmptyString => Some (int_part, rest)
          | _ => Some (int_part +:+ "." +:+ frac, rest'')
          end
      | _ => Some (int_part, rest)
      end
  end.

(** [maybe(suffix) = '(a_float suffix)?']: the text of the inner group when
    the optional group takes part in the match, and the rest of the input.
    The suffix is a letter, so no shorter match of [a_float] can be followed
    by it: when the greedy attempt fails the group matches the empty string. *)
Definition maybe (suffix : ascii) (s : string) : option string * string :=
  match a_float s with
  | Some (txt, String c rest) =>
      if Ascii.eqb c suffix then (Some txt, rest) else (None, s)
  | _ => (None, s)
  end.

(** [float(txt)] for a text matched by [a_float]: the float nearest to the
    decimal number written. *)
Definition float_of (txt : string) : float :=
  let '(int_part, rest) := span_digits txt in
  match rest with
  | String "." frac =>
      nearest_float (digits_value (digits_value 0 int_part) frac)
        (Z.to_pos (10 ^ Z.of_nat (String.length frac)))
  | _ => nearest_float (digits_value 0 int_part) 1
  end.

(** [float(g or '0')] for a group that may not have taken part. *)
Definition float_or_0 (g : option string) : float :=
  float_of (default "0" g).

(** [re.match] anchors the pattern at the start of the input only: what
    follows the match is not looked at. *)
Definition ISO8601DurationSeconds (duration : string) : result float :=
  match duration with
  | String "P" r0 =>
      let '(d, r1) := maybe "D" r0 in
      match r1 with
      | String "T" r2 =>
          let '(h, r3) := maybe "H" r2 in
          let '(m, r4) := maybe "M" r3 in
          let '(s, _) := maybe "S" r4 in
          let s0 := float_or_0 s in
          let s1 := float_add s0 (float_mul (float_of_Z 60) (float_or_0 m)) in
          let s2 := float_add s1 (float_mul (float_of_Z (60 * 60)) (float_or_0 h)) in
          let s3 := float_add s2 (float_mul (float_of_Z (24 * 60 * 60)) (float_or_0 d)) in
          Ok s3
      | _ => Raise (RuntimeError ("Invalid duration: " +:+ duration))
      end
  | _ => Raise (RuntimeError ("Invalid duration: " +:+ duration))
  end.

(** A duration attribute as [attrib.get] returns it: [re.match] raises
    [TypeError] on [None]. *)
Definition ISO8601DurationSeconds_attr (a : option string) : result float :=
  match a with
  | Some duration => ISO8601DurationSeconds duration
  | None => Raise TypeError
  end.

(** ** The parsed manifest *)

(** An [S] element of a [SegmentTimeline]: the text of its attribute [t],
    and the values of [d] and [r]. *)
Record S_elem : Type := mkS {
  S_t : option string;
  S_d : option Z;
  S_r : option Z
}.

(** A [SegmentTemplate] element and its first [SegmentTimeline] child, given
    by its [S] children. *)
Record SegmentTemplate : Type := mkSegmentTemplate {
  st_initialization : option string;
  st_media : option string;
  st_duration : option Z;
  st_timescale : option Z;
  st_startNumber : option Z;
  st_SegmentTimeline : option (list S_elem)
}.

Record Representation : Type := mkRepresentation {
  rep_id : option string;
  rep_SegmentTemplate : option SegmentTemplate
}.

Record EssentialProperty : Type := mkEssentialProperty {
  ep_schemeIdUri : option string;
  ep_value : option string
}.

Record AdaptationSet : Type := mkAdaptationSet {
  as_EssentialProperty : list EssentialProperty;
  as_SegmentTemplate : option SegmentTemplate;
  as_Representation : list Representation
}.

Record Period : Type := mkPeriod {
  period_attr_start : option string;
  period_attr_duration : option string;
  period_AdaptationSet : list AdaptationSet
}.

(** [mpd_Location] is the first [Location] child, given by its text (an
    element without text has [None]).  [mpd_BaseUrl] is the first child with
    tag [BaseUrl]: whether it has children of its own, and its text. *)
Record MPD : Type := mkMPD {
  mpd_mediaPresentationDuration : option string;
  mpd_minimumUpdatePeriod : option string;
  mpd_Location : option (option string);
  mpd_BaseUrl : option (bool * option string);
  mpd_Period : list Period
}.

#[global] Instance S_elem_eq_dec : EqDecision S_elem.
Proof. solve_decision. Defined.
#[global] Instance SegmentTemplate_eq_dec : EqDecision SegmentTemplate.
Proof. solve_decision. Defined.
#[global] Instance Representation_eq_dec : EqDecision Representation.
Proof. solve_decision. Defined.
#[global] Instance EssentialProperty_eq_dec : EqDecision EssentialProperty.
Proof. solve_decision. Defined.
#[global] Instance AdaptationSet_eq_dec : EqDecision AdaptationSet.
Proof. solve_decision. Defined.
#[global] Instance Period_eq_dec : EqDecision Period.
Proof. solve_decision. Defined.
#[global] Instance MPD_eq_dec : EqDecision MPD.
Proof. solve_decision. Defined.

(** ** RepAddr *)

(** The three positions a [RepAddr] holds.  The program only builds
    addresses from [enumerate] counters and the literal [0], so positions
    are natural numbers. *)
Record RepAddr : Type := mkRepAddr {
  period_idx : nat;
  adaptation_set_idx : nat;
  representation_idx : nat
}.

#[global] Instance RepAddr_eq_dec : EqDecision RepAddr.
Proof. solve_decision. Defined.

(** [RepAddr(...)]: [__init__] takes exactly three positional arguments and
    has no defaults. *)
Definition RepAddr_init (args : list nat) : result RepAddr :=
  match args with
  | [p; a; r] => Ok (mkRepAddr p a r)
  | _ => Raise TypeError
  end.

(** ** MpdLocator *)

(** [l[i]] for a position [i]. *)
Definition index {A} (l : list A) (i : nat) : result A :=
  match l !! i with
  | Some x => Ok x
  | None => Raise IndexError
  end.

Module MpdLocator.

Definition periods (mpd : MPD) : list Period := mpd_Period mpd.

Definition period (mpd : MPD) (rep_addr : RepAddr) : result Period :=
  index (periods mpd) (period_idx rep_addr).

Definition adaptation_set (mpd : MPD) (rep_addr : RepAddr) : result AdaptationSet :=
  p ← period mpd rep_addr;
  index (period_AdaptationSet p) (adaptation_set_idx rep_addr).

Definition representation (mpd : MPD) (rep_addr : RepAddr) : result Representation :=
  a ← adaptation_set mpd rep_addr;
  index (as_Representation a) (representation_idx rep_addr).

(** The representation's own template when it has one, else the adaptation
    set's, else [None]. *)
Definition segment_template (mpd : MPD) (rep_addr : RepAddr)
  : result (option SegmentTemplate) :=
  rep ← representation mpd rep_addr;
  match rep_SegmentTemplate rep with
  | Some rep_st => Ok (Some rep_st)
  | None =>
      a ← adaptation_set mpd rep_addr;
      Ok (as_SegmentTemplate a)
  end.

(** [self.segment_template(rep_addr).find(...)]: an attribute lookup on
    [None] when there is no template. *)
Definition segment_timeline (mpd : MPD) (rep_addr : RepAddr)
  : result (option (list S_elem)) :=
  st ← segment_template mpd rep_addr;
  match st with
  | Some st => Ok (st_SegmentTimeline st)
  | None => Raise AttributeError
  end.

(** The truth value of a [Period] element: whether it has children. *)
Definition period_truthy (p : Period) : bool :=
  match period_AdaptationSet p with
  | [] => false
  | _ => true
  end.

(** [period_start].  [fuel] bounds the depth of the recursion.

    In the branch without a [start] attribute, [RepAddr(idx - 1)] is a call
    with one argument; and the guard of the inner [if] reads the local
    [previous_duration] before the only assignment to it, so the body of
    that [if] (lines 133-137 of the source) is never reached. *)
Fixpoint period_start (fuel : nat) (mpd : MPD) (rep_addr : RepAddr) : result float :=
  match fuel with
  | O => Raise RecursionError
  | S fuel' =>
      p ← period mpd rep_addr;
      match period_attr_start p with
      | Some start_text =>
          if bool_decide (period_idx rep_addr ≠ 0%nat)
          then
            start ← ISO8601DurationSeconds start_text;
            first ← RepAddr_init [0; 0; 0]%nat;
            first_start ← period_start fuel' mpd first;
            Ok (float_sub start first_start)
          else Ok float_zero
      | None =>
          previous_rep_addr ←
            (if bool_decide (period_idx rep_addr ≠ 0%nat)
             then Some <$> RepAddr_init [(period_idx rep_addr - 1)%nat]
             else Ok None);
          previous_period ←
            match previous_rep_addr with
            | Some a => Some <$> period mpd a
            | None => Ok None
            end;
          match previous_period with
          | Some pp =>
              if period_truthy pp
              then Raise UnboundLocalError
              else Ok float_zero
          | None => Ok float_zero
          end
      end
  end.

(** [period_end]. *)
Definition period_end (fuel : nat) (mpd : MPD) (rep_addr : RepAddr) : result float :=
  let period_count := length (periods mpd) in
  if bool_decide (Z.of_nat (period_idx rep_addr) = Z.of_nat period_count - 1)
  then
    match mpd_mediaPresentationDuration mpd with
    | Some text => ISO8601DurationSeconds text
    | None =>
        p ← period mpd rep_addr;
        start ← period_start fuel mpd rep_addr;
        duration ← ISO8601DurationSeconds_attr (period_attr_duration p);
        Ok (float_add start duration)
    end
  else
    next ← RepAddr_init [(period_idx rep_addr + 1)%nat];
    period_start fuel mpd next.

End MpdLocator.

(** ** Template rendering *)

(** One match of the pattern of [re.sub] at the start of [s]: the text
    [$Number%], a greedy run of digits (group 1), and the text [d$].  The
    result is the digits of group 1 and the length of the match. *)
Definition match_number_format (s : string) : option (string * nat) :=
  if String.prefix "$Number%" s
  then
    let '(ds, rest) := span_digits (string_drop 8 s) in
    if String.prefix "d$" rest
    then Some (ds, (8 + String.length ds + 2)%nat)
    else None
  else None.

(** [re.sub(pattern, '{number:\\1d}', s)]: every match, left to right,
    is replaced by [{number:] group 1 [d}]. *)
Fixpoint sub_number_go (skip : nat) (s : string) : string :=
  match s with
  | EmptyString => EmptyString
  | String c r =>
      match skip with
      | S k => sub_number_go k r
      | O =>
          match match_number_format s with
          | Some (ds, n) => "{number:" +:+ ds +:+ "d}" +:+ sub_number_go (n - 1) r
          | None => String c (sub_number_go 0 r)
          end
      end
  end.

Definition sub_number_format (s : string) : string := sub_number_go 0 s.

(** The values [render_template] passes to [str.format]. *)
Inductive pyval : Type :=
| PyStr (s : string)
| PyInt (z : Z).

Fixpoint repeat_char (c : ascii) (n : nat) : string :=
  match n with
  | O => EmptyString
  | S k => String c (repeat_char c k)
  end.

(** [format(z, spec)] for a spec [[0-9]*d], the shape the substitution of
    [$Number%...d$] produces: a leading [0] asks for sign-aware zero
    padding, the digits give the minimal width, numbers are right-aligned. *)
Definition format_int (z : Z) (width_digits : string) : string :=
  let text := pretty z in
  let width := Z.to_nat (digits_value 0 width_digits) in
  let pad := (width - String.length text)%nat in
  match width_digits with
  | String "0" _ =>
      if z <? 0
      then "-" +:+ repeat_char "0" pad +:+ pretty (- z)
      else repeat_char "0" pad +:+ text
  | _ => repeat_char " " pad +:+ text
  end.

(** The name of a replacement field and its format spec: the text before
    and after the first colon. *)
Fixpoint split_field (field : string) : string * option string :=
  match field with
  | EmptyString => (EmptyString, None)
  | String c r =>
      if Ascii.eqb c ":" then (EmptyString, Some r)
      else let '(name, spec) := split_field r in (String c name, spec)
  end.

Definition all_digits (s : string) : bool :=
  match span_digits s with
  | (_, EmptyString) => true
  | _ => false
  end.

(** One replacement field rendered against keyword arguments only.  A field
    with an empty or numeric name asks for a positional argument, and there
    is none.  Of the format-spec language only what [render_template] can
    produce is modelled: no spec, and [[0-9]*d] on an integer; any other
    spec is reported as [ValueError] (as Python does for [d] on a string). *)
Definition format_field (args : list (string * pyval)) (field : string) : result string :=
  let '(name, spec) := split_field field in
  if all_digits name then Raise IndexError
  else
    match list_find (fun kv => bool_decide (kv.1 = name)) args with
    | None => Raise (KeyError name)
    | Some (_, (_, v)) =>
        match v, spec with
        | PyStr s, None => Ok s
        | PyStr s, Some EmptyString => Ok s
        | PyStr _, Some _ => Raise ValueError
        | PyInt z, None => Ok (pretty z)
        | PyInt z, Some EmptyString => Ok (pretty z)
        | PyInt z, Some sp =>
            match span_digits sp with
            | (w, "d") => Ok (format_int z w)
            | _ => Raise ValueError
            end
        end
    end.

(** [template.format( **args )]: literal text is copied, doubled braces
    stand for one brace, [{field}] is replaced; fields are rendered left to
    right, so the first failure is the one raised.  [field] is the text of
    the replacement field being read, if any. *)
Fixpoint format_go (args : list (string * pyval)) (field : option string)
    (s : string) : result string :=
  match s with
  | EmptyString =>
      match field with
      | None => Ok EmptyString
      | Some _ => Raise ValueError
      end
  | String c r =>
      match field with
      | Some acc =>
          if Ascii.eqb c "}" then
            v ← format_field args acc;
            rest ← format_go args None r;
            Ok (v +:+ rest)
          else if Ascii.eqb c "{" then Raise ValueError
          else format_go args (Some (acc +:+ String c EmptyString)) r
      | None =>
          if Ascii.eqb c "{" then
            match r with
            | String "{" r' => String "{" <$> format_go args None r'
            | _ => format_go args (Some EmptyString) r
            end
          else if Ascii.eqb c "}" then
            match r with
            | String "}" r' => String "}" <$> format_go args None r'
            | _ => Raise ValueError
            end
          else String c <$> format_go args None r
      end
  end.

Definition str_format (template : string) (args : list (string * pyval)) : result string :=
  format_go args None template.

(** The keyword arguments of [render_template]: an entry only for what was
    passed. *)
Definition template_args (representation : option Representation)
    (segment : option S_elem) (index : option Z) : list (string * pyval) :=
  match representation with
  | Some rep => [("representation_id", PyStr (default "" (rep_id rep)))]
  | None => []
  end ++
  match segment with
  | Some seg => [("time", PyStr (default "" (S_t seg)))]
  | None => []
  end ++
  match index with
  | Some i => [("number", PyInt i)]
  | None => []
  end.

Definition render_template (template : string) (representation : option Representation)
    (segment : option S_elem) (index : option Z) : result string :=
  let template := str_replace "$RepresentationID$" "{representation_id}" template in
  let template := str_replace "$Number$" "{number}" template in
  let template := sub_number_format template in
  let template := str_replace "$Time$" "{time}" template in
  str_format template (template_args representation segment index).

(** ** Paths and URLs *)

Definition ends_with_slash (s : string) : bool :=
  match String.rev s with
  | String "/" _ => true
  | _ => false
  end.

Fixpoint lstrip_slashes (s : string) : string :=
  match s with
  | String "/" r => lstrip_slashes r
  | _ => s
  end.

(** [os.path.join(a, b)] with two arguments, POSIX flavour. *)
Definition path_join (a b : string) : string :=
  if String.prefix "/" b then b
  else if bool_decide (a = "") || ends_with_slash a then a +:+ b
  else a +:+ "/" +:+ b.

(** [os.path.dirname(p)], POSIX flavour: the text up to the last slash,
    without trailing slashes unless it consists of slashes only. *)
Definition dirname (p : string) : string :=
  match rfind "/" p with
  | None => ""
  | Some i =>
      let head := string_take (S i) p in
      match lstrip_slashes head with
      | EmptyString => head
      | _ => String.rev (lstrip_slashes (String.rev head))
      end
  end.

Definition baseUrl (url : string) : string :=
  let url :=
    match rfind "?" url with
    | Some idx => string_take idx url
    | None => url
    end in
  match rfind "/" url with
  | Some idx => string_take (S idx) url
  | None => url
  end.

(** [baseUrl(node.text)]: a method call on [None] when the element has no
    text. *)
Definition baseUrl_text (text : option string) : result string :=
  match text with
  | Some t => Ok (baseUrl t)
  | None => Raise AttributeError
  end.

(** ** The world outside the program *)

(** What a path holds: a regular file with a downloaded body or with a
    serialised manifest, or a directory. *)
Inductive content : Type :=
| Bytes (body : string)
| Manifest (m : MPD)
| Directory.

Inductive level : Type := VERBOSE | INFO | WARNING | ERROR.

(** The log lines of the program, by the call that writes them. *)
Inductive message : Type :=
| MsgRunning
| MsgCannotGet (status : Z)
| MsgGivingUp (error_cnt : Z)
| MsgPeriods
| MsgFoundPeriods (n : nat)
| MsgFoundRepresentation (id : string)
| MsgWriting
| MsgVod
| MsgAlreadyStarted (a : RepAddr)
| MsgStarting (a : RepAddr)
| MsgAppending
| MsgSkipping (dest : string)
| MsgRequesting (dest url : string)
| MsgCannotDownload (url : string) (status : Z)
| MsgException.

(** What the program does to the outside, in order. *)
Inductive event : Type :=
| Log (l : level) (m : message)
| HttpGet (url : string)
| Sleep (seconds : Z).

#[global] Instance level_eq_dec : EqDecision level.
Proof. solve_decision. Defined.
#[global] Instance message_eq_dec : EqDecision message.
Proof. solve_decision. Defined.
#[global] Instance event_eq_dec : EqDecision event.
Proof. solve_decision. Defined.

(** What is on disk, by path, and the events so far.  The directories
    listed are the ones the downloaders created; a directory that holds
    something is there without being listed. *)
Record World : Type := mkWorld {
  files : gmap string content;
  trace : list event
}.

Definition emit (e : event) (w : World) : World :=
  mkWorld (files w) (trace w ++ [e]).

Definition emits (es : list event) (w : World) : World :=
  mkWorld (files w) (trace w ++ es).

Definition write_file (path : string) (c : content) (w : World) : World :=
  mkWorld (<[path := c]> (files w)) (trace w).

(** [os.path.isfile(path)]. *)
Definition isfile (w : World) (path : string) : bool :=
  match files w !! path with
  | Some (Bytes _) | Some (Manifest _) => true
  | _ => false
  end.

(** [path] names a directory: one that was created, or one that holds
    something. *)
Definition isdir (w : World) (path : string) : bool :=
  match files w !! path with
  | Some Directory => true
  | _ =>
      bool_decide (set_Exists (fun p => String.prefix (path +:+ "/") p = true)
                     (dom (files w)))
  end.

(** The URLs requested so far. *)
Definition requests (w : World) : list string :=
  omap (fun e => match e with HttpGet url => Some url | _ => None end) (trace w).

(** How a GET ends: an exception of the HTTP client before it has a
    response, a response read to its end, or a response whose body breaks
    off after [body] with an exception.  The client's own retries are
    inside this outcome. *)
Inductive response : Type :=
| ConnectionError
| Response (status_code : Z) (body : string)
| Truncated (status_code : Z) (body : string).

(** The path itself and the directories above it, outermost first: the
    prefixes of [s] that end before a slash or at the end of [s], except
    the empty one and those that end in a slash.  [pre] is the text already
    read. *)
Fixpoint path_prefixes (pre s : string) : list string :=
  let here :=
    match pre with
    | EmptyString => []
    | _ => if ends_with_slash pre then [] else [pre]
    end in
  match s with
  | EmptyString => here
  | String c r =>
      (if Ascii.eqb c "/" then here else [])
      ++ path_prefixes (pre +:+ String c EmptyString) r
  end.

(** The directories of [paths] are created in turn, each one unless it is
    there; a regular file in the way is a [NotADirectoryError], and a
    [FileExistsError] when it has the name of the last one. *)
Fixpoint mkdirs (paths : list string) (w : World) : result unit * World :=
  match paths with
  | [] => (Ok (), w)
  | path :: rest =>
      if isfile w path
      then (Raise (match rest with
                   | [] => FileExistsError
                   | _ => NotADirectoryError
                   end), w)
      else
        mkdirs rest
          (if isdir w path then w else write_file path Directory w)
  end.

(** [os.makedirs(name, exist_ok=True)]. *)
Definition makedirs (name : string) (w : World) : result unit * World :=
  match name with
  | EmptyString => (Raise FileNotFoundError, w)
  | _ => mkdirs (path_prefixes EmptyString name) w
  end.

(** [open(path, 'xb')] and the writes that follow, in a directory that is
    there: the file is created unless the path ends in a slash or names
    something that exists. *)
Definition create_file (path : string) (c : content) (w : World) : option World :=
  if ends_with_slash path || bool_decide (is_Some (files w !! path)) || isdir w path
  then None
  else Some (write_file path c w).

(** ** DashDownloader *)

(** A [RepAddr] instance on the heap: its identity and its fields. *)
Record RepAddrObj : Type := mkObj {
  obj_id : nat;
  obj_addr : RepAddr
}.

(** The fields of a downloader the program reads again.  [dl_output_dir] is
    [self.proxy.output_dir], which is set once. *)
Record DashDownloader : Type := mkDownloader {
  dl_output_dir : string;
  dl_rep_addr : RepAddrObj;
  dl_mpd_base_url : string;
  dl_initialization_downloaded : bool
}.

(** [DashDownloader(proxy, rep_addr)]. *)
Definition DashDownloader_init (output_dir : string) (rep_addr : RepAddrObj) : DashDownloader :=
  mkDownloader output_dir rep_addr "" false.

(** [l.insert(i, x)]: past the end, the element is appended. *)
Definition list_insert_at {A} (i : nat) (x : A) (l : list A) : list A :=
  take i l ++ x :: drop i l.

(** The inner loop of the expansion, [for _ in range(0, repeat)]: [n] new
    elements that carry the duration only, inserted at [idx], [idx + 1], ... *)
Fixpoint insert_repeats (n : nat) (duration : Z) (idx : nat) (timeline : list S_elem)
  : nat * list S_elem :=
  match n with
  | O => (idx, timeline)
  | S k =>
      insert_repeats k duration (S idx)
        (list_insert_at idx (mkS None (Some duration) None) timeline)
  end.

(** The outer loop of the expansion.  [segments] is what is iterated (a copy
    of the entries, or the one synthesised entry), [timeline] the children of
    the [SegmentTimeline] element that receives the new elements. *)
Fixpoint expand_loop (segments : list S_elem) (idx : nat) (total : Z)
    (timeline : list S_elem) : nat * Z * list S_elem :=
  match segments with
  | [] => (idx, total, timeline)
  | segment :: rest =>
      let duration := default 0 (S_d segment) in
      let repeat := default 0 (S_r segment) in
      let idx := S idx in
      let total := total + duration * (repeat + 1) in
      let '(idx, timeline) := insert_repeats (Z.to_nat repeat) duration idx timeline in
      expand_loop rest idx total timeline
  end.

(** One turn of the second loop on [segment], up to the clock: the element
    with its start time set, and the running clock after it.  The text of
    [t] is read with [int(...)]; a start time the loop sets is written as
    [str(next_time)]. *)
Definition assign_time (next_time : Z) (segment : S_elem) : result (S_elem * Z) :=
  current_time ← int_of_text (default "-1" (S_t segment));
  let segment' :=
    if current_time =? -1
    then mkS (Some (pretty next_time)) (S_d segment) (S_r segment)
    else segment in
  let next_time := if current_time =? -1 then next_time else current_time in
  Ok (segment', next_time + default 0 (S_d segment')).

(** The second loop without its downloads: the children as the loop leaves
    them when no download raises.  The loop ends where a [t] cannot be
    read, and where the clock cannot be printed (the element then has its
    start time set already); the children after that are left as they
    are. *)
Fixpoint assign_times (timescale next_time : Z) (timeline : list S_elem) : list S_elem :=
  match timeline with
  | [] => []
  | segment :: rest =>
      match assign_time next_time segment with
      | Raise _ => segment :: rest
      | Ok (segment, next_time) =>
          match time_info next_time timescale with
          | Raise _ => segment :: rest
          | Ok _ => segment :: assign_times timescale next_time rest
          end
      end
  end.

(** Replaces the children of the [SegmentTimeline] the address resolves to:
    the one of the representation's own template when it has a template,
    else the one of the adaptation set's template. *)
Definition set_template_timeline (tl : list S_elem) (st : SegmentTemplate) : SegmentTemplate :=
  mkSegmentTemplate (st_initialization st) (st_media st) (st_duration st)
    (st_timescale st) (st_startNumber st) (Some tl).

Definition set_adaptation_set_timeline (rep_idx : nat) (tl : list S_elem)
    (a : AdaptationSet) : AdaptationSet :=
  match as_Representation a !! rep_idx with
  | Some rep =>
      match rep_SegmentTemplate rep with
      | Some st =>
          mkAdaptationSet (as_EssentialProperty a) (as_SegmentTemplate a)
            (<[rep_idx := mkRepresentation (rep_id rep) (Some (set_template_timeline tl st))]>
               (as_Representation a))
      | None =>
          mkAdaptationSet (as_EssentialProperty a)
            (set_template_timeline tl <$> as_SegmentTemplate a)
            (as_Representation a)
      end
  | None => a
  end.

Definition set_timeline (mpd : MPD) (rep_addr : RepAddr) (tl : list S_elem) : MPD :=
  mkMPD (mpd_mediaPresentationDuration mpd) (mpd_minimumUpdatePeriod mpd)
    (mpd_Location mpd) (mpd_BaseUrl mpd)
    (alter
       (fun p =>
          mkPeriod (period_attr_start p) (period_attr_duration p)
            (alter (set_adaptation_set_timeline (representation_idx rep_addr) tl)
               (adaptation_set_idx rep_addr) (period_AdaptationSet p)))
       (period_idx rep_addr) (mpd_Period mpd)).

(** A depth the interpreter lets [period_start] recurse to: below the
    default limit of 1000 frames, and far above the two frames the function
    ever needs. *)
Definition recursion_limit : nat := 900.

Section Downloader.

(** The origin server, for segment URLs. *)
Variable server : string → response.

Definition full_url (dl : DashDownloader) (dest : string) : string :=
  dl_mpd_base_url dl +:+ dest.

(** Where a rendered template is stored: the text before the query string,
    under the output directory. *)
Definition dest_path (output_dir : string) (dest : string) : string :=
  path_join output_dir (before_first "?" dest).

(** [download_template].  Rendering and the creation of the directory are
    outside the [try]; the request, the status check and the write are
    inside it, and what they raise is logged. *)
Definition download_template (dl : DashDownloader) (template : string)
    (representation : option Representation) (segment : option S_elem)
    (index : option Z) (w : World) : result unit * World :=
  match render_template template representation segment index with
  | Raise e => (Raise e, w)
  | Ok dest =>
      let dest_url := full_url dl dest in
      let dest := dest_path (dl_output_dir dl) dest in
      if isfile w dest
      then (Ok (), emit (Log VERBOSE (MsgSkipping dest)) w)
      else
        match makedirs (dirname dest) w with
        | (Raise e, w) => (Raise e, w)
        | (Ok _, w) =>
            let w := emit (Log INFO (MsgRequesting dest dest_url)) w in
            let w := emit (HttpGet dest_url) w in
            match server dest_url with
            | ConnectionError => (Ok (), emit (Log ERROR MsgException) w)
            | Response status body =>
                if (400 <=? status) && (status <? 600)
                then (Ok (), emit (Log ERROR MsgException) w)
                else if (200 <=? status) && (status <? 300)
                then
                  match create_file dest (Bytes body) w with
                  | Some w => (Ok (), w)
                  | None => (Ok (), emit (Log ERROR MsgException) w)
                  end
                else (Ok (), emit (Log ERROR (MsgCannotDownload dest_url status)) w)
            | Truncated status body =>
                if (400 <=? status) && (status <? 600)
                then (Ok (), emit (Log ERROR MsgException) w)
                else if (200 <=? status) && (status <? 300)
                then
                  match create_file dest (Bytes body) w with
                  | Some w => (Ok (), emit (Log ERROR MsgException) w)
                  | None => (Ok (), emit (Log ERROR MsgException) w)
                  end
                else (Ok (), emit (Log ERROR (MsgCannotDownload dest_url status)) w)
            end
        end
  end.

(** The first download of [handle_mpd]: the initialization segment, when
    the template names one and this downloader has not asked for it yet.
    The flag is set before the download. *)
Definition download_initialization (dl : DashDownloader)
    (segment_template : SegmentTemplate) (rep : Representation) (w : World)
  : result unit * DashDownloader * World :=
  let initialization_template := default "" (st_initialization segment_template) in
  if negb (bool_decide (initialization_template = ""))
     && negb (dl_initialization_downloaded dl)
  then
    let dl := mkDownloader (dl_output_dir dl) (dl_rep_addr dl)
                (dl_mpd_base_url dl) true in
    let '(r, w) := download_template dl initialization_template (Some rep) None None w in
    (r, dl, w)
  else (Ok (), dl, w).

(** The second loop of [handle_mpd], over the [S] children [todo] still to
    visit; [done] are the children already visited, with their start times
    set.  The result carries the children as the loop leaves them. *)
Fixpoint media_loop (dl : DashDownloader) (media_template : string)
    (rep : Representation) (startNumber timescale : Z) (index : nat) (next_time : Z)
    (done todo : list S_elem) (w : World) : result unit * list S_elem * World :=
  match todo with
  | [] => (Ok (), done, w)
  | segment :: rest =>
      match assign_time next_time segment with
      | Raise e => (Raise e, done ++ segment :: rest, w)
      | Ok (segment, next_time) =>
          match time_info next_time timescale with
          | Raise e => (Raise e, done ++ segment :: rest, w)
          | Ok _ =>
              match download_template dl media_template (Some rep) (Some segment)
                      (Some (Z.of_nat index + startNumber)) w with
              | (Raise e, w) => (Raise e, done ++ segment :: rest, w)
              | (Ok _, w) =>
                  media_loop dl media_template rep startNumber timescale (S index)
                    next_time (done ++ [segment]) rest w
              end
          end
      end
  end.

(** [math.ceil((PEwc - PSwc) * ts / d)]: the operations are those of the
    floats, each one rounded; an [int] operand is converted first, and the
    division checks its divisor after the conversion. *)
Definition implicit_repeat (PEwc PSwc : float) (ts d : Z) : result Z :=
  ts' ← float_of_int ts;
  let span := float_mul (float_sub PEwc PSwc) ts' in
  d' ← float_of_int d;
  if d =? 0 then Raise ZeroDivisionError
  else float_ceil (float_div span d').

(** The segments to iterate and the timeline element to fill: the entries of
    the [SegmentTimeline] when the element is there and has children (the
    truth value of an element), else one synthesised entry and a new, empty
    element.  The boolean tells whether the timeline is the manifest's. *)
Definition select_timeline (mpd : MPD) (rep_addr : RepAddr)
    (segment_template : SegmentTemplate) (segment_timeline : option (list S_elem))
  : result (list S_elem * list S_elem * bool) :=
  match segment_timeline with
  | Some (s :: tl) => Ok (s :: tl, s :: tl, true)
  | _ =>
      let d := default 0 (st_duration segment_template) in
      PSwc ← MpdLocator.period_start recursion_limit mpd rep_addr;
      PEwc ← MpdLocator.period_end recursion_limit mpd rep_addr;
      let ts := default 1 (st_timescale segment_template) in
      r ← implicit_repeat PEwc PSwc ts d;
      Ok ([mkS (Some "0") (Some d) (Some r)], [], false)
  end.

(** The children of the local [segment_timeline] as the two loops of
    [handle_mpd] leave them when no download raises: every child the first
    loop made, with the start times the second loop has set when it
    ends. *)
Definition resolved_segments (mpd : MPD) (rep_addr : RepAddr) : result (list S_elem) :=
  st ← MpdLocator.segment_template mpd rep_addr;
  tl ← MpdLocator.segment_timeline mpd rep_addr;
  match st with
  | None => Raise AttributeError
  | Some segment_template =>
      '(segments, timeline, _) ← select_timeline mpd rep_addr segment_template tl;
      let '(_, total, expanded) := expand_loop segments 0 0 timeline in
      let timescale := default 1 (st_timescale segment_template) in
      match time_info total timescale with
      | Raise _ => Ok expanded
      | Ok _ => Ok (assign_times timescale 0 expanded)
      end
  end.

(** The downloads of the second loop, for segments whose start times are
    set: one [download_template] after the other, numbered from [index],
    until one raises. *)
Fixpoint download_all (dl : DashDownloader) (media_template : string)
    (rep : Representation) (startNumber : Z) (index : nat)
    (segments : list S_elem) (w : World) : result unit * World :=
  match segments with
  | [] => (Ok (), w)
  | segment :: rest =>
      match download_template dl media_template (Some rep) (Some segment)
              (Some (Z.of_nat index + startNumber)) w with
      | (Raise e, w) => (Raise e, w)
      | (Ok _, w) => download_all dl media_template rep startNumber (S index) rest w
      end
  end.

(** [DashDownloader.handle_mpd]: the downloader and the manifest as the call
    leaves them (the manifest is the object every downloader of one refresh
    shares), and the world. *)
Definition handle_mpd (dl : DashDownloader) (mpd : MPD) (base_url : string) (w : World)
  : result unit * DashDownloader * MPD * World :=
  let dl := mkDownloader (dl_output_dir dl) (dl_rep_addr dl) base_url
              (dl_initialization_downloaded dl) in
  let rep_addr := obj_addr (dl_rep_addr dl) in
  match
    (rep ← MpdLocator.representation mpd rep_addr;
     st ← MpdLocator.segment_template mpd rep_addr;
     tl ← MpdLocator.segment_timeline mpd rep_addr;
     Ok (rep, st, tl))
  with
  | Raise e => (Raise e, dl, mpd, w)
  | Ok (_, None, _) => (Raise AttributeError, dl, mpd, w)
  | Ok (rep, Some segment_template, segment_timeline) =>
      let '(r_init, dl, w) := download_initialization dl segment_template rep w in
      match r_init with
      | Raise e => (Raise e, dl, mpd, w)
      | Ok _ =>
          match select_timeline mpd rep_addr segment_template segment_timeline with
          | Raise e => (Raise e, dl, mpd, w)
          | Ok (segments, timeline, in_manifest) =>
              let '(_, total, expanded) := expand_loop segments 0 0 timeline in
              let w := emits (replicate (length expanded - length timeline)
                                (Log VERBOSE MsgAppending)) w in
              let mpd := if in_manifest then set_timeline mpd rep_addr expanded else mpd in
              let media_template := default "" (st_media segment_template) in
              let timescale := default 1 (st_timescale segment_template) in
              let startNumber := default 0 (st_startNumber segment_template) in
              match time_info total timescale with
              | Raise e => (Raise e, dl, mpd, w)
              | Ok _ =>
                  let '(r, visited, w) :=
                    media_loop dl media_template rep startNumber timescale 0 0 []
                      expanded w in
                  let mpd := if in_manifest then set_timeline mpd rep_addr visited else mpd in
                  (r, dl, mpd, w)
              end
          end
      end
  end.

End Downloader.

(** ** Files already fetched *)

(** The file a template renders to for these arguments is on disk (or the
    template does not render, and then names no file). *)
Definition on_disk (output_dir : string) (w : World) (template : string)
    (representation : option Representation) (segment : option S_elem)
    (index : option Z) : bool :=
  match render_template template representation segment index with
  | Ok dest => isfile w (dest_path output_dir dest)
  | Raise _ => true
  end.

(** The same for the media segments [segments], numbered from [index]. *)
Fixpoint all_on_disk (output_dir : string) (w : World) (media_template : string)
    (rep : Representation) (startNumber : Z) (index : nat)
    (segments : list S_elem) : bool :=
  match segments with
  | [] => true
  | segment :: rest =>
      on_disk output_dir w media_template (Some rep) (Some segment)
        (Some (Z.of_nat index + startNumber))
      && all_on_disk output_dir w media_template rep startNumber (S index) rest
  end.

(** Every file a pass of the downloader [dl] over the manifest would fetch
    is on disk: the initialization segment, if the pass fetches one, and the
    media segments it resolves. *)
Definition segments_on_disk (dl : DashDownloader) (w : World) (mpd : MPD) : bool :=
  let rep_addr := obj_addr (dl_rep_addr dl) in
  match MpdLocator.representation mpd rep_addr,
        MpdLocator.segment_template mpd rep_addr,
        resolved_segments mpd rep_addr with
  | Ok rep, Ok (Some st), Ok segments =>
      let initialization_template := default "" (st_initialization st) in
      (bool_decide (initialization_template = "")
       || dl_initialization_downloaded dl
       || on_disk (dl_output_dir dl) w initialization_template (Some rep) None None)
      && all_on_disk (dl_output_dir dl) w (default "" (st_media st)) rep
           (default 0 (st_startNumber st)) 0 segments
  | _, _, _ => false
  end.

(** ** DashProxy *)

(** [downloaders] is a dictionary keyed by [RepAddr] instances: the key of
    an entry is the identity of the instance. *)
Record DashProxy : Type := mkProxy {
  proxy_mpd : string;
  output_dir : string;
  save_mpds : bool;
  i_refresh : nat;
  downloaders : gmap nat DashDownloader
}.

(** [DashProxy(mpd, output_dir, download, save_mpds)]. *)
Definition DashProxy_init (mpd output_dir : string) (save_mpds : bool) : DashProxy :=
  mkProxy mpd output_dir save_mpds 0 ∅.

Definition retry_interval : Z := 10.

(** A started thread [Thread(target=self.ensure_downloader, args=(mpd, rep_addr))]:
    the manifest object it was given, and the address object. *)
Record Thread : Type := mkThread {
  th_mpd : nat;
  th_rep_addr : RepAddrObj
}.

(** What a GET of the manifest URL answers: the status and the text, the
    text given by what [ElementTree.fromstring] makes of it ([None] when it
    is not well-formed). *)
Record manifest_response : Type := mkManifestResponse {
  mr_status_code : Z;
  mr_text : option MPD
}.

(** The program and its surroundings: the proxy object, the parsed manifests
    on the heap (a manifest object is shared by the threads of its refresh),
    the next free identity for a [RepAddr] instance, the threads started so
    far, the number of manifest requests so far, and the world. *)
Record System : Type := mkSystem {
  sys_proxy : DashProxy;
  sys_mpds : list MPD;
  sys_next_id : nat;
  sys_threads : list Thread;
  sys_gets : nat;
  sys_world : World
}.

(** The program as [run] finds it: a new proxy, nothing on the heap, no
    thread, no file, no event. *)
Definition boot (mpd output_dir : string) (save_mpds : bool) : System :=
  mkSystem (DashProxy_init mpd output_dir save_mpds) [] 0 [] 0 (mkWorld ∅ []).

Definition sys_emit (e : event) (sys : System) : System :=
  mkSystem (sys_proxy sys) (sys_mpds sys) (sys_next_id sys) (sys_threads sys)
    (sys_gets sys) (emit e (sys_world sys)).

Definition sys_write (path : string) (c : content) (sys : System) : System :=
  mkSystem (sys_proxy sys) (sys_mpds sys) (sys_next_id sys) (sys_threads sys)
    (sys_gets sys) (write_file path c (sys_world sys)).

Definition trickmode_scheme : string := "http://dashif.org/guidelines/trickmode".

(** The test of [handle_mpd] on an adaptation set: [find] returns the first
    [EssentialProperty] child, and the test reads that one. *)
Definition is_trickmode (a : AdaptationSet) : bool :=
  match as_EssentialProperty a with
  | ep :: _ =>
      bool_decide (ep_schemeIdUri ep = Some trickmode_scheme)
      && bool_decide (ep_value ep = Some "1")
  | [] => false
  end.

Definition get_base_url (proxy : DashProxy) (mpd : MPD) : result string :=
  let base_url := baseUrl (proxy_mpd proxy) in
  base_url ←
    match mpd_Location mpd with
    | Some text => baseUrl_text text
    | None => Ok base_url
    end;
  match mpd_BaseUrl mpd with
  | Some (true, text) =>
      match text with
      | None => Raise AttributeError
      | Some t =>
          if String.prefix "http://" t || String.prefix "https://" t
          then Ok (baseUrl t)
          else Ok (base_url +:+ t)
      end
  | _ => Ok base_url
  end.

Section Proxy.

Variable server : string → response.

(** [ensure_downloader], run from its first line to its last. *)
Definition ensure_downloader (proxy : DashProxy) (mpd : MPD) (rep_addr : RepAddrObj)
    (w : World) : result unit * DashProxy * MPD * World :=
  match downloaders proxy !! obj_id rep_addr with
  | Some _ =>
      (Ok (), proxy, mpd, emit (Log VERBOSE (MsgAlreadyStarted (obj_addr rep_addr))) w)
  | None =>
      let w := emit (Log INFO (MsgStarting (obj_addr rep_addr))) w in
      let downloader := DashDownloader_init (output_dir proxy) rep_addr in
      let register dl :=
        mkProxy (proxy_mpd proxy) (output_dir proxy) (save_mpds proxy) (i_refresh proxy)
          (<[obj_id rep_addr := dl]> (downloaders proxy)) in
      match get_base_url proxy mpd with
      | Raise e => (Raise e, register downloader, mpd, w)
      | Ok base_url =>
          let '(r, downloader, mpd, w) := handle_mpd server downloader mpd base_url w in
          (r, register downloader, mpd, w)
      end
  end.

(** The inner loop of [DashProxy.handle_mpd] over the representations of one
    adaptation set: every turn logs, builds a new [RepAddr] and starts a
    thread on it. *)
Fixpoint dispatch_representations (mpd_id as_idx rep_idx : nat)
    (representations : list Representation) (sys : System) : System :=
  match representations with
  | [] => sys
  | representation :: rest =>
      let sys := sys_emit (Log VERBOSE (MsgFoundRepresentation
                                          (default "UKN" (rep_id representation)))) sys in
      let rep_addr := mkObj (sys_next_id sys) (mkRepAddr 0 as_idx rep_idx) in
      let thread := mkThread mpd_id rep_addr in
      let sys := mkSystem (sys_proxy sys) (sys_mpds sys) (S (sys_next_id sys))
                   (sys_threads sys ++ [thread]) (sys_gets sys) (sys_world sys) in
      dispatch_representations mpd_id as_idx (S rep_idx) rest sys
  end.

(** The outer loop, over the adaptation sets of the first period as
    [findall] listed them before the loop. *)
Fixpoint dispatch_adaptation_sets (mpd_id as_idx : nat)
    (adaptation_sets : list AdaptationSet) (sys : System) : System :=
  match adaptation_sets with
  | [] => sys
  | adaptation_set :: rest =>
      let sys :=
        if is_trickmode adaptation_set then sys
        else dispatch_representations mpd_id as_idx 0
               (as_Representation adaptation_set) sys in
      dispatch_adaptation_sets mpd_id (S as_idx) rest sys
  end.

(** The copy of the manifest after the loop: the adaptation sets that passed
    the trick-mode test were removed from its first period. *)
Definition remove_trickmode (mpd : MPD) : MPD :=
  mkMPD (mpd_mediaPresentationDuration mpd) (mpd_minimumUpdatePeriod mpd)
    (mpd_Location mpd) (mpd_BaseUrl mpd)
    (match mpd_Period mpd with
     | period :: rest =>
         mkPeriod (period_attr_start period) (period_attr_duration period)
           (filter (fun a => is_trickmode a = false) (period_AdaptationSet period))
         :: rest
     | [] => []
     end).

Definition write_output_mpd (mpd : MPD) (sys : System) : result unit * System :=
  let sys := sys_emit (Log INFO MsgWriting) sys in
  let proxy := sys_proxy sys in
  if bool_decide (output_dir proxy = "") then (Raise FileNotFoundError, sys)
  else
    let sys := sys_write (path_join (output_dir proxy) "manifest.mpd") (Manifest mpd) sys in
    let sys :=
      if save_mpds proxy
      then sys_write (path_join (output_dir proxy)
                        ("manifest." +:+ pretty (i_refresh proxy) +:+ ".mpd"))
             (Manifest mpd) sys
      else sys in
    (Ok (), sys).

(** [DashProxy.handle_mpd] on the manifest object [mpd_id].  [refresh] is
    the call [self.refresh_mpd(after=10)]. *)
Definition DashProxy_handle_mpd (refresh : System → result unit * System)
    (mpd_id : nat) (sys : System) : result unit * System :=
  match sys_mpds sys !! mpd_id with
  | None => (Raise IndexError, sys)
  | Some mpd =>
      let sys := sys_emit (Log INFO MsgPeriods) sys in
      let sys := sys_emit (Log VERBOSE (MsgFoundPeriods (length (mpd_Period mpd)))) sys in
      match mpd_Period mpd with
      | [] => (Raise IndexError, sys)
      | period :: _ =>
          let sys := dispatch_adaptation_sets mpd_id 0 (period_AdaptationSet period) sys in
          match write_output_mpd (remove_trickmode mpd) sys with
          | (Raise e, sys) => (Raise e, sys)
          | (Ok _, sys) =>
              if bool_decide (default "" (mpd_minimumUpdatePeriod mpd) ≠ "")
              then refresh sys
              else (Ok (), sys_emit (Log INFO MsgVod) sys)
          end
      end
  end.

(** The manifest server: the answer to the n-th request ([None] when the
    client raises instead of answering). *)
Variable manifest_server : nat → option manifest_response.

(** [refresh_mpd].  [fuel] bounds the depth of the recursion, as the
    interpreter does; every retry and every live refresh is one call deeper.
    After the [if] on the status there is no [return]: whatever the branch
    did, the text of the response is parsed next. *)
Fixpoint refresh_mpd (fuel : nat) (after : Z) (error_cnt : Z) (sys : System)
  : result unit * System :=
  match fuel with
  | O => (Raise RecursionError, sys)
  | S fuel' =>
      let p := sys_proxy sys in
      let sys := mkSystem
                   (mkProxy (proxy_mpd p) (output_dir p) (save_mpds p)
                      (S (i_refresh p)) (downloaders p))
                   (sys_mpds sys) (sys_next_id sys) (sys_threads sys)
                   (sys_gets sys) (sys_world sys) in
      let sys := if after >? 0 then sys_emit (Sleep after) sys else sys in
      let answer := manifest_server (sys_gets sys) in
      let sys := mkSystem (sys_proxy sys) (sys_mpds sys) (sys_next_id sys)
                   (sys_threads sys) (S (sys_gets sys))
                   (emit (HttpGet (proxy_mpd p)) (sys_world sys)) in
      match answer with
      | None => (Raise RequestException, sys)
      | Some r =>
          let '(retried, sys) :=
            if (mr_status_code r <? 200) || (mr_status_code r >=? 300)
            then
              let error_cnt := error_cnt + 1 in
              let sys := sys_emit (Log WARNING (MsgCannotGet (mr_status_code r))) sys in
              if error_cnt <? 10
              then refresh_mpd fuel' retry_interval error_cnt sys
              else (Ok (), sys_emit (Log WARNING (MsgGivingUp error_cnt)) sys)
            else (Ok (), sys) in
          match retried with
          | Raise e => (Raise e, sys)
          | Ok _ =>
              match mr_text r with
              | None => (Raise ParseError, sys)
              | Some mpd =>
                  if bool_decide (output_dir p = "") then (Raise FileNotFoundError, sys)
                  else
                    let sys := sys_write (output_dir p +:+ "/manifest.mpd.orig")
                                 (Manifest mpd) sys in
                    let mpd_id := length (sys_mpds sys) in
                    let sys := mkSystem (sys_proxy sys) (sys_mpds sys ++ [mpd])
                                 (sys_next_id sys) (sys_threads sys) (sys_gets sys)
                                 (sys_world sys) in
                    DashProxy_handle_mpd (refresh_mpd fuel' 10 0) mpd_id sys
              end
          end
      end
  end.

(** [run]: the first refresh. *)
Definition run (fuel : nat) (sys : System) : result unit * System :=
  refresh_mpd fuel 0 0 (sys_emit (Log INFO MsgRunning) sys).

(** One started thread run from start to end.  An exception that leaves
    [ensure_downloader] ends the thread and nothing else. *)
Definition run_thread (th : Thread) (sys : System) : System :=
  match sys_mpds sys !! th_mpd th with
  | None => sys
  | Some mpd =>
      let '(_, proxy, mpd, w) :=
        ensure_downloader (sys_proxy sys) mpd (th_rep_addr th) (sys_world sys) in
      mkSystem proxy (<[th_mpd th := mpd]> (sys_mpds sys)) (sys_next_id sys)
        (sys_threads sys) (sys_gets sys) w
  end.

(** The threads of [ths] run one after the other, in the order given. *)
Definition run_threads (ths : list Thread) (sys : System) : System :=
  foldl (fun sys th => run_thread th sys) sys ths.

End Proxy.

(** ** Concurrent calls of [ensure_downloader] *)

(** Where a thread stands in [ensure_downloader]: before the membership
    test, between the test and the store into the dictionary, between the
    store and the call of the downloader, and after the call.  The test and
    the store are each one step of the interpreter; a thread switch can fall
    between them.  The semantics is one of the registry: the call of the
    downloader is a single step of it, so the switches that fall inside a
    pass, between a test of the disk and the write that follows it, are not
    part of it, and it says nothing of what interleaved passes do to the
    disk. *)
Inductive pc : Type := AtCheck | AtInsert | AtResolve | Finished.

#[global] Instance pc_eq_dec : EqDecision pc.
Proof. solve_decision. Defined.

(** The system and the position of each started thread. *)
Record Config : Type := mkConfig {
  cfg_sys : System;
  cfg_pcs : list pc
}.

Definition start_threads (sys : System) : Config :=
  mkConfig sys (replicate (length (sys_threads sys)) AtCheck).

Section Interleaving.

Variable server : string → response.

Definition set_registry (reg : gmap nat DashDownloader) (sys : System) : System :=
  let p := sys_proxy sys in
  mkSystem (mkProxy (proxy_mpd p) (output_dir p) (save_mpds p) (i_refresh p) reg)
    (sys_mpds sys) (sys_next_id sys) (sys_threads sys) (sys_gets sys) (sys_world sys).

(** The next step of thread [i]; the pass of the downloader is taken
    whole. *)
Definition step_thread (i : nat) (c : Config) : Config :=
  let sys := cfg_sys c in
  match sys_threads sys !! i, cfg_pcs c !! i with
  | Some th, Some AtCheck =>
      let key := obj_id (th_rep_addr th) in
      match downloaders (sys_proxy sys) !! key with
      | Some _ =>
          mkConfig (sys_emit (Log VERBOSE (MsgAlreadyStarted (obj_addr (th_rep_addr th)))) sys)
            (<[i := Finished]> (cfg_pcs c))
      | None =>
          mkConfig (sys_emit (Log INFO (MsgStarting (obj_addr (th_rep_addr th)))) sys)
            (<[i := AtInsert]> (cfg_pcs c))
      end
  | Some th, Some AtInsert =>
      let key := obj_id (th_rep_addr th) in
      let downloader := DashDownloader_init (output_dir (sys_proxy sys)) (th_rep_addr th) in
      mkConfig (set_registry (<[key := downloader]> (downloaders (sys_proxy sys))) sys)
        (<[i := AtResolve]> (cfg_pcs c))
  | Some th, Some AtResolve =>
      let key := obj_id (th_rep_addr th) in
      match downloaders (sys_proxy sys) !! key, sys_mpds sys !! th_mpd th with
      | Some downloader, Some mpd =>
          match get_base_url (sys_proxy sys) mpd with
          | Raise _ => mkConfig sys (<[i := Finished]> (cfg_pcs c))
          | Ok base_url =>
              let '(_, downloader, mpd, w) :=
                handle_mpd server downloader mpd base_url (sys_world sys) in
              let sys := set_registry (<[key := downloader]> (downloaders (sys_proxy sys))) sys in
              mkConfig
                (mkSystem (sys_proxy sys) (<[th_mpd th := mpd]> (sys_mpds sys))
                   (sys_next_id sys) (sys_threads sys) (sys_gets sys) w)
                (<[i := Finished]> (cfg_pcs c))
          end
      | _, _ => mkConfig sys (<[i := Finished]> (cfg_pcs c))
      end
  | _, _ => c
  end.

(** A schedule names the thread that moves next, step after step. *)
Definition run_schedule (schedule : list nat) (c : Config) : Config :=
  foldl (fun c i => step_thread i c) c schedule.

End Interleaving.

(** The downloaders registered for the positions [a]. *)
Definition downloaders_for (a : RepAddr) (proxy : DashProxy) : list DashDownloader :=
  filter (fun dl => obj_addr (dl_rep_addr dl) = a)
    (snd <$> map_to_list (downloaders proxy)).

(** ** The timeline rules in the words of the specification *)

(** An S-entry: an optional start time in ticks, a duration in ticks, a
    repeat count (0 when absent). *)
Record entry : Type := mkEntry {
  e_t : option N;
  e_d : N;
  e_r : option Z
}.

(** The [S] element that carries an entry. *)
Definition S_of_entry (e : entry) : S_elem :=
  mkS (pretty <$> e_t e) (Some (Z.of_N (e_d e))) (e_r e).

(** Every entry is copied; an entry with repeat count [r > 0] is followed by
    [r] more entries of the same duration and without a start time. *)
Definition spec_expand (es : list entry) : list entry :=
  flat_map
    (fun e => e :: replicate (Z.to_nat (default 0 (e_r e))) (mkEntry None (e_d e) None))
    es.

(** Start times are given left to right: an explicit [t] sets the clock, an
    entry without [t] takes the clock, and the clock then advances by the
    entry's duration.  A descriptor is a start time and a duration. *)
Fixpoint spec_assign (clock : Z) (es : list entry) : list (Z * Z) :=
  match es with
  | [] => []
  | e :: rest =>
      let start := from_option Z.of_N clock (e_t e) in
      (start, Z.of_N (e_d e)) :: spec_assign (start + Z.of_N (e_d e)) rest
  end.

Definition spec_resolve (es : list entry) : list (Z * Z) :=
  spec_assign 0 (spec_expand es).

(** The start time an [S] element carries: what [int(...)] reads in its
    [t], and -1 when there is no [t] or it cannot be read. *)
Definition start_time (s : S_elem) : Z :=
  match int_of_text (default "-1" (S_t s)) with
  | Ok t => t
  | Raise _ => -1
  end.

(** The descriptor an [S] element stands for once its start time is set. *)
Definition descriptor (s : S_elem) : Z * Z :=
  (start_time s, default 0 (S_d s)).

Definition descriptors (segments : list S_elem) : list (Z * Z) :=
  descriptor <$> segments.

(** ** Dispatch in the words of the specification *)

(** An adaptation set bears the trick-mode descriptor: one of its
    [EssentialProperty] children has the scheme and the value 1. *)
Definition bears_trickmode (a : AdaptationSet) : bool :=
  existsb
    (fun ep =>
       bool_decide (ep_schemeIdUri ep = Some trickmode_scheme)
       && bool_decide (ep_value ep = Some "1"))
    (as_EssentialProperty a).

(** The positions of every representation of every adaptation set that does
    not bear the descriptor, in document order; the sets are numbered from
    [as_idx]. *)
Fixpoint every_representation_from (as_idx : nat) (sets : list AdaptationSet)
  : list RepAddr :=
  match sets with
  | [] => []
  | a :: rest =>
      (if bears_trickmode a then []
       else mkRepAddr 0 as_idx <$> seq 0 (length (as_Representation a)))
      ++ every_representation_from (S as_idx) rest
  end.

Definition every_representation (sets : list AdaptationSet) : list RepAddr :=
  every_representation_from 0 sets.

(** The positions a thread was started for. *)
Definition thread_addr (th : Thread) : RepAddr := obj_addr (th_rep_addr th).

(** A manifest is live when it declares a minimum update period. *)
Definition is_live (mpd : MPD) : bool :=
  bool_decide (default "" (mpd_minimumUpdatePeriod mpd) ≠ "").

(** ** Identity of the registry keys *)

(** The identity of the [RepAddr] a thread was started on. *)
Definition thread_id (th : Thread) : nat := obj_id (th_rep_addr th).

(** What the main thread keeps true: the address objects of the threads
    started so far are the ones allocated so far, each thread was given a
    manifest that is on the heap, and the registry is as the program started
    with it (only the threads write to it). *)
Definition main_invariant (reg : gmap nat DashDownloader) (sys : System) : Prop :=
  thread_id <$> sys_threads sys = seq 0 (sys_next_id sys)
  ∧ Forall (fun th => (th_mpd th < length (sys_mpds sys))%nat) (sys_threads sys)
  ∧ downloaders (sys_proxy sys) = reg.

(** What every interleaving keeps true: a thread that has not yet stored
    into the registry finds its object absent from it, and a thread past the
    store has a downloader of its own under its object. *)
Definition interleaving_invariant (c : Config) : Prop :=
  let sys := cfg_sys c in
  let reg := downloaders (sys_proxy sys) in
  base.NoDup (thread_id <$> sys_threads sys)
  ∧ Forall (fun th => (th_mpd th < length (sys_mpds sys))%nat) (sys_threads sys)
  ∧ ∀ i th p, sys_threads sys !! i = Some th → cfg_pcs c !! i = Some p →
      match p with
      | AtCheck | AtInsert => reg !! thread_id th = None
      | AtResolve | Finished =>
          ∃ dl, reg !! thread_id th = Some dl ∧ dl_rep_addr dl = th_rep_addr th
      end.

(** The log lines a trace holds. *)
Definition messages (w : World) : list message :=
  omap (fun e => match e with Log _ m => Some m | _ => None end) (trace w).

(** ** Manifests used in the examples *)

Definition ex_adaptation_set : AdaptationSet :=
  mkAdaptationSet [] None [mkRepresentation (Some "v1") None].

(** Two periods: the first declares a duration, the second no start. *)
Definition ex_two_periods : MPD :=
  mkMPD None None None None
    [mkPeriod None (Some "PT10S") [ex_adaptation_set];
     mkPeriod None None [ex_adaptation_set]].

(** A template with the timeline [{t:0, d:10, r:2}]. *)
Definition ex_template_timeline : SegmentTemplate :=
  mkSegmentTemplate (Some "$RepresentationID$/init.mp4")
    (Some "$RepresentationID$/seg-$Time$.m4s") None (Some 1) None
    (Some [mkS (Some "0") (Some 10) (Some 2)]).

Definition ex_explicit : MPD :=
  mkMPD None None None None
    [mkPeriod None None
       [mkAdaptationSet [] (Some ex_template_timeline)
          [mkRepresentation (Some "v1") None]]].

(** A template with a fixed duration of 10 ticks, one tick a second, in a
    presentation of 25 seconds. *)
Definition ex_template_duration : SegmentTemplate :=
  mkSegmentTemplate None (Some "seg-$Number%05d$.m4s") (Some 10) (Some 1) None None.

Definition ex_implicit : MPD :=
  mkMPD (Some "PT25S") None None None
    [mkPeriod None None
       [mkAdaptationSet [] None
          [mkRepresentation (Some "a") (Some ex_template_duration)]]].

(** The entry the implicit mode synthesises for it. *)
Definition ex_synthesised : entry := mkEntry (Some 0%N) 10 (Some 3).

(** A server that answers every request with 200. *)
Definition ex_server (url : string) : response := Response 200 "data".

Definition ex_downloader : DashDownloader :=
  DashDownloader_init "out" (mkObj 0 (mkRepAddr 0 0 0)).

(** A disk that holds the four files of [ex_explicit]. *)
Definition ex_world_fetched : World :=
  mkWorld
    (list_to_map
       [("out/v1/init.mp4", Bytes "data"); ("out/v1/seg-0.m4s", Bytes "data");
        ("out/v1/seg-10.m4s", Bytes "data"); ("out/v1/seg-20.m4s", Bytes "data")])
    [].

(** The timeline [{t:0, d:10, r:2}] again, with an initialization template
    that asks for the segment number. *)
Definition ex_template_bad_init : SegmentTemplate :=
  mkSegmentTemplate (Some "init-$Number$.mp4") (Some "seg-$Time$.m4s") None (Some 1) None
    (Some [mkS (Some "0") (Some 10) (Some 2)]).

Definition ex_bad_init : MPD :=
  mkMPD None None None None
    [mkPeriod None None
       [mkAdaptationSet [] (Some ex_template_bad_init)
          [mkRepresentation (Some "v1") None]]].

(** An adaptation set with two representations and no descriptor. *)
Definition ex_two_representations : MPD :=
  mkMPD None None None None
    [mkPeriod None None
       [mkAdaptationSet [] (Some ex_template_timeline)
          [mkRepresentation (Some "v1") None; mkRepresentation (Some "v2") None]]].

(** The program before its first refresh, with [mpd] as one parsed manifest. *)
Definition ex_system (mpd : MPD) : System :=
  mkSystem (mkProxy "http://h/live.mpd" "out" false 0 ∅) [mpd] 0 [] 0 (mkWorld ∅ []).

(** A trick-mode set with one representation, then a set with two. *)
Definition ex_trickmode : MPD :=
  mkMPD None None None None
    [mkPeriod None None
       [mkAdaptationSet [mkEssentialProperty (Some trickmode_scheme) (Some "1")]
          (Some ex_template_timeline) [mkRepresentation (Some "t1") None];
        mkAdaptationSet [] (Some ex_template_timeline)
          [mkRepresentation (Some "v1") None; mkRepresentation (Some "v2") None]]].

(** The program before its first refresh. *)
Definition ex_boot : System := boot "http://h/live.mpd" "out" false.

(** A manifest server that always answers 404 with a text that is no XML,
    and one that always answers 503 with a text that parses as a manifest. *)
Definition ex_manifest_404 (n : nat) : option manifest_response :=
  Some (mkManifestResponse 404 None).

Definition ex_manifest_503 (n : nat) : option manifest_response :=
  Some (mkManifestResponse 503 (Some ex_explicit)).

(** A live manifest with one segment, and its successor, which has a second
    segment and is no longer live. *)
Definition ex_live_template (timeline : list S_elem) : SegmentTemplate :=
  mkSegmentTemplate None (Some "$RepresentationID$/seg-$Time$.m4s") None (Some 1) None
    (Some timeline).

Definition ex_live (minimumUpdatePeriod : option string) (timeline : list S_elem) : MPD :=
  mkMPD None minimumUpdatePeriod None None
    [mkPeriod None None
       [mkAdaptationSet [] (Some (ex_live_template timeline))
          [mkRepresentation (Some "v1") None]]].

Definition ex_manifest_live (n : nat) : option manifest_response :=
  match n with
  | O => Some (mkManifestResponse 200
                 (Some (ex_live (Some "PT10S") [mkS (Some "0") (Some 10) None])))
  | _ => Some (mkManifestResponse 200
                 (Some (ex_live None [mkS (Some "0") (Some 10) None;
                                      mkS (Some "10") (Some 10) None])))
  end.
(** ** Floats that are not negative *)

(** The sign bit of the float is clear and the float is a number: [0.0], a
    positive number, or the positive infinity. *)
Definition float_nonneg (x : float) : bool :=
  match x with
  | S754_zero false | S754_infinity false | S754_finite false _ _ => true
  | _ => false
  end.


(** ** Writing durations *)

(** One component of a duration text: a whole number and its designator, or
    nothing. *)
Definition duration_component (designator : ascii) (n : option N) : string :=
  match n with
  | Some n => pretty n +:+ String designator EmptyString
  | None => EmptyString
  end.

(** The duration text for whole days, hours, minutes and seconds, any of
    them left out, with the [T] separator always written. *)
Definition duration_text (d h m s : option N) : string :=
  "P" +:+ duration_component "D" d +:+ "T" +:+ duration_component "H" h
  +:+ duration_component "M" m +:+ duration_component "S" s.

(** The seconds such a text stands for, added up as the parser does it:
    seconds first, then minutes, hours and days with their weights, in
    floats. *)
Definition duration_seconds (d h m s : option N) : float :=
  let part n := nearest_float (Z.of_N (default 0%N n)) 1 in
  float_add
    (float_add
       (float_add (part s) (float_mul (float_of_Z 60) (part m)))
       (float_mul (float_of_Z (60 * 60)) (part h)))
    (float_mul (float_of_Z (24 * 60 * 60)) (part d)).

(** The text after a component: empty, or started by a letter that is not
    the designator [suffix] (the separator, or a later designator after its
    number). *)
Inductive follows (suffix : ascii) : string → Prop :=
| follows_end : follows suffix EmptyString
| follows_letter (c : ascii) (rest : string) :
    is_digit c = false → follows suffix (String c rest)
| follows_number (n : N) (c : ascii) (rest : string) :
    is_digit c = false → c ≠ "."%char → c ≠ suffix →
    follows suffix (pretty n +:+ String c rest).


(** ** More manifests for examples *)

(** Two periods with [start] attributes, the first one not at 0. *)
Definition ex_periods_started : MPD :=
  mkMPD None None None None
    [mkPeriod (Some "PT100S") None [ex_adaptation_set];
     mkPeriod (Some "PT150S") None [ex_adaptation_set]].

(** One period that declares its duration, in a manifest that does not
    declare the duration of the presentation. *)
Definition ex_period_duration : MPD :=
  mkMPD None None None None
    [mkPeriod None (Some "PT1M") [ex_adaptation_set]].

(** Two periods, the first with a template of fixed duration. *)
Definition ex_two_periods_implicit : MPD :=
  mkMPD (Some "PT25S") None None None
    [mkPeriod None (Some "PT10S")
       [mkAdaptationSet [] None
          [mkRepresentation (Some "a") (Some ex_template_duration)]];
     mkPeriod None None [ex_adaptation_set]].

(** ** Errors in the log *)

(** The messages logged as errors so far. *)
Definition errors (w : World) : list message :=
  omap (fun e => match e with Log ERROR m => Some m | _ => None end) (trace w).

(** ** What a pass may do to the world *)

(** The world [w'] comes from [w] by downloads under [base_url]: the files
    of [w] are still there with their content, and the events added are log
    lines and requests for URLs that start with [base_url]. *)
Definition downloads_under (base_url : string) (w w' : World) : Prop :=
  files w ⊆ files w'
  ∧ ∃ es, trace w' = trace w ++ es
          ∧ Forall (fun e => match e with
                             | Log _ _ => True
                             | HttpGet url => String.prefix base_url url = true
                             | Sleep _ => False
                             end) es.

(** A server that cannot be reached, and one that knows no segment. *)
Definition ex_server_down (url : string) : response := ConnectionError.

Definition ex_server_404 (url : string) : response := Response 404 "not found".

(** ** The second loop without its downloads *)

(** What the second loop of [handle_mpd] computes by itself on the children
    [timeline]: every [t] is read and every clock is printed, up to the
    first one that cannot be. *)
Fixpoint loop_check (timescale next_time : Z) (timeline : list S_elem) : result unit :=
  match timeline with
  | [] => Ok ()
  | segment :: rest =>
      '(_, next_time) ← assign_time next_time segment;
      _ ← time_info next_time timescale;
      loop_check timescale next_time rest
  end.

(** The [total] of the first loop: every duration counted once and once
    more for every repeat. *)
Definition timeline_total (segments : list S_elem) : Z :=
  foldl (fun total s => total + default 0 (S_d s) * (default 0 (S_r s) + 1)) 0 segments.

(** An adaptation set whose two representations share its template, which
    numbers the segments of the timeline [{t:0, d:10, r:2}]. *)
Definition ex_template_number : SegmentTemplate :=
  mkSegmentTemplate None (Some "$RepresentationID$/$Number$.m4s") None (Some 1) None
    (Some [mkS (Some "0") (Some 10) (Some 2)]).

Definition ex_shared : MPD :=
  mkMPD None None None None
    [mkPeriod None None
       [mkAdaptationSet [] (Some ex_template_number)
          [mkRepresentation (Some "v1") None; mkRepresentation (Some "v2") None]]].

Definition ex_manifest_shared (n : nat) : option manifest_response :=
  Some (mkManifestResponse 200 (Some ex_shared)).

(** ** The expansion in closed form *)

(** How often an [S] element is repeated: its [r] attribute when it is
    positive, else not at all ([range(0, repeat)] is empty for [r <= 0]). *)
Definition repeats (s : S_elem) : nat := Z.to_nat (default 0 (S_r s)).

(** What the expansion loop leaves of the elements it iterates: each one
    followed by its repeats, which carry the duration only. *)
Definition expansion (segments : list S_elem) : list S_elem :=
  flat_map
    (fun s => s :: replicate (repeats s) (mkS None (Some (default 0 (S_d s))) None))
    segments.

(** ** What one refresh dispatches *)

(** The positions for which the loops of [DashProxy.handle_mpd] start a
    thread: every representation of every adaptation set that fails the
    test on its first [EssentialProperty], in document order; the sets are
    numbered from [as_idx]. *)
Fixpoint dispatched_from (as_idx : nat) (sets : list AdaptationSet) : list RepAddr :=
  match sets with
  | [] => []
  | a :: rest =>
      (if is_trickmode a then []
       else mkRepAddr 0 as_idx <$> seq 0 (length (as_Representation a)))
      ++ dispatched_from (S as_idx) rest
  end.

Definition is_log (e : event) : bool :=
  match e with Log _ _ => true | _ => false end.

(** What the main thread may add to the trace: log lines, requests for the
    manifest URL, and pauses of ten seconds. *)
Definition main_event (url : string) (e : event) : Prop :=
  match e with
  | Log _ _ => True
  | HttpGet u => u = url
  | Sleep seconds => seconds = 10
  end.

(** The state [s'] comes from [sys] by steps of the main thread: the
    manifest URL is the same, the trace has grown by events of the main
    thread, and the manifests parsed before are still on the heap, in
    place. *)
Definition main_thread_steps (sys s' : System) : Prop :=
  proxy_mpd (sys_proxy s') = proxy_mpd (sys_proxy sys)
  ∧ (∃ es, trace (sys_world s') = trace (sys_world sys) ++ es
           ∧ Forall (main_event (proxy_mpd (sys_proxy sys))) es)
  ∧ ∃ mpds, sys_mpds s' = sys_mpds sys ++ mpds.

(** A manifest server that answers at once with a manifest that is not
    live. *)
Definition ex_manifest_vod (n : nat) : option manifest_response :=
  Some (mkManifestResponse 200 (Some ex_trickmode)).

(** A manifest without any period, and a server that delivers it. *)
Definition ex_no_period : MPD := mkMPD None None None None [].

Definition ex_manifest_no_period (n : nat) : option manifest_response :=
  Some (mkManifestResponse 200 (Some ex_no_period)).

(** ** Templates, piece by piece *)

(** A URL template as a sequence of literal text and placeholders. *)
Inductive piece : Type :=
| Text (s : string)
| PRepresentationID
| PNumber
| PNumberWidth (width : string)
| PTime.

(** How a piece is written in a template. *)
Definition template_piece (p : piece) : string :=
  match p with
  | Text s => s
  | PRepresentationID => "$RepresentationID$"
  | PNumber => "$Number$"
  | PNumberWidth width => "$Number%" +:+ width +:+ "d$"
  | PTime => "$Time$"
  end.

Fixpoint concat_strings (l : list string) : string :=
  match l with
  | [] => EmptyString
  | s :: rest => s +:+ concat_strings rest
  end.

Definition template_text (ps : list piece) : string :=
  concat_strings (template_piece <$> ps).

(** Literal text that holds no dollar sign and no brace. *)
Fixpoint plain (s : string) : bool :=
  match s with
  | EmptyString => true
  | String c r =>
      negb (Ascii.eqb c "$") && negb (Ascii.eqb c "{") && negb (Ascii.eqb c "}")
      && plain r
  end.

(** What may follow the closing dollar sign of a placeholder: nothing, or a
    character that does not start the name of a placeholder. *)
Definition safe_start (s : string) : bool :=
  match s with
  | EmptyString => true
  | String c _ =>
      negb (Ascii.eqb c "R") && negb (Ascii.eqb c "N") && negb (Ascii.eqb c "T")
  end.

(** The templates the rendering is meant for: plain literal text, widths
    made of digits, and after a placeholder no text that could be read as
    the name of another one. *)
Fixpoint well_formed (ps : list piece) : bool :=
  match ps with
  | [] => true
  | Text s :: rest => plain s && well_formed rest
  | PNumberWidth width :: rest =>
      all_digits width && safe_start (template_text rest) && well_formed rest
  | _ :: rest => safe_start (template_text rest) && well_formed rest
  end.

(** What a piece stands for, given the arguments of a call: the literal
    text, the id of the representation, the number in decimal (padded to the
    width asked for), the text of the [t] attribute of the segment; a
    placeholder without its argument is a [KeyError]. *)
Definition piece_value (representation : option Representation) (segment : option S_elem)
    (index : option Z) (p : piece) : result string :=
  match p with
  | Text s => Ok s
  | PRepresentationID =>
      match representation with
      | Some rep => Ok (default "" (rep_id rep))
      | None => Raise (KeyError "representation_id")
      end
  | PNumber =>
      match index with
      | Some i => Ok (pretty i)
      | None => Raise (KeyError "number")
      end
  | PNumberWidth width =>
      match index with
      | Some i => Ok (format_int i width)
      | None => Raise (KeyError "number")
      end
  | PTime =>
      match segment with
      | Some seg => Ok (default "" (S_t seg))
      | None => Raise (KeyError "time")
      end
  end.

(** The values of the pieces, left to right, up to the first that fails. *)
Fixpoint pieces_value (representation : option Representation) (segment : option S_elem)
    (index : option Z) (ps : list piece) : result string :=
  match ps with
  | [] => Ok EmptyString
  | p :: rest =>
      v ← piece_value representation segment index p;
      vs ← pieces_value representation segment index rest;
      Ok (v +:+ vs)
  end.

(** A piece in the text between two steps of [render_template]: after step
    [stage], the placeholders the steps so far look for are replacement
    fields, the others are still as they were written. *)
Definition stage_piece (stage : nat) (p : piece) : string :=
  match p with
  | Text s => s
  | PRepresentationID =>
      if (1 <=? stage)%nat then "{representation_id}" else "$RepresentationID$"
  | PNumber => if (2 <=? stage)%nat then "{number}" else "$Number$"
  | PNumberWidth width =>
      if (3 <=? stage)%nat then "{number:" +:+ width +:+ "d}"
      else "$Number%" +:+ width +:+ "d$"
  | PTime => if (4 <=? stage)%nat then "{time}" else "$Time$"
  end.

Definition stage_text (stage : nat) (ps : list piece) : string :=
  concat_strings (stage_piece stage <$> ps).

(** A stretch of text as a scan for a placeholder sees it: text without a
    dollar sign, the placeholder looked for, or another one. *)
Inductive item : Type :=
| Free (t : string)
| Hit
| Other (name : string).

Definition item_in (old : string) (i : item) : string :=
  match i with
  | Free t => t
  | Hit => old
  | Other name => "$" +:+ name +:+ "$"
  end.

Definition item_out (new : string) (i : item) : string :=
  match i with
  | Free t => t
  | Hit => new
  | Other name => "$" +:+ name +:+ "$"
  end.

Fixpoint dollar_free (s : string) : bool :=
  match s with
  | EmptyString => true
  | String c r => negb (Ascii.eqb c "$") && dollar_free r
  end.

(** The stretches a scan for [$oname$] goes through without harm: text
    without a dollar sign; the placeholder itself; another placeholder, whose
    closing dollar sign is not followed by [oname$]. *)
Fixpoint items_ok (oname : string) (items : list item) : Prop :=
  match items with
  | [] => True
  | Free t :: rest => dollar_free t = true ∧ items_ok oname rest
  | Hit :: rest => items_ok oname rest
  | Other name :: rest =>
      dollar_free name = true ∧ name ≠ oname
      ∧ String.prefix (oname +:+ "$")
          (concat_strings (item_in ("$" +:+ oname +:+ "$") <$> rest)) = false
      ∧ items_ok oname rest
  end.

(** How the scan of step [stage] (1, 2 or 4) sees a piece. *)
Definition classify (stage : nat) (p : piece) : item :=
  match p with
  | Text s => Free s
  | PRepresentationID =>
      if (stage =? 1)%nat then Hit else Free "{representation_id}"
  | PNumber =>
      if (stage =? 1)%nat then Other "Number"
      else if (stage =? 2)%nat then Hit else Free "{number}"
  | PNumberWidth width =>
      if (stage <=? 2)%nat then Other ("Number%" +:+ width +:+ "d")
      else Free ("{number:" +:+ width +:+ "d}")
  | PTime => if (stage =? 4)%nat then Hit else Other "Time"
  end.

(** The placeholder step [stage] (1, 2 or 4) looks for, and what it puts in
    its place. *)
Definition stage_name (stage : nat) : string :=
  if (stage =? 1)%nat then "RepresentationID"
  else if (stage =? 2)%nat then "Number" else "Time".

Definition stage_field (stage : nat) : string :=
  if (stage =? 1)%nat then "{representation_id}"
  else if (stage =? 2)%nat then "{number}" else "{time}".

(** The manifest [ex_explicit] with a [BaseUrl] element that has a URL as its
    text and no child. *)
Definition ex_base_url_text : MPD :=
  mkMPD None None None (Some (false, Some "http://cdn/")) (mpd_Period ex_explicit).

(** * Properties *)

(** ** Strings *)

Lemma append_cons (c : ascii) (s t : string) : String c s +:+ t = String c (s +:+ t).
Proof. reflexivity. Qed.

Lemma append_assoc (a b c : string) : (a +:+ b) +:+ c = a +:+ (b +:+ c).
Proof. induction a as [|x a IH]; [done|]. by rewrite !append_cons, IH. Qed.

Lemma append_nil_r (a : string) : a +:+ EmptyString = a.
Proof. induction a as [|x a IH]; [done|]. by rewrite append_cons, IH. Qed.

(** ** Decimal numerals *)

Lemma digits_value_acc (s : string) (acc : Z) :
  digits_value acc s = acc * 10 ^ Z.of_nat (String.length s) + digits_value 0 s.
Proof.
  revert acc. induction s as [|c s IH]; intros acc.
  - cbn. lia.
  - cbn [digits_value String.length]. rewrite (IH (10 * acc + digit_value c)), (IH (10 * 0 + digit_value c)).
    rewrite Nat2Z.inj_succ, Z.pow_succ_r by lia. lia.
Qed.

Lemma pretty_N_char_digit (x : N) : is_digit (pretty_N_char x) = true.
Proof. unfold pretty_N_char. by repeat case_match. Qed.

Lemma pretty_N_char_value (x : N) : (x < 10)%N → digit_value (pretty_N_char x) = Z.of_N x.
Proof.
  intros H.
  assert (x = 0 ∨ x = 1 ∨ x = 2 ∨ x = 3 ∨ x = 4 ∨ x = 5 ∨ x = 6 ∨ x = 7 ∨ x = 8 ∨ x = 9)%N
    as Hx by lia.
  repeat destruct Hx as [->|Hx]; try reflexivity. by subst.
Qed.

(** The numeral of a number consists of digits. *)
Lemma pretty_N_go_digits (x : N) (s : string) :
  span_digits s = (s, EmptyString) → span_digits (pretty_N_go x s) = (pretty_N_go x s, EmptyString).
Proof.
  revert s. induction (N.lt_wf_0 x) as [x _ IH]; intros s Hs.
  destruct (decide (x = 0%N)) as [->|Hx]; [by rewrite pretty_N_go_0|].
  rewrite pretty_N_go_step by lia. apply IH; [apply N.div_lt; lia|].
  cbn [span_digits]. by rewrite pretty_N_char_digit, Hs.
Qed.

Lemma pretty_N_go_value (x : N) (s : string) :
  digits_value 0 (pretty_N_go x s)
  = Z.of_N x * 10 ^ Z.of_nat (String.length s) + digits_value 0 s.
Proof.
  revert s. induction (N.lt_wf_0 x) as [x _ IH]; intros s.
  destruct (decide (x = 0%N)) as [->|Hx]; [rewrite pretty_N_go_0; lia|].
  rewrite pretty_N_go_step by lia. rewrite IH by (apply N.div_lt; lia).
  cbn [digits_value String.length].
  rewrite (digits_value_acc s), pretty_N_char_value by (apply N.mod_lt; lia).
  rewrite Nat2Z.inj_succ, Z.pow_succ_r by lia.
  pose proof (N.div_mod x 10 ltac:(lia)) as Hdm.
  rewrite N2Z.inj_mod, N2Z.inj_div.
  assert (Z.of_N x = 10 * (Z.of_N x `div` 10) + Z.of_N x `mod` 10) as Hz
    by (apply Z.div_mod; lia).
  change (Z.of_N 10) with 10. nia.
Qed.

Lemma pretty_N_digits (n : N) : span_digits (pretty n) = (pretty n, EmptyString).
Proof.
  unfold pretty, pretty_N. case_decide; [reflexivity|]. by apply pretty_N_go_digits.
Qed.

Lemma pretty_N_value (n : N) : digits_value 0 (pretty n) = Z.of_N n.
Proof.
  unfold pretty, pretty_N. case_decide as H; [by subst|].
  rewrite pretty_N_go_value. cbn. lia.
Qed.

Lemma pretty_N_nonempty (n : N) : pretty n ≠ EmptyString.
Proof.
  intros H. pose proof (pretty_N_value n) as Hv. rewrite H in Hv. cbn in Hv.
  assert (n = 0%N) as -> by lia. done.
Qed.

(** ** Reading integers *)

Lemma is_digit_not_space (c : ascii) : is_digit c = true → is_space c = false.
Proof.
  unfold is_digit, is_space. intros [H1 H2]%andb_prop.
  apply Nat.leb_le in H1, H2.
  repeat (apply orb_false_intro); try (apply Nat.eqb_neq; lia);
    apply andb_false_intro2, Nat.leb_gt; lia.
Qed.

Lemma rstrip_space_digits (ds : string) :
  span_digits ds = (ds, EmptyString) → rstrip_space ds = ds.
Proof.
  induction ds as [|c ds IH]; intros H; [done|].
  cbn in H. destruct (is_digit c) eqn:Hc; [|done].
  destruct (span_digits ds) as [ds' rest'] eqn:E. injection H as -> ->.
  cbn [rstrip_space]. rewrite IH by done.
  destruct ds; [by rewrite (is_digit_not_space c Hc)|done].
Qed.

Lemma int_digits_value (ds : string) (acc : Z) (after_digit : bool) :
  span_digits ds = (ds, EmptyString) → ds ≠ EmptyString ∨ after_digit = true →
  int_digits acc after_digit ds = Some (digits_value acc ds).
Proof.
  revert acc after_digit. induction ds as [|c ds IH]; intros acc b H Hne.
  - destruct Hne as [Hne| ->]; done.
  - cbn in H. destruct (is_digit c) eqn:Hc; [|done].
    destruct (span_digits ds) as [ds' rest'] eqn:E. injection H as -> ->.
    cbn [int_digits digits_value]. rewrite Hc. apply IH; [done|by right].
Qed.

(** [int(...)] reads a run of digits as the number it writes. *)
Lemma int_of_text_digits (ds : string) :
  span_digits ds = (ds, EmptyString) → ds ≠ EmptyString →
  int_of_text ds = Ok (digits_value 0 ds).
Proof.
  intros H Hne. unfold int_of_text.
  destruct ds as [|c ds]; [done|].
  assert (is_digit c = true) as Hc by (cbn in H; by destruct (is_digit c)).
  cbn [lstrip_space]. rewrite (is_digit_not_space c Hc), (rstrip_space_digits _ H).
  assert (c ≠ "-"%char ∧ c ≠ "+"%char) as [Hm Hp] by (split; intros ->; done).
  assert (int_digits 0 false (String c ds) = Some (digits_value 0 (String c ds))) as Hd
    by (apply int_digits_value; [done|by left]).
  destruct c as [[] [] [] [] [] [] [] []]; try done; by rewrite Hd.
Qed.

Lemma int_of_text_pretty_N (n : N) : int_of_text (pretty n) = Ok (Z.of_N n).
Proof.
  rewrite (int_of_text_digits _ (pretty_N_digits n) (pretty_N_nonempty n)).
  by rewrite pretty_N_value.
Qed.

(** [int(str(z))] is [z]. *)
Lemma int_of_text_pretty (z : Z) : int_of_text (pretty z) = Ok z.
Proof.
  destruct z as [|p|p].
  - reflexivity.
  - change (pretty (Z.pos p)) with (pretty (N.pos p)). by rewrite int_of_text_pretty_N.
  - change (pretty (Z.neg p)) with ("-" +:+ pretty (N.pos p)).
    pose proof (pretty_N_digits (N.pos p)) as Hd.
    pose proof (pretty_N_nonempty (N.pos p)) as Hne.
    pose proof (pretty_N_value (N.pos p)) as Hv.
    unfold int_of_text. change ("-" +:+ ?x) with (String "-" x).
    cbn [lstrip_space]. change (is_space "-") with false. cbv iota.
    cbn [rstrip_space]. rewrite (rstrip_space_digits _ Hd).
    destruct (pretty (N.pos p)) as [|c ds] eqn:E; [done|].
    rewrite (int_digits_value (String c ds) 0 false Hd) by (by left).
    rewrite Hv. reflexivity.
Qed.

(** ** Floats that are not negative *)

Lemma iter_pos_invariant {A} (P : A → Prop) (f : A → A) (p : positive) (x : A) :
  (∀ y, P y → P (f y)) → P x → P (SpecFloat.iter_pos f p x).
Proof.
  intros Hf. revert x. induction p as [p IH|p IH|]; intros x Hx; cbn; auto.
Qed.

Lemma shr_1_nonneg (mrs : shr_record) : 0 ≤ shr_m mrs → 0 ≤ shr_m (shr_1 mrs).
Proof. destruct mrs as [[|[p|p|]|p] r s]; cbn; lia. Qed.

Lemma shr_fexp_nonneg (m e : Z) (l : location) :
  0 ≤ m → 0 ≤ shr_m (shr_fexp prec emax m e l).1.
Proof.
  intros Hm. unfold shr_fexp, shr.
  assert (0 ≤ shr_m (shr_record_of_loc m l)) as H0 by (by destruct l as [|[]]).
  destruct (_ - e) as [|p|p]; cbn [fst]; try done.
  apply (iter_pos_invariant (fun mrs => 0 ≤ shr_m mrs)); [apply shr_1_nonneg|done].
Qed.

(** Rounding a mantissa that is not negative gives a float that is not
    negative: zero, a positive number, or the positive infinity. *)
Lemma binary_round_aux_nonneg (m e : Z) (l : location) :
  0 ≤ m → float_nonneg (binary_round_aux prec emax false m e l) = true.
Proof.
  intros Hm. unfold binary_round_aux.
  pose proof (shr_fexp_nonneg m e l Hm) as H1.
  destruct (shr_fexp prec emax m e l) as [mrs1 e1]. cbn [fst] in H1.
  assert (0 ≤ round_nearest_even (shr_m mrs1) (loc_of_shr_record mrs1)) as H2.
  { unfold round_nearest_even. destruct (loc_of_shr_record mrs1) as [|[]]; try done.
    - destruct (Z.even _); lia.
    - lia. }
  pose proof (shr_fexp_nonneg _ e1 loc_Exact H2) as H3.
  destruct (shr_fexp prec emax _ e1 loc_Exact) as [mrs2 e2]. cbn [fst] in H3.
  destruct (shr_m mrs2) as [|p|p]; [done| |lia].
  by destruct (e2 <=? emax - prec).
Qed.

Lemma nearest_float_nonneg (n : Z) (d : positive) :
  0 ≤ n → float_nonneg (nearest_float n d) = true.
Proof.
  intros Hn. destruct n as [|p|p]; [done| |lia].
  unfold nearest_float, float_div, SFdiv.
  destruct (SFdiv_core_binary prec emax (Z.pos p) 0 (Z.pos d) 0) as [[mz ez] lz] eqn:E.
  apply binary_round_aux_nonneg.
  unfold SFdiv_core_binary in E.
  destruct (Z.div_eucl _ (Z.pos d)) as [q r] eqn:Ed. injection E as <- _ _.
  assert (q = fst (Z.div_eucl
    match 0 - 0 - Z.min (fexp prec emax (Zdigits2 (Z.pos p) + 0 - (Zdigits2 (Z.pos d) + 0)))
                    (0 - 0) with
    | 0 => Z.pos p
    | Z.pos _ => Z.shiftl (Z.pos p)
        (0 - 0 - Z.min (fexp prec emax (Zdigits2 (Z.pos p) + 0 - (Zdigits2 (Z.pos d) + 0)))
                   (0 - 0))
    | Z.neg _ => 0
    end (Z.pos d))) as -> by (by rewrite Ed).
  apply Z.div_pos; [|lia].
  destruct (0 - 0 - _) as [|s|s]; [lia| |lia].
  apply Z.shiftl_nonneg. lia.
Qed.

Lemma float_mul_nonneg (mx : positive) (ex : Z) (y : float) :
  float_nonneg y = true → float_nonneg (float_mul (S754_finite false mx ex) y) = true.
Proof.
  intros Hy. destruct y as [[]|[]| |[] my ey]; try done.
  apply binary_round_aux_nonneg. lia.
Qed.

Lemma float_add_nonneg (x y : float) :
  float_nonneg x = true → float_nonneg y = true → float_nonneg (float_add x y) = true.
Proof.
  intros Hx Hy.
  destruct x as [[]|[]| |[] mx ex], y as [[]|[]| |[] my ey]; try done.
  unfold float_add, SFadd, binary_normalize. cbn [cond_Zopp].
  destruct (Z.pos _ + Z.pos _) as [|p|p] eqn:E; [done| |lia].
  unfold binary_round.
  destruct (shl_align p _ _) as [mz ez]. apply binary_round_aux_nonneg. lia.
Qed.

(** A float that is not negative compares as such with [0.0]; adding it to
    [0.0] gives it back. *)
Lemma float_nonneg_le (x : float) : float_nonneg x = true → float_le float_zero x = true.
Proof. by destruct x as [[]|[]| |[] m e]. Qed.

Lemma float_add_zero_l (x : float) : float_nonneg x = true → float_add float_zero x = x.
Proof. by destruct x as [[]|[]| |[] m e]. Qed.

(** Subtracting [0.0] changes no float. *)
Lemma float_sub_zero_r (x : float) : float_sub x float_zero = x.
Proof. by destruct x as [[]|[]| |[] m e]. Qed.

(** ** The duration parser *)

(** A run of digits is taken whole when no digit follows it. *)
Lemma span_digits_app (ds rest : string) :
  span_digits ds = (ds, EmptyString) →
  match rest with String c _ => is_digit c = false | EmptyString => True end →
  span_digits (ds +:+ rest) = (ds, rest).
Proof.
  revert rest. induction ds as [|c ds IH]; intros rest Hds Hrest.
  - change ("" +:+ rest) with rest.
    destruct rest as [|c r]; [done|]. cbn. by rewrite Hrest.
  - rewrite append_cons. cbn in *.
    destruct (is_digit c); [|done].
    destruct (span_digits ds) as [ds' r'] eqn:E.
    injection Hds as Hds1 Hds2. subst ds' r'.
    by rewrite (IH rest eq_refl Hrest).
Qed.

(** A run of digits followed by its designator is taken by [maybe]. *)
Lemma maybe_digits (suffix : ascii) (ds rest : string) :
  span_digits ds = (ds, EmptyString) → ds ≠ EmptyString →
  is_digit suffix = false → suffix ≠ "."%char →
  maybe suffix (ds +:+ String suffix rest) = (Some ds, rest).
Proof.
  intros Hds Hne Hsuf Hdot. unfold maybe, a_float.
  rewrite (span_digits_app ds (String suffix rest) Hds Hsuf).
  destruct ds as [|c ds]; [done|].
  clear Hsuf. destruct suffix as [[] [] [] [] [] [] [] []]; done.
Qed.

(** A designator that does not follow a number leaves the input alone. *)
Lemma maybe_absent (suffix : ascii) (s : string) :
  match s with String c _ => is_digit c = false | EmptyString => True end →
  maybe suffix s = (None, s).
Proof.
  intros H. unfold maybe, a_float.
  destruct s as [|c r]; cbn; [done|]. by rewrite H.
Qed.

(** Whatever follows [PT] is accepted. *)
Lemma ISO8601DurationSeconds_PT_prefix (s : string) :
  is_ok (ISO8601DurationSeconds ("PT" +:+ s)) = true.
Proof.
  change ("PT" +:+ s) with (String "P" (String "T" s)).
  unfold ISO8601DurationSeconds.
  rewrite (maybe_absent "D" (String "T" s)) by done.
  destruct (maybe "H" s) as [h r3], (maybe "M" r3) as [m r4], (maybe "S" r4) as [x r5].
  reflexivity.
Qed.

(** C5 (the code departs from the claim): a duration of days only, a valid
    restricted ISO-8601 duration, is refused because the pattern requires the
    [T] separator; and text after the matched prefix, including a year
    designator, is not looked at, so such malformed input yields a value
    instead of a failure. *)
Theorem ISO8601DurationSeconds_days_only_and_trailing_text :
  ISO8601DurationSeconds "P1D" = Raise (RuntimeError "Invalid duration: P1D")
  ∧ ISO8601DurationSeconds "PT1Sjunk" = Ok (float_of_Z 1)
  ∧ ISO8601DurationSeconds "PT1H1Y" = Ok (float_of_Z 3600).
Proof. repeat split; vm_compute; reflexivity. Qed.

(** ** Period timing *)

Import MpdLocator.

(** The first period starts at 0, whatever its attributes. *)
Lemma period_start_first (fuel : nat) (mpd : MPD) (rep_addr : RepAddr) (p : Period) :
  period mpd rep_addr = Ok p → period_idx rep_addr = 0%nat →
  period_start (S fuel) mpd rep_addr = Ok float_zero.
Proof.
  intros Hp Hidx. cbn [period_start]. rewrite Hp. cbn.
  rewrite Hidx. cbn.
  destruct (period_attr_start p); reflexivity.
Qed.

(** A later period with a [start] attribute starts at the parsed value
    minus the start of the first period. *)
Lemma period_start_explicit (fuel : nat) (mpd : MPD) (rep_addr : RepAddr)
    (p : Period) (text : string) (start : float) :
  period mpd rep_addr = Ok p → period_idx rep_addr ≠ 0%nat →
  period_attr_start p = Some text → ISO8601DurationSeconds text = Ok start →
  period_start (S (S fuel)) mpd rep_addr = Ok (float_sub start float_zero).
Proof.
  intros Hp Hidx Hstart Hparse.
  assert (∃ p0, period mpd (mkRepAddr 0 0 0) = Ok p0) as [p0 Hp0].
  { unfold period, index in *. destruct (periods mpd) as [|p0 ps]; [|by eexists].
    by rewrite lookup_nil in Hp. }
  remember (S fuel) as n. cbn [period_start]. rewrite Hp. cbn. rewrite Hstart.
  rewrite bool_decide_eq_true_2 by done. rewrite Hparse. cbn.
  subst n. by rewrite (period_start_first fuel mpd _ p0 Hp0 eq_refl).
Qed.

(** A later period without a [start] attribute: the call [RepAddr(idx - 1)]
    raises before the previous period is looked at. *)
Lemma period_start_no_start (fuel : nat) (mpd : MPD) (rep_addr : RepAddr) (p : Period) :
  period mpd rep_addr = Ok p → period_idx rep_addr ≠ 0%nat →
  period_attr_start p = None →
  period_start (S fuel) mpd rep_addr = Raise TypeError.
Proof.
  intros Hp Hidx Hstart. cbn [period_start]. rewrite Hp. cbn. rewrite Hstart.
  by rewrite bool_decide_eq_true_2 by done.
Qed.

(** C4 (the code departs from the claim): for the second of two periods,
    where the first declares a duration of 10 seconds and the second no
    start, [period_start] raises [TypeError] instead of returning 10. *)
Theorem period_start_second_period_raises (fuel : nat) :
  period_start (S fuel) ex_two_periods (mkRepAddr 1 0 0) = Raise TypeError.
Proof. by apply (period_start_no_start fuel _ _ (mkPeriod None None [ex_adaptation_set])). Qed.

(** Two frames are all [period_start] ever needs. *)
Lemma period_start_fuel (fuel : nat) (mpd : MPD) (rep_addr : RepAddr) :
  period_start (S (S fuel)) mpd rep_addr = period_start 2 mpd rep_addr.
Proof.
  destruct (period mpd rep_addr) as [p|e] eqn:Hp.
  2: { cbn [period_start]. by rewrite Hp. }
  destruct (decide (period_idx rep_addr = 0%nat)) as [H0|H0].
  { by rewrite !(period_start_first _ mpd rep_addr p Hp H0). }
  destruct (period_attr_start p) as [text|] eqn:Hs.
  2: { by rewrite !(period_start_no_start _ mpd rep_addr p Hp H0 Hs). }
  destruct (ISO8601DurationSeconds text) as [q|e] eqn:Hq.
  - by rewrite (period_start_explicit fuel mpd rep_addr p text q),
      (period_start_explicit 0 mpd rep_addr p text q).
  - remember (S fuel) as n. cbn [period_start]. rewrite Hp. cbn. rewrite Hs.
    rewrite bool_decide_eq_true_2 by done. by rewrite Hq.
Qed.

(** ** Timeline expansion *)

Lemma list_insert_at_length {A} (pre post : list A) (x : A) :
  list_insert_at (length pre) x (pre ++ post) = pre ++ x :: post.
Proof. unfold list_insert_at. by rewrite take_app_length, drop_app_length. Qed.

(** Inserting at the end of a prefix puts the new elements between the
    prefix and what follows it. *)
Lemma insert_repeats_app (n : nat) (d : Z) (pre post : list S_elem) :
  insert_repeats n d (length pre) (pre ++ post)
  = ((length pre + n)%nat, pre ++ replicate n (mkS None (Some d) None) ++ post).
Proof.
  revert pre. induction n as [|n IH]; intros pre; cbn [insert_repeats replicate].
  - by rewrite Nat.add_0_r.
  - rewrite list_insert_at_length.
    replace (S (length pre)) with (length (pre ++ [mkS None (Some d) None]))
      by (rewrite length_app; simpl; lia).
    rewrite (cons_middle _ pre post), (assoc (++)), IH.
    rewrite length_app, <- (assoc (++)). simpl. f_equal. lia.
Qed.

(** The expansion loop on the entries of a manifest timeline: when the
    entries still to visit are the tail of the timeline, what it leaves is
    the expansion the specification describes. *)
Lemma expand_loop_entries (es : list entry) (pre : list S_elem) (total : Z) :
  (expand_loop (S_of_entry <$> es) (length pre) total (pre ++ (S_of_entry <$> es))).2
  = pre ++ (S_of_entry <$> spec_expand es).
Proof.
  revert pre total. induction es as [|e es IH]; intros pre total.
  - reflexivity.
  - rewrite fmap_cons. cbn [expand_loop].
    set (n := Z.to_nat (default 0 (S_r (S_of_entry e)))).
    set (d := default 0 (S_d (S_of_entry e))).
    pose proof (insert_repeats_app n d (pre ++ [S_of_entry e]) (S_of_entry <$> es)) as H.
    rewrite length_app, Nat.add_1_r, <- (assoc (++)) in H.
    change ([S_of_entry e] ++ ?l) with (S_of_entry e :: l) in H.
    rewrite H. clear H.
    specialize (IH ((pre ++ [S_of_entry e]) ++ replicate n (mkS None (Some d) None))).
    rewrite !length_app, length_replicate, Nat.add_1_r in IH.
    rewrite (assoc (++)), IH.
    cbn [spec_expand flat_map]. fold (spec_expand es).
    rewrite fmap_app, fmap_cons, fmap_replicate, <- !(assoc (++)). reflexivity.
Qed.

(** The total the expansion loop adds up. *)
Lemma expand_loop_total (segments timeline : list S_elem) (idx : nat) (total : Z) :
  (expand_loop segments idx total timeline).1.2
  = foldl (fun total s => total + default 0 (S_d s) * (default 0 (S_r s) + 1))
      total segments.
Proof.
  revert timeline idx total.
  induction segments as [|s segments IH]; intros timeline idx total; [done|].
  cbn [expand_loop foldl].
  destruct (insert_repeats _ _ _ _) as [idx' timeline']. apply IH.
Qed.

(** ** The second loop *)

Lemma pretty_Z_of_N (n : N) : pretty (Z.of_N n) = pretty n.
Proof. by destruct n. Qed.

(** One turn of the second loop on an entry: the start time is the entry's
    or the clock, and it is written in decimal. *)
Lemma assign_time_entry (clock : Z) (e : entry) :
  let start := from_option Z.of_N clock (e_t e) in
  assign_time clock (S_of_entry e)
  = Ok (mkS (Some (pretty start)) (Some (Z.of_N (e_d e))) (e_r e),
        start + Z.of_N (e_d e)).
Proof.
  unfold assign_time, S_of_entry. destruct e as [[t|] d r]; cbn [S_t S_d S_r e_t e_d e_r
    fmap option_fmap option_map default from_option id].
  - rewrite int_of_text_pretty_N. cbn [mbind result_bind].
    assert ((Z.of_N t =? -1) = false) as -> by (apply Z.eqb_neq; lia).
    cbn [S_d default from_option id]. by rewrite pretty_Z_of_N.
  - reflexivity.
Qed.

Lemma start_time_assigned (start : Z) (d r : option Z) :
  start_time (mkS (Some (pretty start)) d r) = start.
Proof. unfold start_time. cbn [S_t default from_option id]. by rewrite int_of_text_pretty. Qed.

(** The clock of the second loop on entries is the clock of the
    specification, as long as every clock can be printed. *)
Lemma assign_times_entries (timescale : Z) (es : list entry) (clock : Z) :
  Forall (fun td => time_info (td.1 + td.2) timescale = Ok ()) (spec_assign clock es) →
  descriptors (assign_times timescale clock (S_of_entry <$> es)) = spec_assign clock es
  ∧ loop_check timescale clock (S_of_entry <$> es) = Ok ().
Proof.
  revert clock. induction es as [|e es IH]; intros clock H; [done|].
  rewrite fmap_cons. cbn [assign_times loop_check spec_assign] in *.
  rewrite assign_time_entry. cbn [mbind result_bind].
  inversion_clear H as [|? ? Hinfo Hrest]. cbn [fst snd] in Hinfo.
  rewrite Hinfo. cbn [mbind result_bind].
  destruct (IH _ Hrest) as [IH1 IH2]. split; [|done].
  unfold descriptors in *. rewrite fmap_cons, IH1. f_equal.
  unfold descriptor. by rewrite start_time_assigned.
Qed.

Section Loop.
Variable server : string → response.

(** When the second loop ends without an exception, it has visited every
    child and left it as [assign_times] tells. *)
Lemma media_loop_visited (dl : DashDownloader) (media : string)
    (rep : Representation) (startNumber timescale : Z) (todo : list S_elem) :
  ∀ (index : nat) (next_time : Z) (seen : list S_elem) (w : World),
    let '(r, visited, _) :=
      media_loop server dl media rep startNumber timescale index next_time seen todo w in
    r = Ok () → visited = seen ++ assign_times timescale next_time todo.
Proof.
  induction todo as [|segment rest IH]; intros index next_time seen w.
  - cbn. by rewrite app_nil_r.
  - cbn [media_loop assign_times].
    destruct (assign_time next_time segment) as [[segment' next_time']|e]; [|done].
    destruct (time_info next_time' timescale) as [[]|e]; [|done].
    destruct (download_template server dl media (Some rep) (Some segment') _ w)
      as [[[]|err] w1]; [|done].
    specialize (IH (S index) next_time' (seen ++ [segment']) w1).
    destruct (media_loop _ _ _ _ _ _ _ _ _ _ _) as [[r visited] w'].
    intros Hr. rewrite (IH Hr), <- (assoc (++)). reflexivity.
Qed.

(** When the loop can read every start time and print every clock, it
    downloads the segments of [assign_times], in order, up to the first
    download that raises. *)
Lemma media_loop_download_all (dl : DashDownloader) (media : string)
    (rep : Representation) (startNumber timescale : Z) (todo : list S_elem) :
  ∀ (index : nat) (next_time : Z) (seen : list S_elem) (w : World),
    loop_check timescale next_time todo = Ok () →
    let '(r, _, w') :=
      media_loop server dl media rep startNumber timescale index next_time seen todo w in
    (r, w') = download_all server dl media rep startNumber index
                (assign_times timescale next_time todo) w.
Proof.
  induction todo as [|segment rest IH]; intros index next_time seen w Hcheck; [done|].
  cbn [media_loop assign_times loop_check] in *.
  destruct (assign_time next_time segment) as [[segment' next_time']|e]; [|done].
  cbn [mbind result_bind] in Hcheck.
  destruct (time_info next_time' timescale) as [[]|e]; [|done].
  cbn [mbind result_bind] in Hcheck. cbn [download_all].
  destruct (download_template server dl media (Some rep) (Some segment') _ w)
    as [[[]|err] w1]; [|done].
  apply (IH (S index) next_time' (seen ++ [segment']) w1 Hcheck).
Qed.

End Loop.

(** ** A pass over a timeline with entries *)

(** The timeline an address resolves to after [set_timeline] on it. *)
Lemma segment_timeline_set_timeline (mpd : MPD) (rep_addr : RepAddr)
    (st : SegmentTemplate) (tl : list S_elem) :
  MpdLocator.segment_template mpd rep_addr = Ok (Some st) →
  MpdLocator.segment_timeline (set_timeline mpd rep_addr tl) rep_addr = Ok (Some tl).
Proof.
  unfold MpdLocator.segment_timeline, MpdLocator.segment_template,
    MpdLocator.representation, MpdLocator.adaptation_set, MpdLocator.period,
    MpdLocator.periods, index, set_timeline.
  cbn [mpd_Period]. rewrite !list_lookup_alter_eq.
  destruct (mpd_Period mpd !! period_idx rep_addr) as [p|]; [|done].
  cbn [mbind result_bind fmap option_fmap option_map period_AdaptationSet].
  rewrite list_lookup_alter_eq.
  destruct (period_AdaptationSet p !! adaptation_set_idx rep_addr) as [a|]; [|done].
  cbn [mbind result_bind fmap option_fmap option_map].
  unfold set_adaptation_set_timeline.
  destruct (as_Representation a !! representation_idx rep_addr) as [rep|] eqn:Hrep;
    [|done].
  cbn [mbind result_bind].
  destruct (rep_SegmentTemplate rep) as [rst|] eqn:Hrst.
  - cbn [as_Representation]. rewrite list_lookup_insert_eq
      by (by eapply lookup_lt_Some). cbn [mbind result_bind rep_SegmentTemplate]. done.
  - cbn [as_Representation as_SegmentTemplate]. rewrite Hrep.
    cbn [mbind result_bind]. rewrite Hrst.
    destruct (as_SegmentTemplate a) as [ast|]; [|done]. done.
Qed.

Section Resolved.
Variable server : string → response.

(** A pass over a timeline with entries as the manifest is parsed, where
    the download of the initialization segment, if one is due, raises
    nothing.  When the total and the end of every segment, in seconds, can
    be printed (the timescale is not 0 and the times are in the range of
    [timedelta]), the pass downloads one segment for each descriptor of the
    specification, in order and numbered from [startNumber], after the
    messages of the expansion and up to the first download that raises; and
    when it ends without an exception, the timeline of the manifest object
    holds these segments. *)
Theorem handle_mpd_explicit_timeline (dl : DashDownloader) (mpd : MPD) (base_url : string)
    (w : World) (rep : Representation) (st : SegmentTemplate) (e : entry)
    (es : list entry) (dl1 : DashDownloader) (w1 : World) :
  let rep_addr := obj_addr (dl_rep_addr dl) in
  let timescale := default 1 (st_timescale st) in
  MpdLocator.representation mpd rep_addr = Ok rep →
  MpdLocator.segment_template mpd rep_addr = Ok (Some st) →
  st_SegmentTimeline st = Some (S_of_entry <$> e :: es) →
  download_initialization server
    (mkDownloader (dl_output_dir dl) (dl_rep_addr dl) base_url
       (dl_initialization_downloaded dl)) st rep w = (Ok (), dl1, w1) →
  time_info (timeline_total (S_of_entry <$> e :: es)) timescale = Ok () →
  Forall (fun td => time_info (td.1 + td.2) timescale = Ok ()) (spec_resolve (e :: es)) →
  ∃ segs r mpd' w',
    handle_mpd server dl mpd base_url w = (r, dl1, mpd', w')
    ∧ descriptors segs = spec_resolve (e :: es)
    ∧ (r, w') = download_all server dl1 (default "" (st_media st)) rep
                  (default 0 (st_startNumber st)) 0 segs
                  (emits (replicate (length segs - length (e :: es))
                            (Log VERBOSE MsgAppending)) w1)
    ∧ (r = Ok () → MpdLocator.segment_timeline mpd' rep_addr = Ok (Some segs)).
Proof.
  intros rep_addr timescale Hrep Hst Htl Hinit Htotal Hclock.
  unfold handle_mpd. fold rep_addr.
  cbn [dl_rep_addr dl_initialization_downloaded dl_output_dir dl_mpd_base_url].
  fold rep_addr. unfold MpdLocator.segment_timeline. rewrite Hrep, Hst.
  cbn [mbind result_bind]. rewrite Hinit, Htl.
  change (S_of_entry <$> e :: es) with (S_of_entry e :: (S_of_entry <$> es)).
  cbn [select_timeline].
  pose proof (expand_loop_entries (e :: es) [] 0) as Hex.
  pose proof (expand_loop_total (S_of_entry <$> e :: es) (S_of_entry <$> e :: es) 0 0)
    as Htot.
  change (S_of_entry <$> e :: es) with (S_of_entry e :: (S_of_entry <$> es)) in Hex, Htot.
  cbn [app length] in Hex.
  destruct (expand_loop _ _ _ _) as [[idx total] expanded]. cbn [fst snd] in Hex, Htot.
  subst expanded total. fold timescale.
  change (foldl _ 0 (S_of_entry e :: (S_of_entry <$> es)))
    with (timeline_total (S_of_entry <$> e :: es)).
  rewrite Htotal.
  destruct (assign_times_entries timescale (spec_expand (e :: es)) 0 Hclock)
    as [Hdesc Hcheck].
  set (w2 := emits _ w1).
  pose proof (media_loop_download_all server dl1 (default "" (st_media st)) rep
                (default 0 (st_startNumber st)) timescale
                (S_of_entry <$> spec_expand (e :: es)) 0%nat 0 [] w2 Hcheck) as Hloop.
  pose proof (media_loop_visited server dl1 (default "" (st_media st)) rep
                (default 0 (st_startNumber st)) timescale
                (S_of_entry <$> spec_expand (e :: es)) 0%nat 0 [] w2) as Hvisited.
  destruct (media_loop _ _ _ _ _ _ _ _ _ _ _) as [[r visited] w'].
  exists (assign_times timescale 0 (S_of_entry <$> spec_expand (e :: es))), r.
  eexists _, w'. split; [reflexivity|]. split; [exact Hdesc|]. split.
  - rewrite Hloop. subst w2.
    assert (∀ tl n, length (assign_times timescale n tl) = length tl) as Hlen.
    { induction tl as [|s tl IH]; intros n; [done|]. cbn [assign_times].
      destruct (assign_time n s) as [[s' n']|]; [|done].
      destruct (time_info n' timescale); [|done]. cbn [length]. by rewrite IH. }
    rewrite Hlen. cbn [length]. by rewrite !length_fmap.
  - intros ->. rewrite (Hvisited eq_refl). cbn [app].
    pose proof (segment_timeline_set_timeline mpd rep_addr st
                  (S_of_entry <$> spec_expand (e :: es)) Hst) as H.
    unfold MpdLocator.segment_timeline in H.
    destruct (MpdLocator.segment_template (set_timeline mpd rep_addr _) rep_addr)
      as [[st'|]|] eqn:Hst'; [|done..].
    by apply (segment_timeline_set_timeline _ _ st').
Qed.

End Resolved.

(** The timeline [{t:0, d:10, r:2}], with the initialization segment
    behind: three segments, with start times 0, 10 and 20. *)
Lemma handle_mpd_explicit_timeline_witness :
  let dl := mkDownloader "out" (mkObj 0 (mkRepAddr 0 0 0)) "" true in
  let dl1 := mkDownloader "out" (mkObj 0 (mkRepAddr 0 0 0)) "http://h/" true in
  ∃ segs r mpd' w',
    handle_mpd ex_server dl ex_explicit "http://h/" (mkWorld ∅ []) = (r, dl1, mpd', w')
    ∧ descriptors segs = [(0, 10); (10, 10); (20, 10)]
    ∧ (r, w') = download_all ex_server dl1 "$RepresentationID$/seg-$Time$.m4s"
                  (mkRepresentation (Some "v1") None) 0 0 segs
                  (emits (replicate (length segs - 1) (Log VERBOSE MsgAppending))
                     (mkWorld ∅ []))
    ∧ (r = Ok () →
       MpdLocator.segment_timeline mpd' (mkRepAddr 0 0 0) = Ok (Some segs)).
Proof.
  assert (time_info 30 1 = Ok ()) as Htotal by (vm_compute; reflexivity).
  assert (Forall (fun td => time_info (td.1 + td.2) 1 = Ok ())
            [(0, 10); (10, 10); (20, 10)]) as Hclock
    by (repeat constructor; vm_compute; reflexivity).
  exact (handle_mpd_explicit_timeline ex_server
           (mkDownloader "out" (mkObj 0 (mkRepAddr 0 0 0)) "" true) ex_explicit "http://h/"
           (mkWorld ∅ []) (mkRepresentation (Some "v1") None) ex_template_timeline
           (mkEntry (Some 0%N) 10 (Some 2)) [] _ _
           eq_refl eq_refl eq_refl eq_refl Htotal Hclock).
Defined.

(** C2 (the code departs from the claim): the timeline [{t:0, d:10, r:2}]
    of a template that two representations share.  The downloader of the
    first representation resolves it to three segments, numbered 0 to 2, and
    leaves them in the manifest object, the first one still with its repeat
    count; the downloader of the second representation expands that
    timeline again and resolves five segments, with start times 0, 10, 20,
    10 and 20, numbered 0 to 4. *)
Theorem shared_timeline_resolved_twice :
  let '(r, s) := run ex_manifest_shared 1 ex_boot in
  let s' := run_threads ex_server (sys_threads s) s in
  r = Ok ()
  ∧ sys_mpds s = [ex_shared]
  ∧ thread_addr <$> sys_threads s = [mkRepAddr 0 0 0; mkRepAddr 0 0 1]
  ∧ requests (sys_world s')
    = ["http://h/live.mpd";
       "http://h/v1/0.m4s"; "http://h/v1/1.m4s"; "http://h/v1/2.m4s";
       "http://h/v2/0.m4s"; "http://h/v2/1.m4s"; "http://h/v2/2.m4s";
       "http://h/v2/3.m4s"; "http://h/v2/4.m4s"]
  ∧ (fun mpd => descriptors <$> (default [] <$> MpdLocator.segment_timeline mpd
                                                 (mkRepAddr 0 0 1)))
      <$> sys_mpds s'
    = [Ok [(0, 10); (10, 10); (20, 10); (10, 10); (20, 10)]].
Proof. vm_compute. done. Qed.

(** ** The implicit timeline *)

(** Past the end of the timeline, the new elements are appended. *)
Lemma insert_repeats_past_end (n : nat) (d : Z) (idx : nat) (timeline : list S_elem) :
  (length timeline ≤ idx)%nat →
  insert_repeats n d idx timeline
  = ((idx + n)%nat, timeline ++ replicate n (mkS None (Some d) None)).
Proof.
  revert idx timeline. induction n as [|n IH]; intros idx timeline Hlen;
    cbn [insert_repeats replicate].
  - by rewrite Nat.add_0_r, app_nil_r.
  - unfold list_insert_at. rewrite take_ge, drop_ge by lia.
    rewrite IH by (rewrite length_app; simpl; lia).
    rewrite <- (assoc (++)). simpl. f_equal. lia.
Qed.

(** Elements without a start time of their own follow one another on the
    clock, as long as every clock can be printed. *)
Lemma assign_times_replicate (timescale : Z) (n : nat) (d clock : Z) :
  Forall (fun k => time_info (clock + Z.of_nat (S k) * d) timescale = Ok ()) (seq 0 n) →
  assign_times timescale clock (replicate n (mkS None (Some d) None))
  = (fun k => mkS (Some (pretty (clock + Z.of_nat k * d))) (Some d) None) <$> seq 0 n
  ∧ loop_check timescale clock (replicate n (mkS None (Some d) None)) = Ok ().
Proof.
  revert clock. induction n as [|n IH]; intros clock H; [done|].
  cbn [replicate assign_times loop_check seq fmap list_fmap] in *.
  inversion_clear H as [|? ? H0 Hrest].
  unfold assign_time.
  cbn [S_t S_d S_r default from_option id mbind result_bind].
  change (int_of_text "-1") with (Ok (-1)). cbn [mbind result_bind].
  change (-1 =? -1) with true. cbv iota. cbn [S_d default from_option id].
  replace (clock + d) with (clock + Z.of_nat 1 * d) by lia. rewrite H0.
  cbn [mbind result_bind].
  destruct (IH (clock + Z.of_nat 1 * d)) as [IH1 IH2].
  { rewrite <- fmap_S_seq in Hrest. apply Forall_fmap in Hrest.
    revert Hrest. apply Forall_impl. intros k Hk. cbn in Hk.
    rewrite <- Hk. f_equal. lia. }
  split; [|exact IH2]. f_equal.
  - do 3 f_equal. lia.
  - rewrite IH1, <- fmap_S_seq, <- list_fmap_compose.
    apply list_fmap_ext. intros i k _. cbn -[Z.add Z.mul Z.of_nat].
    do 3 f_equal. lia.
Qed.

Section Implicit.
Variable server : string → response.

(** C3 (amended): without a timeline (or with one that has no entry), a
    template of fixed duration [d] and timescale [ts] makes the pass
    synthesise one entry with [t = 0], duration [d] and repeat count [r],
    the integer [math.ceil] gives for the float [(PEwc - PSwc) * ts / d]
    computed in double precision, and materialise its [r] repeats only: the
    synthesised entry itself is not put into the new timeline, and the
    manifest object is left as it was.  When the download of the
    initialization segment, if one is due, raises nothing, the start and
    the end of the period are derived without an exception, the repeat
    count is computed without an exception, and the total and the end of
    every segment can be printed as a [timedelta], the pass downloads
    exactly [r] segments, in order and numbered from [startNumber], up to
    the first download that raises, the k-th starting at [k * d] with
    duration [d]. *)
Theorem implicit_timeline_resolution (dl : DashDownloader) (mpd : MPD) (base_url : string)
    (w : World) (rep : Representation) (st : SegmentTemplate) (PSwc PEwc : float)
    (d r : Z) (dl1 : DashDownloader) (w1 : World) :
  let rep_addr := obj_addr (dl_rep_addr dl) in
  let ts := default 1 (st_timescale st) in
  let starts := (fun k => Z.of_nat k * d) <$> seq 0 (Z.to_nat r) in
  MpdLocator.representation mpd rep_addr = Ok rep →
  MpdLocator.segment_template mpd rep_addr = Ok (Some st) →
  (st_SegmentTimeline st = None ∨ st_SegmentTimeline st = Some []) →
  st_duration st = Some d →
  download_initialization server
    (mkDownloader (dl_output_dir dl) (dl_rep_addr dl) base_url
       (dl_initialization_downloaded dl)) st rep w = (Ok (), dl1, w1) →
  MpdLocator.period_start recursion_limit mpd rep_addr = Ok PSwc →
  MpdLocator.period_end recursion_limit mpd rep_addr = Ok PEwc →
  implicit_repeat PEwc PSwc ts d = Ok r →
  time_info (d * (r + 1)) ts = Ok () →
  Forall (fun t => time_info (t + d) ts = Ok ()) starts →
  ∃ res w',
    select_timeline mpd rep_addr st (st_SegmentTimeline st)
    = Ok ([mkS (Some "0") (Some d) (Some r)], [], false)
    ∧ handle_mpd server dl mpd base_url w = (res, dl1, mpd, w')
    ∧ (res, w') = download_all server dl1 (default "" (st_media st)) rep
                    (default 0 (st_startNumber st)) 0
                    ((fun t => mkS (Some (pretty t)) (Some d) None) <$> starts)
                    (emits (replicate (Z.to_nat r) (Log VERBOSE MsgAppending)) w1)
    ∧ descriptors ((fun t => mkS (Some (pretty t)) (Some d) None) <$> starts)
      = (fun t => (t, d)) <$> starts.
Proof.
  intros rep_addr ts starts Hrep Hst Htl Hd Hinit HPS HPE Hr Htotal Hclock.
  assert (select_timeline mpd rep_addr st (st_SegmentTimeline st)
          = Ok ([mkS (Some "0") (Some d) (Some r)], [], false)) as Hsel.
  { unfold select_timeline. rewrite Hd, HPS, HPE. cbn [default mbind result_bind].
    fold ts. unfold id.
    destruct Htl as [-> | ->]; by rewrite Hr. }
  destruct (assign_times_replicate ts (Z.to_nat r) d 0) as [Hassign Hcheck].
  { subst starts. apply Forall_fmap in Hclock.
    revert Hclock. apply Forall_impl. intros k Hk. cbn in Hk.
    rewrite <- Hk. f_equal. lia. }
  assert ((fun k => mkS (Some (pretty (0 + Z.of_nat k * d))) (Some d) None)
            <$> seq 0 (Z.to_nat r)
          = (fun t => mkS (Some (pretty t)) (Some d) None) <$> starts) as Hsegs.
  { subst starts. rewrite <- list_fmap_compose. by apply list_fmap_ext. }
  rewrite Hsegs in Hassign.
  unfold handle_mpd. fold rep_addr.
  cbn [dl_rep_addr dl_initialization_downloaded dl_output_dir dl_mpd_base_url].
  fold rep_addr. unfold MpdLocator.segment_timeline. rewrite Hrep, Hst.
  cbn [mbind result_bind]. rewrite Hinit, Hsel.
  cbn [expand_loop default from_option id S_d S_r].
  rewrite insert_repeats_past_end by (simpl; lia).
  cbn [expand_loop app length]. fold ts.
  replace (0 + d * (r + 1)) with (d * (r + 1)) by lia. rewrite Htotal.
  rewrite length_replicate, Nat.sub_0_r.
  set (w2 := emits _ w1).
  pose proof (media_loop_download_all server dl1 (default "" (st_media st)) rep
                (default 0 (st_startNumber st)) ts
                (replicate (Z.to_nat r) (mkS None (Some d) None)) 0%nat 0 [] w2 Hcheck)
    as Hloop.
  destruct (media_loop _ _ _ _ _ _ _ _ _ _ _) as [[res visited] w'].
  exists res, w'. split; [done|]. split; [done|]. split; [by rewrite Hloop, Hassign|].
  unfold descriptors. rewrite <- list_fmap_compose. apply list_fmap_ext.
  intros i t _. unfold descriptor. cbn [compose S_d default from_option id].
  by rewrite start_time_assigned.
Qed.

End Implicit.

(** For [d = 10], [ts = 1] and a period from 0 to 25 seconds the repeat
    count is 3: three segments, starting at 0, 10 and 20; the last one ends
    at 30. *)
Lemma implicit_timeline_resolution_witness :
  MpdLocator.period_start recursion_limit ex_implicit (mkRepAddr 0 0 0) = Ok float_zero
  ∧ MpdLocator.period_end recursion_limit ex_implicit (mkRepAddr 0 0 0)
    = Ok (float_of_Z 25)
  ∧ implicit_repeat (float_of_Z 25) float_zero 1 10 = Ok 3
  ∧ ∃ res w',
      select_timeline ex_implicit (mkRepAddr 0 0 0) ex_template_duration None
      = Ok ([mkS (Some "0") (Some 10) (Some 3)], [], false)
      ∧ handle_mpd ex_server ex_downloader ex_implicit "http://h/" (mkWorld ∅ [])
        = (res, mkDownloader "out" (mkObj 0 (mkRepAddr 0 0 0)) "http://h/" false,
           ex_implicit, w')
      ∧ (res, w') = download_all ex_server
                      (mkDownloader "out" (mkObj 0 (mkRepAddr 0 0 0)) "http://h/" false)
                      "seg-$Number%05d$.m4s" (mkRepresentation (Some "a")
                                                (Some ex_template_duration)) 0 0
                      [mkS (Some "0") (Some 10) None; mkS (Some "10") (Some 10) None;
                       mkS (Some "20") (Some 10) None]
                      (emits (replicate 3 (Log VERBOSE MsgAppending)) (mkWorld ∅ []))
      ∧ descriptors [mkS (Some "0") (Some 10) None; mkS (Some "10") (Some 10) None;
                     mkS (Some "20") (Some 10) None]
        = [(0, 10); (10, 10); (20, 10)].
Proof.
  assert (MpdLocator.period_start recursion_limit ex_implicit (mkRepAddr 0 0 0)
          = Ok float_zero) as HPS by reflexivity.
  assert (MpdLocator.period_end recursion_limit ex_implicit (mkRepAddr 0 0 0)
          = Ok (float_of_Z 25)) as HPE by (vm_compute; reflexivity).
  assert (implicit_repeat (float_of_Z 25) float_zero 1 10 = Ok 3) as Hr
    by (vm_compute; reflexivity).
  assert (time_info (10 * (3 + 1)) 1 = Ok ()) as Htotal by (vm_compute; reflexivity).
  assert (Forall (fun t => time_info (t + 10) 1 = Ok ()) [0; 10; 20]) as Hclock
    by (repeat constructor; vm_compute; reflexivity).
  split; [exact HPS|]. split; [exact HPE|]. split; [exact Hr|].
  exact (implicit_timeline_resolution ex_server ex_downloader ex_implicit "http://h/"
           (mkWorld ∅ []) (mkRepresentation (Some "a") (Some ex_template_duration))
           ex_template_duration float_zero (float_of_Z 25) 10 3 _ _
           eq_refl eq_refl (or_introl eq_refl) eq_refl eq_refl HPS HPE Hr Htotal Hclock).
Defined.

(** C3 (counterexample): the implicit mode does not expand the synthesised
    entry by the rules of the explicit mode, and its repeat count is not the
    ceiling of the exact quotient.  For [d = 10], [ts = 1] and a period of
    25 seconds the entry has repeat count 3; the explicit rules would give
    four segments (the entry and three more), the pass resolves three.  For
    a period of 2.2 seconds, [ts = 100] and [d = 110], where the quotient is
    exactly 2, the repeat count is 3.  For a period of
    0.33333333333333337 seconds, [ts = 3] and [d = 1] the repeat count is 1,
    and one tick is less than the period, which is the float
    [6004799503160662 / 2^54] times 3. *)
Lemma implicit_timeline_not_explicit_rules :
  (select_timeline ex_implicit (mkRepAddr 0 0 0) ex_template_duration None
   = Ok ([S_of_entry ex_synthesised], [], false)
   ∧ descriptors <$> resolved_segments ex_implicit (mkRepAddr 0 0 0)
     ≠ Ok (spec_resolve [ex_synthesised]))
  ∧ ((PEwc ← ISO8601DurationSeconds "PT2.2S"; implicit_repeat PEwc float_zero 100 110)
     = Ok 3
     ∧ 22 * 100 = 2 * (10 * 110))
  ∧ (ISO8601DurationSeconds "PT0.33333333333333337S"
     = Ok (S754_finite false 6004799503160662 (-54))
     ∧ implicit_repeat (S754_finite false 6004799503160662 (-54)) float_zero 3 1 = Ok 1
     ∧ 1 * 1 * 2 ^ 54 < 6004799503160662 * 3).
Proof. repeat split; try (vm_compute; done). Qed.

(** ** What a pass does to the world *)

Lemma prefix_app (a b : string) : String.prefix a (a +:+ b) = true.
Proof.
  induction a as [|x a IH]; [by destruct b|].
  rewrite append_cons. cbn. by destruct (ascii_dec x x).
Qed.

Lemma downloads_under_refl (base_url : string) (w : World) : downloads_under base_url w w.
Proof. split; [done|]. exists []. by rewrite app_nil_r. Qed.

Lemma downloads_under_trans (base_url : string) (w1 w2 w3 : World) :
  downloads_under base_url w1 w2 → downloads_under base_url w2 w3 →
  downloads_under base_url w1 w3.
Proof.
  intros [Hf1 (es1 & Ht1 & He1)] [Hf2 (es2 & Ht2 & He2)]. split; [by etrans|].
  exists (es1 ++ es2). split; [by rewrite Ht2, Ht1, <- (assoc (++))|].
  by apply Forall_app.
Qed.

Lemma downloads_under_log (base_url : string) (l : level) (m : message) (w : World) :
  downloads_under base_url w (emit (Log l m) w).
Proof. split; [done|]. exists [Log l m]. split; [done|]. by repeat constructor. Qed.

Lemma downloads_under_logs (base_url : string) (l : level) (m : message) (n : nat)
    (w : World) :
  downloads_under base_url w (emits (replicate n (Log l m)) w).
Proof.
  split; [done|]. exists (replicate n (Log l m)). split; [done|].
  induction n; by constructor.
Qed.

(** Creating directories adds directories and nothing else. *)
Lemma mkdirs_under (base_url : string) (paths : list string) (w : World) :
  downloads_under base_url w (mkdirs paths w).2.
Proof.
  revert w. induction paths as [|path rest IH]; intros w; [apply downloads_under_refl|].
  cbn [mkdirs]. destruct (isfile w path) eqn:Hfile; [apply downloads_under_refl|].
  destruct (isdir w path) eqn:Hdir; [apply IH|].
  eapply downloads_under_trans; [|apply IH].
  split; [|exists []; by rewrite app_nil_r].
  cbn. apply insert_subseteq.
  unfold isfile, isdir in *. by destruct (files w !! path) as [[]|].
Qed.

Lemma makedirs_under (base_url name : string) (w : World) :
  downloads_under base_url w (makedirs name w).2.
Proof.
  unfold makedirs. destruct name; [apply downloads_under_refl|apply mkdirs_under].
Qed.

Lemma create_file_under (base_url path : string) (c : content) (w w' : World) :
  create_file path c w = Some w' → downloads_under base_url w w'.
Proof.
  unfold create_file. destruct (ends_with_slash path); [done|].
  destruct (bool_decide (is_Some (files w !! path))) eqn:Hf; [done|].
  destruct (isdir w path); [done|]. intros [= <-].
  split; [|exists []; by rewrite app_nil_r].
  cbn. apply insert_subseteq. apply bool_decide_eq_false_1 in Hf.
  by apply eq_None_not_Some.
Qed.

Section World.
Variable server : string → response.

Lemma download_template_under (dl : DashDownloader) (template : string)
    (rep : option Representation) (seg : option S_elem) (idx : option Z) (w : World) :
  downloads_under (dl_mpd_base_url dl) w
    (download_template server dl template rep seg idx w).2.
Proof.
  unfold download_template.
  destruct (render_template template rep seg idx) as [dest|e];
    [|apply downloads_under_refl].
  destruct (isfile w (dest_path (dl_output_dir dl) dest)) eqn:Hfile;
    [apply downloads_under_log|].
  pose proof (makedirs_under (dl_mpd_base_url dl)
                (dirname (dest_path (dl_output_dir dl) dest)) w) as Hdirs.
  destruct (makedirs _ w) as [[[]|e] w0]; [|exact Hdirs].
  cbn [snd] in Hdirs.
  set (w1 := emit (HttpGet (full_url dl dest)) (emit _ w0)).
  assert (downloads_under (dl_mpd_base_url dl) w w1) as H1.
  { eapply downloads_under_trans; [exact Hdirs|].
    split; [done|]. eexists [_; _]. split; [subst w1; cbn; by rewrite <- (assoc (++))|].
    repeat constructor. apply prefix_app. }
  assert (∀ l m, downloads_under (dl_mpd_base_url dl) w (emit (Log l m) w1)) as Hlog.
  { intros l m. eapply downloads_under_trans; [exact H1|apply downloads_under_log]. }
  destruct (server _) as [|status body|status body]; [apply Hlog|..].
  - destruct (_ && _); [apply Hlog|]. destruct (_ && _); [|apply Hlog].
    destruct (create_file _ _ w1) as [w2|] eqn:Hc; [|apply Hlog].
    eapply downloads_under_trans; [exact H1|]. by eapply create_file_under.
  - destruct (_ && _); [apply Hlog|]. destruct (_ && _); [|apply Hlog].
    destruct (create_file _ _ w1) as [w2|] eqn:Hc; [|apply Hlog].
    eapply downloads_under_trans; [exact H1|].
    eapply downloads_under_trans; [by eapply create_file_under|].
    apply downloads_under_log.
Qed.

Lemma download_all_under (dl : DashDownloader) (media : string) (rep : Representation)
    (sn : Z) (segs : list S_elem) :
  ∀ (index : nat) (w : World),
    downloads_under (dl_mpd_base_url dl) w
      (download_all server dl media rep sn index segs w).2.
Proof.
  induction segs as [|seg rest IH]; intros index w; [apply downloads_under_refl|].
  cbn [download_all].
  pose proof (download_template_under dl media (Some rep) (Some seg)
                (Some (Z.of_nat index + sn)) w) as H.
  destruct (download_template server dl media (Some rep) (Some seg) _ w) as [[[]|e] w1];
    [|exact H].
  eapply downloads_under_trans; [exact H|apply IH].
Qed.

Lemma media_loop_under (dl : DashDownloader) (media : string) (rep : Representation)
    (sn timescale : Z) (todo : list S_elem) :
  ∀ (index : nat) (next_time : Z) (seen : list S_elem) (w : World),
    downloads_under (dl_mpd_base_url dl) w
      (media_loop server dl media rep sn timescale index next_time seen todo w).2.
Proof.
  induction todo as [|segment rest IH]; intros index next_time seen w;
    [apply downloads_under_refl|].
  cbn [media_loop].
  destruct (assign_time next_time segment) as [[segment' next_time']|e];
    [|apply downloads_under_refl].
  destruct (time_info next_time' timescale) as [[]|e]; [|apply downloads_under_refl].
  pose proof (download_template_under dl media (Some rep) (Some segment')
                (Some (Z.of_nat index + sn)) w) as H.
  destruct (download_template server dl media (Some rep) (Some segment') _ w)
    as [[[]|e] w1]; [|exact H].
  eapply downloads_under_trans; [exact H|apply IH].
Qed.

Lemma download_initialization_under (dl : DashDownloader) (st : SegmentTemplate)
    (rep : Representation) (w : World) :
  downloads_under (dl_mpd_base_url dl) w (download_initialization server dl st rep w).2
  ∧ dl_mpd_base_url (download_initialization server dl st rep w).1.2 = dl_mpd_base_url dl.
Proof.
  unfold download_initialization.
  destruct (negb _ && negb _); [|split; [apply downloads_under_refl|done]].
  set (dl1 := mkDownloader _ _ _ true).
  pose proof (download_template_under dl1 (default "" (st_initialization st))
                (Some rep) None None w) as H.
  by destruct (download_template server dl1 _ _ _ _ w) as [r w1].
Qed.

(** The invariant of a pass: [handle_mpd] leaves everything that was on disk
    where it was, with its content, and adds to the trace only log lines and
    requests under the base URL it was given. *)
Lemma handle_mpd_under (dl : DashDownloader) (mpd : MPD) (base_url : string) (w : World) :
  downloads_under base_url w (handle_mpd server dl mpd base_url w).2.
Proof.
  unfold handle_mpd.
  destruct (_ ← MpdLocator.representation mpd _; _) as [[[rep [st|]] tl]|e];
    try apply downloads_under_refl.
  set (dl0 := mkDownloader _ _ base_url _).
  destruct (download_initialization_under dl0 st rep w) as [H Hbase].
  destruct (download_initialization server dl0 st rep w) as [[r_init dl1] w1].
  subst dl0. cbn [fst snd dl_mpd_base_url] in H, Hbase.
  destruct r_init as [[]|e]; [|exact H].
  destruct (select_timeline mpd _ st tl) as [[[segments timeline] in_manifest]|e];
    [|exact H].
  destruct (expand_loop segments 0 0 timeline) as [[idx total] expanded].
  assert (downloads_under base_url w
            (emits (replicate (length expanded - length timeline)
                      (Log VERBOSE MsgAppending)) w1)) as H2
    by (eapply downloads_under_trans; [exact H|apply downloads_under_logs]).
  destruct (time_info total _) as [[]|e]; [|exact H2].
  pose proof (media_loop_under dl1 (default "" (st_media st)) rep
                (default 0 (st_startNumber st)) (default 1 (st_timescale st)) expanded
                0%nat 0 []
                (emits (replicate (length expanded - length timeline)
                          (Log VERBOSE MsgAppending)) w1)) as Hloop.
  rewrite Hbase in Hloop.
  destruct (media_loop _ _ _ _ _ _ _ _ _ _ _) as [[r visited] w'].
  eapply downloads_under_trans; [exact H2|exact Hloop].
Qed.

End World.

(** ** Fetching *)

Lemma requests_emit_log (l : level) (m : message) (w : World) :
  requests (emit (Log l m) w) = requests w.
Proof. unfold requests, emit. cbn. by rewrite omap_app, app_nil_r. Qed.

Lemma requests_emits_log (l : level) (m : message) (n : nat) (w : World) :
  requests (emits (replicate n (Log l m)) w) = requests w.
Proof.
  unfold requests, emits. cbn. rewrite omap_app.
  induction n as [|n IH]; cbn; [by rewrite app_nil_r|done].
Qed.

Section Fetch.
Variable server : string → response.

(** A template that renders to a file on disk: no request, the file
    untouched, one log line. *)
Lemma download_template_existing (dl : DashDownloader) (template : string)
    (rep : option Representation) (seg : option S_elem) (idx : option Z)
    (w : World) (dest : string) :
  render_template template rep seg idx = Ok dest →
  isfile w (dest_path (dl_output_dir dl) dest) = true →
  download_template server dl template rep seg idx w
  = (Ok (), emit (Log VERBOSE (MsgSkipping (dest_path (dl_output_dir dl) dest))) w).
Proof. intros Hr Hf. unfold download_template. by rewrite Hr, Hf. Qed.

(** With the file on disk, or a template that does not render, nothing is
    requested and no file changes. *)
Lemma download_template_on_disk (dl : DashDownloader) (template : string)
    (rep : option Representation) (seg : option S_elem) (idx : option Z) (w : World) :
  on_disk (dl_output_dir dl) w template rep seg idx = true →
  ∀ r w', download_template server dl template rep seg idx w = (r, w') →
  requests w' = requests w ∧ files w' = files w.
Proof.
  unfold on_disk. intros H r w' Hd.
  destruct (render_template template rep seg idx) as [dest|e] eqn:Hr.
  - rewrite (download_template_existing dl _ _ _ _ _ dest Hr H) in Hd.
    injection Hd as <- <-. by rewrite requests_emit_log.
  - unfold download_template in Hd. rewrite Hr in Hd. by injection Hd as <- <-.
Qed.

Lemma on_disk_files (dir : string) (w w' : World) (template : string)
    (rep : option Representation) (seg : option S_elem) (idx : option Z) :
  files w' = files w →
  on_disk dir w' template rep seg idx = on_disk dir w template rep seg idx.
Proof. intros H. unfold on_disk, isfile. by rewrite H. Qed.

Lemma all_on_disk_files (dir : string) (w w' : World) (media : string)
    (rep : Representation) (sn : Z) (segs : list S_elem) (index : nat) :
  files w' = files w →
  all_on_disk dir w' media rep sn index segs = all_on_disk dir w media rep sn index segs.
Proof.
  intros H. revert index. induction segs as [|seg rest IH]; intros index; [done|].
  cbn [all_on_disk]. by rewrite IH, (on_disk_files dir w w' _ _ _ _ H).
Qed.

(** The same for a run of media segments. *)
Lemma download_all_on_disk (dl : DashDownloader) (media : string)
    (rep : Representation) (sn : Z) (segs : list S_elem) :
  ∀ (index : nat) (w : World),
    all_on_disk (dl_output_dir dl) w media rep sn index segs = true →
    ∀ r w', download_all server dl media rep sn index segs w = (r, w') →
    requests w' = requests w ∧ files w' = files w.
Proof.
  induction segs as [|seg rest IH]; intros index w Hall r w' Hd.
  - by injection Hd as <- <-.
  - cbn [all_on_disk] in Hall. apply andb_prop in Hall as [H1 H2].
    cbn [download_all] in Hd.
    destruct (download_template server dl media (Some rep) (Some seg) _ w)
      as [r1 w1] eqn:Hd1.
    destruct (download_template_on_disk dl _ _ _ _ _ H1 r1 w1 Hd1) as [Hreq Hf].
    destruct r1 as [[]|e].
    + rewrite <- (all_on_disk_files _ w w1 _ _ _ _ _ Hf) in H2.
      destruct (IH (S index) w1 H2 r w' Hd) as [Hreq' Hf'].
      split; congruence.
    + by injection Hd as <- <-.
Qed.

End Fetch.

Section Pass.
Variable server : string → response.

(** The second loop, when the files of the children it would visit are on
    disk. *)
Lemma media_loop_on_disk (dl : DashDownloader) (media : string) (rep : Representation)
    (sn timescale : Z) (todo : list S_elem) :
  ∀ (index : nat) (next_time : Z) (seen : list S_elem) (w : World),
    all_on_disk (dl_output_dir dl) w media rep sn index
      (assign_times timescale next_time todo) = true →
    ∀ r visited w',
      media_loop server dl media rep sn timescale index next_time seen todo w
      = (r, visited, w') →
      requests w' = requests w ∧ files w' = files w.
Proof.
  induction todo as [|segment rest IH]; intros index next_time seen w Hall r visited w' Hl.
  - by injection Hl as <- <- <-.
  - cbn [media_loop assign_times] in *.
    destruct (assign_time next_time segment) as [[segment' next_time']|e];
      [|by injection Hl as <- <- <-].
    destruct (time_info next_time' timescale) as [[]|e];
      [|by injection Hl as <- <- <-].
    cbn [all_on_disk] in Hall. apply andb_prop in Hall as [H1 H2].
    destruct (download_template server dl media (Some rep) (Some segment') _ w)
      as [r1 w1] eqn:Hd1.
    destruct (download_template_on_disk server dl _ _ _ _ _ H1 r1 w1 Hd1) as [Hreq Hf].
    destruct r1 as [[]|e]; [|by injection Hl as <- <- <-].
    rewrite <- (all_on_disk_files _ w w1 _ _ _ _ _ Hf) in H2.
    destruct (IH (S index) next_time' _ w1 H2 r visited w' Hl) as [Hreq' Hf'].
    split; congruence.
Qed.

(** A pass whose files are all on disk leaves the requests and the files
    as they were, however it ends. *)
Lemma handle_mpd_on_disk (dl : DashDownloader) (mpd : MPD) (base_url : string) (w : World) :
  segments_on_disk dl w mpd = true →
  ∀ r dl' mpd' w', handle_mpd server dl mpd base_url w = (r, dl', mpd', w') →
  requests w' = requests w ∧ files w' = files w.
Proof.
  unfold segments_on_disk, handle_mpd, resolved_segments, download_initialization.
  set (rep_addr := obj_addr (dl_rep_addr dl)).
  cbn [dl_rep_addr dl_output_dir dl_initialization_downloaded dl_mpd_base_url].
  fold rep_addr.
  destruct (MpdLocator.representation mpd rep_addr) as [rep|]; [|done].
  destruct (MpdLocator.segment_template mpd rep_addr) as [[st|]|]; [|done..].
  cbn [mbind result_bind].
  destruct (MpdLocator.segment_timeline mpd rep_addr) as [tl|]; [|done].
  cbn [mbind result_bind].
  destruct (select_timeline mpd rep_addr st tl) as [[[segments timeline] in_manifest]|];
    [|done].
  cbn [mbind result_bind].
  destruct (expand_loop segments 0 0 timeline) as [[idx total] expanded].
  intros Hdisk r dl' mpd' w'.
  set (init := default "" (st_initialization st)) in *.
  set (timescale := default 1 (st_timescale st)) in *.
  assert (∃ segs, Ok segs = match time_info total timescale with
                            | Ok _ => Ok (assign_times timescale 0 expanded)
                            | Raise _ => Ok expanded
                            end :> result (list S_elem)) as [segs Hsegs]
    by (destruct (time_info total timescale); by eexists).
  rewrite <- Hsegs in Hdisk. apply andb_prop in Hdisk as [Hinit Hmedia].
  (* the initialization segment *)
  destruct (negb (bool_decide (init = "")) && negb (dl_initialization_downloaded dl))
    eqn:Hfetch.
  - apply andb_prop in Hfetch as [Hne Hnd].
    apply negb_true_iff in Hne, Hnd. rewrite Hne, Hnd in Hinit. cbn in Hinit.
    destruct (download_template server _ init (Some rep) None None w) as [r0 w0] eqn:Hd0.
    destruct (download_template_on_disk server
                (mkDownloader (dl_output_dir dl) (dl_rep_addr dl) base_url true)
                _ _ _ _ _ Hinit r0 w0 Hd0) as [Hreq0 Hf0].
    destruct r0 as [[]|e]; [|intros [= <- <- <- <-]; done].
    destruct (time_info total timescale) as [[]|e]; [|intros [= <- <- <- <-]].
    2: { split; [by rewrite requests_emits_log|done]. }
    injection Hsegs as ->.
    destruct (media_loop _ _ _ _ _ _ _ _ _ _ _) as [[r1 visited] w1] eqn:Hloop.
    intros [= <- <- <- <-].
    eapply media_loop_on_disk in Hloop as [Hreq1 Hf1].
    + rewrite Hreq1, Hf1, requests_emits_log. done.
    + cbn [dl_output_dir]. erewrite all_on_disk_files; [exact Hmedia|done].
  - destruct (time_info total timescale) as [[]|e]; [|intros [= <- <- <- <-]].
    2: { split; [by rewrite requests_emits_log|done]. }
    injection Hsegs as ->.
    destruct (media_loop _ _ _ _ _ _ _ _ _ _ _) as [[r1 visited] w1] eqn:Hloop.
    intros [= <- <- <- <-].
    eapply media_loop_on_disk in Hloop as [Hreq1 Hf1].
    + rewrite Hreq1, Hf1, requests_emits_log. done.
    + cbn [dl_output_dir]. erewrite all_on_disk_files; [exact Hmedia|done].
Qed.

End Pass.

(** C8: fetching is idempotent.  When the destination file of a rendered
    template is on disk, [download_template] issues no request and leaves
    the files as they are; and a pass of a downloader over a manifest all of
    whose segment files (the initialization segment and the resolved media
    segments) are on disk issues no request at all. *)
Theorem fetch_idempotent :
  (∀ (server : string → response) (dl : DashDownloader) (template : string)
     (rep : option Representation) (seg : option S_elem) (idx : option Z)
     (w : World) (dest : string),
      render_template template rep seg idx = Ok dest →
      isfile w (dest_path (dl_output_dir dl) dest) = true →
      ∃ w', download_template server dl template rep seg idx w = (Ok (), w')
            ∧ requests w' = requests w ∧ files w' = files w)
  ∧ (∀ (server : string → response) (dl : DashDownloader) (mpd : MPD)
       (base_url : string) (w : World),
      segments_on_disk dl w mpd = true →
      ∀ r dl' mpd' w', handle_mpd server dl mpd base_url w = (r, dl', mpd', w') →
      requests w' = requests w ∧ files w' = files w).
Proof.
  split.
  - intros server dl template rep seg idx w dest Hr Hf. eexists. split.
    + by apply download_template_existing.
    + by rewrite requests_emit_log.
  - intros server dl mpd base_url w. apply handle_mpd_on_disk.
Qed.

(** With the four files of the example on disk, a pass requests nothing. *)
Lemma fetch_idempotent_witness :
  segments_on_disk ex_downloader ex_world_fetched ex_explicit = true
  ∧ requests (handle_mpd ex_server ex_downloader ex_explicit "http://h/" ex_world_fetched).2
    = [].
Proof.
  assert (segments_on_disk ex_downloader ex_world_fetched ex_explicit = true) as H
    by (vm_compute; reflexivity).
  split; [exact H|].
  destruct (handle_mpd ex_server ex_downloader ex_explicit "http://h/" ex_world_fetched)
    as [[[r dl'] mpd'] w'] eqn:E.
  exact (proj1 (proj2 fetch_idempotent ex_server ex_downloader ex_explicit
                  "http://h/" ex_world_fetched H r dl' mpd' w' E)).
Defined.

(** ** A second pass after a complete one *)

Lemma errors_emit (e : event) (w : World) :
  errors (emit e w)
  = errors w ++ match e with Log ERROR m => [m] | _ => [] end.
Proof. unfold errors, emit. cbn [trace]. rewrite omap_app. by destruct e as [[] m| |]. Qed.

Lemma errors_emits_verbose (m : message) (n : nat) (w : World) :
  errors (emits (replicate n (Log VERBOSE m)) w) = errors w.
Proof.
  unfold errors, emits. cbn. rewrite omap_app.
  induction n as [|n IH]; cbn; [by rewrite app_nil_r|done].
Qed.

Lemma mkdirs_trace (paths : list string) (w : World) : trace (mkdirs paths w).2 = trace w.
Proof.
  revert w. induction paths as [|path rest IH]; intros w; [done|].
  cbn [mkdirs]. destruct (isfile w path); [done|]. rewrite IH. by destruct (isdir w path).
Qed.

Lemma makedirs_trace (name : string) (w : World) : trace (makedirs name w).2 = trace w.
Proof. unfold makedirs. destruct name; [done|apply mkdirs_trace]. Qed.

(** What a pass adds to the errors in the log, it adds at the end. *)
Lemma downloads_under_errors (base_url : string) (w w' : World) :
  downloads_under base_url w w' → (length (errors w) ≤ length (errors w'))%nat.
Proof.
  intros [_ (es & Ht & _)]. unfold errors. rewrite Ht, omap_app, length_app. lia.
Qed.

Lemma isfile_mono (w w' : World) (p : string) :
  files w ⊆ files w' → isfile w p = true → isfile w' p = true.
Proof.
  unfold isfile. intros Hsub H.
  destruct (files w !! p) as [c|] eqn:E; [|done].
  by rewrite (lookup_weaken _ _ _ _ E Hsub).
Qed.

Lemma on_disk_mono (dir : string) (w w' : World) (template : string)
    (rep : option Representation) (seg : option S_elem) (idx : option Z) :
  files w ⊆ files w' →
  on_disk dir w template rep seg idx = true → on_disk dir w' template rep seg idx = true.
Proof.
  unfold on_disk. intros Hsub. destruct (render_template template rep seg idx); [|done].
  by apply isfile_mono.
Qed.

Lemma all_on_disk_mono (dir : string) (w w' : World) (media : string)
    (rep : Representation) (sn : Z) (segs : list S_elem) (index : nat) :
  files w ⊆ files w' →
  all_on_disk dir w media rep sn index segs = true →
  all_on_disk dir w' media rep sn index segs = true.
Proof.
  intros Hsub. revert index. induction segs as [|seg rest IH]; intros index; [done|].
  cbn [all_on_disk]. intros [H1 H2]%andb_prop. apply andb_true_iff. split.
  - by eapply on_disk_mono.
  - by apply IH.
Qed.

Lemma create_file_isfile (path body : string) (w w' : World) :
  create_file path (Bytes body) w = Some w' → isfile w' path = true ∧ trace w' = trace w.
Proof.
  unfold create_file. destruct (_ || _ || _); [done|]. intros [= <-].
  unfold isfile, write_file. cbn. by rewrite lookup_insert_eq.
Qed.

Section SecondPass.
Variable server : string → response.

(** After a download that did not raise and logged no error, the file is on
    disk: whatever keeps the file from being stored is logged as an
    error. *)
Lemma download_template_fetched (dl : DashDownloader) (template : string)
    (rep : option Representation) (seg : option S_elem) (idx : option Z)
    (w w' : World) :
  download_template server dl template rep seg idx w = (Ok (), w') →
  length (errors w') = length (errors w) →
  on_disk (dl_output_dir dl) w' template rep seg idx = true.
Proof.
  unfold download_template, on_disk.
  destruct (render_template template rep seg idx) as [dest|e]; [|done].
  destruct (isfile w (dest_path (dl_output_dir dl) dest)) eqn:Hf.
  { intros [= <-]. done. }
  pose proof (makedirs_trace (dirname (dest_path (dl_output_dir dl) dest)) w) as Ht.
  destruct (makedirs _ w) as [[[]|e] w0]; [|done]. cbn [snd] in Ht.
  set (w1 := emit (HttpGet (full_url dl dest)) (emit _ w0)).
  assert (errors w1 = errors w) as He1.
  { subst w1. rewrite !errors_emit, !app_nil_r. unfold errors. by rewrite Ht. }
  assert (∀ m w2, trace w2 = trace w1 →
            length (errors (emit (Log ERROR m) w2)) = length (errors w) → False) as Hno.
  { intros m w2 Hw2. rewrite errors_emit, length_app. unfold errors at 1.
    rewrite Hw2. fold (errors w1). rewrite He1. cbn. lia. }
  destruct (server _) as [|status body|status body].
  - intros [= <-] H. by destruct (Hno _ w1 eq_refl H).
  - destruct (_ && _); [intros [= <-] H; by destruct (Hno _ w1 eq_refl H)|].
    destruct (_ && _); [|intros [= <-] H; by destruct (Hno _ w1 eq_refl H)].
    destruct (create_file _ _ w1) as [w2|] eqn:Hc;
      [|intros [= <-] H; by destruct (Hno _ w1 eq_refl H)].
    intros [= <-] _. by apply create_file_isfile in Hc as [Hc _].
  - destruct (_ && _); [intros [= <-] H; by destruct (Hno _ w1 eq_refl H)|].
    destruct (_ && _); [|intros [= <-] H; by destruct (Hno _ w1 eq_refl H)].
    destruct (create_file _ _ w1) as [w2|] eqn:Hc;
      [|intros [= <-] H; by destruct (Hno _ w1 eq_refl H)].
    intros [= <-] H. apply create_file_isfile in Hc as [_ Hc].
    by destruct (Hno _ w2 Hc H).
Qed.

(** The same for the second loop: when it ends without an exception and
    without an error in the log, the file of every child is on disk. *)
Lemma media_loop_fetched (dl : DashDownloader) (media : string) (rep : Representation)
    (sn timescale : Z) (todo : list S_elem) :
  ∀ (index : nat) (next_time : Z) (seen visited : list S_elem) (w w' : World),
    media_loop server dl media rep sn timescale index next_time seen todo w
    = (Ok (), visited, w') →
    length (errors w') = length (errors w) →
    all_on_disk (dl_output_dir dl) w' media rep sn index
      (assign_times timescale next_time todo) = true.
Proof.
  induction todo as [|segment rest IH]; intros index next_time seen visited w w' Hl He;
    [done|].
  cbn [media_loop assign_times] in *.
  destruct (assign_time next_time segment) as [[segment' next_time']|e]; [|done].
  destruct (time_info next_time' timescale) as [[]|e]; [|done].
  pose proof (download_template_under server dl media (Some rep) (Some segment')
                (Some (Z.of_nat index + sn)) w) as Hu1.
  destruct (download_template server dl media (Some rep) (Some segment') _ w)
    as [[[]|e] w1] eqn:Hd1; [|done].
  cbn [snd] in Hu1.
  pose proof (media_loop_under server dl media rep sn timescale rest (S index)
                next_time' (seen ++ [segment']) w1) as Hu2.
  rewrite Hl in Hu2. cbn [snd] in Hu2.
  pose proof (downloads_under_errors _ _ _ Hu1) as Hle1.
  pose proof (downloads_under_errors _ _ _ Hu2) as Hle2.
  cbn [all_on_disk]. apply andb_true_iff. split.
  - apply (on_disk_mono _ w1 w'); [apply Hu2|].
    apply (download_template_fetched dl _ _ _ _ w w1 Hd1). lia.
  - apply (IH _ _ _ _ _ _ Hl). lia.
Qed.

(** A pass of a new downloader that ends without an exception and without
    an error in the log leaves every file it resolved on disk, for any other
    new downloader of the same address and directory. *)
Lemma handle_mpd_fetched (dir : string) (a1 a2 : RepAddrObj) (mpd : MPD)
    (base_url : string) (w : World) (dl' : DashDownloader) (mpd' : MPD) (w' : World) :
  obj_addr a1 = obj_addr a2 →
  handle_mpd server (DashDownloader_init dir a1) mpd base_url w = (Ok (), dl', mpd', w') →
  errors w' = errors w →
  segments_on_disk (DashDownloader_init dir a2) w' mpd = true.
Proof.
  intros Ha Hpass Herr. apply (f_equal length) in Herr. revert Hpass.
  unfold segments_on_disk, handle_mpd, resolved_segments, DashDownloader_init,
    download_initialization.
  cbn [dl_rep_addr dl_output_dir dl_initialization_downloaded dl_mpd_base_url].
  rewrite <- Ha. set (rep_addr := obj_addr a1).
  unfold MpdLocator.segment_timeline.
  destruct (MpdLocator.representation mpd rep_addr) as [rep|]; [|done].
  destruct (MpdLocator.segment_template mpd rep_addr) as [[st|]|]; [|done..].
  cbn [mbind result_bind].
  set (tl := st_SegmentTimeline st).
  set (init := default "" (st_initialization st)).
  set (timescale := default 1 (st_timescale st)).
  set (dl1 := mkDownloader dir a1 base_url true).
  rewrite orb_false_r. cbn [negb]. rewrite andb_true_r.
  destruct (bool_decide (init = "")) eqn:Hinit; cbn [negb orb].
  - (* no initialization segment *)
    destruct (select_timeline mpd rep_addr st tl)
      as [[[segments timeline] in_manifest]|]; [|done].
    cbn [mbind result_bind].
    destruct (expand_loop segments 0 0 timeline) as [[idx total] expanded].
    destruct (time_info total timescale) as [[]|]; [|done].
    destruct (media_loop _ _ _ _ _ _ _ _ _ _ _) as [[r1 visited] w1] eqn:Hloop.
    intros [= -> <- <- <-].
    apply (media_loop_fetched _ _ _ _ _ _ _ _ _ _ _ _ Hloop).
    by rewrite errors_emits_verbose, Herr.
  - pose proof (download_template_under server dl1 init (Some rep) None None w) as Hu0.
    destruct (download_template server dl1 init (Some rep) None None w)
      as [[[]|] w0] eqn:Hd0; [|done].
    cbn [snd] in Hu0.
    destruct (select_timeline mpd rep_addr st tl)
      as [[[segments timeline] in_manifest]|]; [|done].
    cbn [mbind result_bind].
    destruct (expand_loop segments 0 0 timeline) as [[idx total] expanded].
    destruct (time_info total timescale) as [[]|]; [|done].
    set (w0' := emits _ w0).
    assert (downloads_under base_url w0 w0') as Hu1 by apply downloads_under_logs.
    pose proof (media_loop_under server dl1 (default "" (st_media st)) rep
                  (default 0 (st_startNumber st)) timescale expanded 0%nat 0 [] w0')
      as Hu2.
    destruct (media_loop _ _ _ _ _ _ _ _ _ _ _) as [[r1 visited] w1] eqn:Hloop.
    cbn [snd dl_mpd_base_url] in Hu2.
    intros [= -> <- <- <-].
    pose proof (downloads_under_errors _ _ _ Hu0) as Hle0.
    pose proof (downloads_under_errors _ _ _ Hu1) as Hle1.
    pose proof (downloads_under_errors _ _ _ Hu2) as Hle2.
    apply andb_true_iff. split.
    + apply (on_disk_mono _ w0 w1).
      { etrans; [apply Hu1|apply Hu2]. }
      apply (download_template_fetched dl1 _ _ _ _ w w0 Hd0). lia.
    + apply (media_loop_fetched _ _ _ _ _ _ _ _ _ _ _ _ Hloop). lia.
Qed.

End SecondPass.

(** A pass of a new downloader that ends without an exception and without
    an error in the log is followed by a pass that requests nothing and
    changes nothing on disk, when that pass is one of a new downloader of
    the same address on the same manifest as parsed (each refresh parses
    the manifest again and starts new downloaders): whatever keeps a segment
    from being stored is logged as an error. *)
Theorem second_pass_no_requests (server : string → response) (dir : string)
    (a1 a2 : RepAddrObj) (mpd : MPD) (base1 base2 : string) (w : World)
    (dl1 : DashDownloader) (mpd1 : MPD) (w1 : World) :
  obj_addr a1 = obj_addr a2 →
  handle_mpd server (DashDownloader_init dir a1) mpd base1 w = (Ok (), dl1, mpd1, w1) →
  errors w1 = errors w →
  ∀ r dl2 mpd2 w2,
    handle_mpd server (DashDownloader_init dir a2) mpd base2 w1 = (r, dl2, mpd2, w2) →
    requests w2 = requests w1 ∧ files w2 = files w1.
Proof.
  intros Ha H1 Herr r dl2 mpd2 w2 H2.
  eapply handle_mpd_on_disk; [|exact H2].
  by eapply handle_mpd_fetched.
Qed.

(** The example manifest: four requests in the first pass, none in the
    second. *)
Lemma second_pass_no_requests_witness :
  ∃ dl1 mpd1 w1,
    handle_mpd ex_server ex_downloader ex_explicit "http://h/" (mkWorld ∅ [])
    = (Ok (), dl1, mpd1, w1)
    ∧ errors w1 = errors (mkWorld ∅ [])
    ∧ length (requests w1) = 4%nat
    ∧ requests (handle_mpd ex_server (DashDownloader_init "out" (mkObj 1 (mkRepAddr 0 0 0)))
                  ex_explicit "http://h/" w1).2
      = requests w1.
Proof.
  destruct (handle_mpd ex_server ex_downloader ex_explicit "http://h/" (mkWorld ∅ []))
    as [[[r1 dl1] mpd1] w1] eqn:E1.
  assert (r1 = Ok () ∧ errors w1 = errors (mkWorld ∅ []) ∧ length (requests w1) = 4%nat)
    as (-> & Herr & Hlen).
  { vm_compute in E1. injection E1 as <- _ _ <-. by vm_compute. }
  exists dl1, mpd1, w1. split; [reflexivity|]. split; [exact Herr|]. split; [exact Hlen|].
  destruct (handle_mpd ex_server (DashDownloader_init "out" (mkObj 1 (mkRepAddr 0 0 0)))
              ex_explicit "http://h/" w1) as [[[r2 dl2] mpd2] w2] eqn:E2.
  exact (proj1 (second_pass_no_requests ex_server "out"
                  (mkObj 0 (mkRepAddr 0 0 0)) (mkObj 1 (mkRepAddr 0 0 0))
                  ex_explicit "http://h/" "http://h/" (mkWorld ∅ []) dl1 mpd1 w1
                  eq_refl E1 Herr r2 dl2 mpd2 w2 E2)).
Defined.

(** ** Template-render failures *)

Section Render.
Variable server : string → response.

(** Rendering is outside the [try]: what it raises leaves
    [download_template], and nothing was done. *)
Lemma download_template_render_raises (dl : DashDownloader) (template : string)
    (rep : option Representation) (seg : option S_elem) (idx : option Z)
    (w : World) (e : exn) :
  render_template template rep seg idx = Raise e →
  download_template server dl template rep seg idx w = (Raise e, w).
Proof. intros H. unfold download_template. by rewrite H. Qed.

(** The downloads stop at the first segment whose template does not
    render: the world is the one the segments before it left. *)
Lemma download_all_stops (dl : DashDownloader) (media : string)
    (rep : Representation) (sn : Z) (before : list S_elem) (seg : S_elem)
    (after : list S_elem) (e : exn) :
  ∀ (index : nat) (w w1 : World),
    download_all server dl media rep sn index before w = (Ok (), w1) →
    render_template media (Some rep) (Some seg)
      (Some (Z.of_nat (index + length before) + sn)) = Raise e →
    download_all server dl media rep sn index (before ++ seg :: after) w = (Raise e, w1).
Proof.
  induction before as [|s before IH]; intros index w w1 Hb Hr.
  - injection Hb as <-. cbn [app download_all length] in *.
    rewrite Nat.add_0_r in Hr.
    by rewrite (download_template_render_raises dl media _ _ _ w e Hr).
  - cbn [app download_all length] in *.
    destruct (download_template server dl media (Some rep) (Some s) _ w)
      as [[[]|e'] w0]; [|done].
    apply (IH (S index) w0 w1 Hb).
    by replace (S index + length before)%nat with (index + S (length before))%nat by lia.
Qed.

(** The same for the initialization segment: the pass ends before the
    timeline is looked at. *)
Lemma handle_mpd_initialization_raises (dl : DashDownloader) (mpd : MPD)
    (base_url : string) (w : World) (rep : Representation) (st : SegmentTemplate)
    (e : exn) :
  MpdLocator.representation mpd (obj_addr (dl_rep_addr dl)) = Ok rep →
  MpdLocator.segment_template mpd (obj_addr (dl_rep_addr dl)) = Ok (Some st) →
  default "" (st_initialization st) ≠ "" →
  dl_initialization_downloaded dl = false →
  render_template (default "" (st_initialization st)) (Some rep) None None = Raise e →
  handle_mpd server dl mpd base_url w
  = (Raise e, mkDownloader (dl_output_dir dl) (dl_rep_addr dl) base_url true, mpd, w).
Proof.
  intros Hrep Hst Hne Hnd Hr.
  unfold handle_mpd, download_initialization, MpdLocator.segment_timeline.
  cbn [dl_rep_addr dl_output_dir dl_initialization_downloaded dl_mpd_base_url].
  rewrite Hrep, Hst. cbn [mbind result_bind].
  rewrite Hnd, (bool_decide_eq_false_2 _ Hne). cbn [negb andb].
  by rewrite (download_template_render_raises _ _ _ _ _ w e Hr).
Qed.

End Render.

(** C7 (amended): a template that does not render ends the pass of its
    representation.  For the initialization segment, [handle_mpd] returns the
    exception with the manifest and the world untouched; for a media segment,
    the downloads stop there, with the world as the segments before it left
    it, and no later segment is rendered or fetched.  The exception ends the
    thread of that representation only: the threads that follow are run
    whatever the outcome. *)
Theorem render_failure_ends_pass :
  (∀ (server : string → response) (dl : DashDownloader) (mpd : MPD)
     (base_url : string) (w : World) (rep : Representation) (st : SegmentTemplate)
     (e : exn),
      MpdLocator.representation mpd (obj_addr (dl_rep_addr dl)) = Ok rep →
      MpdLocator.segment_template mpd (obj_addr (dl_rep_addr dl)) = Ok (Some st) →
      default "" (st_initialization st) ≠ "" →
      dl_initialization_downloaded dl = false →
      render_template (default "" (st_initialization st)) (Some rep) None None = Raise e →
      ∃ dl', handle_mpd server dl mpd base_url w = (Raise e, dl', mpd, w))
  ∧ (∀ (server : string → response) (dl : DashDownloader) (media : string)
       (rep : Representation) (sn : Z) (before : list S_elem) (seg : S_elem)
       (after : list S_elem) (e : exn) (index : nat) (w w1 : World),
      download_all server dl media rep sn index before w = (Ok (), w1) →
      render_template media (Some rep) (Some seg)
        (Some (Z.of_nat (index + length before) + sn)) = Raise e →
      download_all server dl media rep sn index (before ++ seg :: after) w = (Raise e, w1))
  ∧ (∀ (server : string → response) (th : Thread) (ths : list Thread) (sys : System),
      run_threads server (th :: ths) sys = run_threads server ths (run_thread server th sys)).
Proof.
  split; [|split].
  - intros. eexists. by eapply handle_mpd_initialization_raises.
  - intros. by eapply download_all_stops.
  - reflexivity.
Qed.

(** An initialization template that asks for the segment number. *)
Lemma render_failure_ends_pass_witness :
  render_template "init-$Number$.mp4" (Some (mkRepresentation (Some "v1") None)) None None
  = Raise (KeyError "number")
  ∧ ∃ dl', handle_mpd ex_server ex_downloader ex_bad_init "http://h/" (mkWorld ∅ [])
           = (Raise (KeyError "number"), dl', ex_bad_init, mkWorld ∅ []).
Proof.
  split; [reflexivity|].
  exact (proj1 render_failure_ends_pass ex_server ex_downloader ex_bad_init "http://h/"
           (mkWorld ∅ []) (mkRepresentation (Some "v1") None) ex_template_bad_init
           (KeyError "number") eq_refl eq_refl ltac:(discriminate) eq_refl eq_refl).
Defined.

(** C7 (counterexample): the initialization template [init-$Number$.mp4]
    has a recognised placeholder without an argument.  The three media
    segments of the representation resolve and would render, yet the pass
    ends with [KeyError] and requests none of them. *)
Lemma render_failure_not_one_segment_only :
  descriptors <$> resolved_segments ex_bad_init (mkRepAddr 0 0 0)
  = Ok [(0, 10); (10, 10); (20, 10)]
  ∧ render_template "seg-$Time$.m4s" (Some (mkRepresentation (Some "v1") None))
      (Some (mkS (Some "10") (Some 10) None)) (Some 1)
    = Ok "seg-10.m4s"
  ∧ (let '(r, _, _, w) :=
       handle_mpd ex_server ex_downloader ex_bad_init "http://h/" (mkWorld ∅ []) in
     r = Raise (KeyError "number") ∧ requests w = []).
Proof. split; [reflexivity|]. split; [reflexivity|]. vm_compute. done. Qed.

(** ** Dispatch *)

(** The inner loop starts one thread for every representation, on a new
    [RepAddr] each, and leaves the proxy, the manifests and the files alone. *)
Lemma dispatch_representations_spec (mpd_id as_idx : nat) (reps : list Representation) :
  ∀ (rep_idx : nat) (sys : System),
    let sys' := dispatch_representations mpd_id as_idx rep_idx reps sys in
    sys_proxy sys' = sys_proxy sys ∧ sys_mpds sys' = sys_mpds sys
    ∧ files (sys_world sys') = files (sys_world sys)
    ∧ sys_threads sys'
      = sys_threads sys
        ++ ((fun k => mkThread mpd_id
                        (mkObj (sys_next_id sys + k) (mkRepAddr 0 as_idx (rep_idx + k))))
              <$> seq 0 (length reps)).
Proof.
  induction reps as [|rep reps IH]; intros rep_idx sys; cbn [dispatch_representations].
  - cbn. by rewrite app_nil_r.
  - cbn zeta. destruct (IH (S rep_idx) (mkSystem (sys_proxy sys) (sys_mpds sys)
        (S (sys_next_id sys))
        (sys_threads sys ++ [mkThread mpd_id (mkObj (sys_next_id sys) (mkRepAddr 0 as_idx rep_idx))])
        (sys_gets sys)
        (emit (Log VERBOSE (MsgFoundRepresentation (default "UKN" (rep_id rep))))
           (sys_world sys)))) as (H1 & H2 & H3 & H4).
    cbn [sys_emit sys_proxy sys_mpds sys_next_id sys_threads sys_gets sys_world] in *.
    rewrite H1, H2, H3, H4. repeat split; try done.
    cbn [length seq fmap list_fmap]. rewrite <- (assoc (++)). cbn [app].
    rewrite !Nat.add_0_r. do 2 f_equal.
    rewrite <- fmap_S_seq, <- list_fmap_compose.
    apply list_fmap_ext. intros i k _. cbn. do 3 f_equal; lia.
Qed.

(** Under the hypothesis that the descriptor, where an adaptation set bears
    it, is the first [EssentialProperty] child, the outer loop starts one
    thread for every representation of every set that does not bear it. *)
Lemma dispatch_adaptation_sets_spec (mpd_id : nat) (sets : list AdaptationSet) :
  Forall (fun a => bears_trickmode a = is_trickmode a) sets →
  ∀ (as_idx : nat) (sys : System),
    let sys' := dispatch_adaptation_sets mpd_id as_idx sets sys in
    sys_proxy sys' = sys_proxy sys ∧ sys_mpds sys' = sys_mpds sys
    ∧ files (sys_world sys') = files (sys_world sys)
    ∧ ∃ new, sys_threads sys' = sys_threads sys ++ new
             ∧ thread_addr <$> new = every_representation_from as_idx sets
             ∧ Forall (fun th => th_mpd th = mpd_id) new.
Proof.
  induction 1 as [|a sets Ha _ IH]; intros as_idx sys; cbn [dispatch_adaptation_sets].
  - repeat split; try done. exists []. by rewrite app_nil_r.
  - cbn zeta. cbn [every_representation_from]. rewrite Ha.
    destruct (is_trickmode a).
    + destruct (IH (S as_idx) sys) as (H1 & H2 & H3 & new & H4 & H5 & H6).
      repeat split; try done. by exists new.
    + destruct (dispatch_representations_spec mpd_id as_idx (as_Representation a) 0%nat sys)
        as (G1 & G2 & G3 & G4).
      destruct (IH (S as_idx) (dispatch_representations mpd_id as_idx 0
                                 (as_Representation a) sys))
        as (H1 & H2 & H3 & new & H4 & H5 & H6).
      repeat split; try congruence.
      remember ((fun k => mkThread mpd_id
                    (mkObj (sys_next_id sys + k) (mkRepAddr 0 as_idx (0 + k))))
                <$> seq 0 (length (as_Representation a))) as first eqn:Hfirst.
      exists (first ++ new). split; [by rewrite H4, G4, <- (assoc (++))|].
      rewrite fmap_app, H5. split.
      * f_equal. subst first. rewrite <- list_fmap_compose. by apply list_fmap_ext.
      * apply Forall_app. split; [|done]. subst first. by apply Forall_fmap, Forall_true.
Qed.

(** The length of a concatenation. *)
Lemma string_length_append (a b : string) :
  String.length (a +:+ b) = (String.length a + String.length b)%nat.
Proof. induction a as [|c a IH]; [done|]. rewrite append_cons. cbn. by rewrite IH. Qed.

(** The numbered copy of the manifest has another name than the current
    one. *)
Lemma manifest_paths_differ (dir : string) (n : nat) :
  path_join dir ("manifest." +:+ pretty n +:+ ".mpd") ≠ path_join dir "manifest.mpd".
Proof.
  unfold path_join.
  change ("manifest." +:+ pretty n +:+ ".mpd")
    with (String "m" ("anifest." +:+ pretty n +:+ ".mpd")).
  cbn [String.prefix]. 
  assert (String "m" ("anifest." +:+ pretty n +:+ ".mpd") ≠ "manifest.mpd") as Hne.
  { intros H%(f_equal String.length). cbn in H.
    rewrite !string_length_append in H. cbn in H. lia. }
  destruct (bool_decide (dir = "") || ends_with_slash dir); intros H.
  - by apply (inj (String.app dir)) in H.
  - apply (inj (String.app dir)) in H. by apply (inj (String.app "/")) in H.
Qed.

(** The current manifest file holds what [write_output_mpd] was given. *)
Lemma write_output_mpd_spec (mpd : MPD) (sys : System) :
  output_dir (sys_proxy sys) ≠ "" →
  ∃ sys', write_output_mpd mpd sys = (Ok (), sys')
          ∧ sys_threads sys' = sys_threads sys
          ∧ files (sys_world sys') !! path_join (output_dir (sys_proxy sys)) "manifest.mpd"
            = Some (Manifest mpd).
Proof.
  intros Hdir. unfold write_output_mpd. cbn [sys_emit sys_proxy].
  rewrite (bool_decide_eq_false_2 _ Hdir).
  destruct (save_mpds (sys_proxy sys)); eexists; (split; [reflexivity|]);
    (split; [reflexivity|]); cbn.
  - rewrite lookup_insert_ne by apply manifest_paths_differ. apply lookup_insert_eq.
  - apply lookup_insert_eq.
Qed.

(** The two readings of the descriptor select the same sets when they agree
    on every set. *)
Lemma filter_trickmode (sets : list AdaptationSet) :
  Forall (fun a => bears_trickmode a = is_trickmode a) sets →
  filter (fun a => is_trickmode a = false) sets
  = filter (fun a => bears_trickmode a = false) sets.
Proof.
  induction 1 as [|a sets Ha _ IH]; [done|].
  rewrite !filter_cons, IH, Ha. reflexivity.
Qed.

(** C1 (amended): for every refresh of a manifest in which the trick-mode
    descriptor, where an adaptation set of the first period bears it, is the
    set's first [EssentialProperty] child, a downloader thread is started
    for every representation of each adaptation set of the first period that
    does not bear the descriptor, once each and for no other representation;
    the sets that bear it get no thread and are absent from the first period
    of the manifest written to [manifest.mpd]. *)
Theorem dispatch_every_representation (refresh : System → result unit * System)
    (mpd_id : nat) (sys : System) (mpd : MPD) (period : Period) (rest : list Period) :
  sys_mpds sys !! mpd_id = Some mpd →
  mpd_Period mpd = period :: rest →
  output_dir (sys_proxy sys) ≠ "" →
  Forall (fun a => bears_trickmode a = is_trickmode a) (period_AdaptationSet period) →
  ∃ sys1 new written,
    DashProxy_handle_mpd refresh mpd_id sys
    = (if is_live mpd then refresh sys1 else (Ok (), sys_emit (Log INFO MsgVod) sys1))
    ∧ sys_threads sys1 = sys_threads sys ++ new
    ∧ thread_addr <$> new = every_representation (period_AdaptationSet period)
    ∧ Forall (fun th => th_mpd th = mpd_id) new
    ∧ files (sys_world sys1) !! path_join (output_dir (sys_proxy sys)) "manifest.mpd"
      = Some (Manifest written)
    ∧ mpd_Period written
      = mkPeriod (period_attr_start period) (period_attr_duration period)
          (filter (fun a => bears_trickmode a = false) (period_AdaptationSet period))
        :: rest.
Proof.
  intros Hmpd Hperiod Hdir Hep. unfold DashProxy_handle_mpd. rewrite Hmpd, Hperiod.
  set (sys0 := sys_emit _ (sys_emit _ sys)).
  destruct (dispatch_adaptation_sets_spec mpd_id _ Hep 0%nat sys0)
    as (H1 & H2 & H3 & new & H4 & H5 & H6).
  set (sysd := dispatch_adaptation_sets mpd_id 0 (period_AdaptationSet period) sys0) in *.
  destruct (write_output_mpd_spec (remove_trickmode mpd) sysd)
    as (sys1 & Hw & Hth & Hfile); [by rewrite H1|].
  exists sys1, new, (remove_trickmode mpd). rewrite Hw. split; [done|].
  split; [by rewrite Hth, H4|]. split; [done|]. split; [done|]. split.
  - by rewrite H1 in Hfile.
  - unfold remove_trickmode. cbn [mpd_Period]. rewrite Hperiod.
    by rewrite (filter_trickmode _ Hep).
Qed.

(** A trick-mode set followed by a set with two representations: two
    threads, both for the second set. *)
Lemma dispatch_every_representation_witness :
  ∃ sys1 new,
    DashProxy_handle_mpd (fun s => (Ok (), s)) 0 (ex_system ex_trickmode)
    = (Ok (), sys_emit (Log INFO MsgVod) sys1)
    ∧ sys_threads sys1 = new
    ∧ thread_addr <$> new = [mkRepAddr 0 1 0; mkRepAddr 0 1 1].
Proof.
  destruct (dispatch_every_representation (fun s => (Ok (), s)) 0 (ex_system ex_trickmode)
              ex_trickmode _ [] eq_refl eq_refl ltac:(discriminate)
              ltac:(repeat constructor))
    as (sys1 & new & written & H1 & H2 & H3 & _).
  exists sys1, new. split; [exact H1|]. split; [exact H2|]. exact H3.
Defined.

(** C1 (counterexample): for an adaptation set with two representations
    and no descriptor, a thread is started for the first representation as
    well as for the last. *)
Lemma dispatch_not_only_last :
  thread_addr <$> sys_threads
    (DashProxy_handle_mpd (fun s => (Ok (), s)) 0 (ex_system ex_two_representations)).2
  = [mkRepAddr 0 0 0; mkRepAddr 0 0 1]
  ∧ (a ← MpdLocator.adaptation_set ex_two_representations (mkRepAddr 0 0 0);
     Ok (length (as_Representation a))) = Ok 2%nat.
Proof. split; reflexivity. Qed.

(** What the list of dispatched positions holds: the representations of the
    sets that do not bear the descriptor, and nothing else. *)
Lemma elem_of_every_representation_from (a : RepAddr) (sets : list AdaptationSet) :
  ∀ n : nat,
    a ∈ every_representation_from n sets ↔
    ∃ i aset, sets !! i = Some aset ∧ bears_trickmode aset = false
              ∧ period_idx a = 0%nat ∧ adaptation_set_idx a = (n + i)%nat
              ∧ (representation_idx a < length (as_Representation aset))%nat.
Proof.
  induction sets as [|s sets IH]; intros n; cbn [every_representation_from].
  - split; [by intros ?%elem_of_nil|]. by intros (i & aset & ? & _).
  - rewrite elem_of_app, IH. split.
    + intros [H|(i & aset & H1 & H2 & H3 & H4 & H5)].
      * destruct (bears_trickmode s) eqn:Hs; [by apply elem_of_nil in H|].
        apply list_elem_of_fmap in H as (j & -> & Hj%elem_of_seq).
        exists 0%nat, s. cbn. repeat split; try done; lia.
      * exists (S i), aset. repeat split; try done. lia.
    + intros (i & aset & H1 & H2 & H3 & H4 & H5). destruct i as [|i].
      * left. injection H1 as ->. rewrite H2. apply list_elem_of_fmap.
        exists (representation_idx a). split.
        -- destruct a as [p q r]. cbn in *. subst. f_equal. lia.
        -- apply elem_of_seq. lia.
      * right. exists i, aset. repeat split; try done. lia.
Qed.

(** ** The refresh loop *)

(** C6 (the code departs from the claim): after the tenth failed request
    the loop logs that it gives up and then goes on to parse the text of the
    failed response.  When the text is no XML, the parse error leaves [run];
    when it is a manifest, it is written to [manifest.mpd.orig] and
    dispatched, once by each of the ten pending calls. *)
Theorem refresh_mpd_parses_failed_response :
  (let '(r, s) := run ex_manifest_404 20 ex_boot in
   r = Raise ParseError ∧ sys_gets s = 10%nat
   ∧ list.last (messages (sys_world s)) = Some (MsgGivingUp 10))
  ∧ (let '(r, s) := run ex_manifest_503 20 ex_boot in
     r = Ok () ∧ sys_gets s = 10%nat
     ∧ MsgGivingUp 10 ∈ messages (sys_world s)
     ∧ files (sys_world s) !! "out/manifest.mpd.orig" = Some (Manifest ex_explicit)
     ∧ thread_addr <$> sys_threads s = replicate 10 (mkRepAddr 0 0 0)).
Proof.
  split.
  - vm_compute. done.
  - vm_compute. repeat split; try done. apply list_elem_of_In. vm_compute. tauto.
Qed.

(** ** The registry *)

(** Logging and writing files keep the invariant of the main thread. *)
Lemma main_invariant_emit (reg : gmap nat DashDownloader) (e : event) (sys : System) :
  main_invariant reg sys → main_invariant reg (sys_emit e sys).
Proof. done. Qed.

Lemma main_invariant_write (reg : gmap nat DashDownloader) (p : string) (c : content)
    (sys : System) :
  main_invariant reg sys → main_invariant reg (sys_write p c sys).
Proof. done. Qed.

(** So does every loop of the dispatch: each new thread gets the next
    free identity. *)
Lemma dispatch_representations_invariant (reg : gmap nat DashDownloader)
    (mpd_id as_idx : nat) (reps : list Representation) :
  ∀ (rep_idx : nat) (sys : System),
    (mpd_id < length (sys_mpds sys))%nat →
    main_invariant reg sys →
    main_invariant reg (dispatch_representations mpd_id as_idx rep_idx reps sys)
    ∧ sys_mpds (dispatch_representations mpd_id as_idx rep_idx reps sys) = sys_mpds sys.
Proof.
  induction reps as [|rep reps IH]; intros rep_idx sys Hid Hinv; [done|].
  cbn [dispatch_representations]. cbn zeta.
  match goal with |- main_invariant _ (dispatch_representations _ _ _ _ ?s) ∧ _ =>
    destruct (IH (S rep_idx) s) as [H1 H2] end; [done| |by rewrite H2].
  destruct Hinv as (Hids & Hmpds & Hreg). split; [|split]; [| |done].
  - cbn [sys_threads sys_next_id sys_emit]. rewrite fmap_app, Hids, seq_S. done.
  - cbn [sys_threads sys_mpds]. apply Forall_app. split; [done|].
    by apply Forall_singleton.
Qed.

Lemma dispatch_adaptation_sets_invariant (reg : gmap nat DashDownloader)
    (mpd_id : nat) (sets : list AdaptationSet) :
  ∀ (as_idx : nat) (sys : System),
    (mpd_id < length (sys_mpds sys))%nat →
    main_invariant reg sys →
    main_invariant reg (dispatch_adaptation_sets mpd_id as_idx sets sys)
    ∧ sys_mpds (dispatch_adaptation_sets mpd_id as_idx sets sys) = sys_mpds sys.
Proof.
  induction sets as [|a sets IH]; intros as_idx sys Hid Hinv; [done|].
  cbn [dispatch_adaptation_sets]. cbn zeta. destruct (is_trickmode a).
  - by apply IH.
  - destruct (dispatch_representations_invariant reg mpd_id as_idx
                (as_Representation a) 0%nat sys Hid Hinv) as [H1 H2].
    destruct (IH (S as_idx) _ ltac:(by rewrite H2) H1) as [H3 H4].
    split; [done|]. by rewrite H4.
Qed.

Lemma write_output_mpd_invariant (reg : gmap nat DashDownloader) (mpd : MPD)
    (sys : System) :
  main_invariant reg sys → main_invariant reg (write_output_mpd mpd sys).2.
Proof.
  intros H. unfold write_output_mpd.
  destruct (bool_decide _); [done|]. by destruct (save_mpds _).
Qed.

Lemma DashProxy_handle_mpd_invariant (reg : gmap nat DashDownloader)
    (refresh : System → result unit * System) (mpd_id : nat) (sys : System) :
  (∀ s, main_invariant reg s → main_invariant reg (refresh s).2) →
  main_invariant reg sys →
  main_invariant reg (DashProxy_handle_mpd refresh mpd_id sys).2.
Proof.
  intros Hrefresh Hinv. unfold DashProxy_handle_mpd.
  destruct (sys_mpds sys !! mpd_id) as [mpd|] eqn:Hmpd; [|done].
  apply lookup_lt_Some in Hmpd.
  destruct (mpd_Period mpd) as [|period rest]; [done|].
  set (sys0 := sys_emit _ (sys_emit _ sys)).
  destruct (dispatch_adaptation_sets_invariant reg mpd_id (period_AdaptationSet period)
              0%nat sys0 Hmpd Hinv) as [H1 _].
  pose proof (write_output_mpd_invariant reg (remove_trickmode mpd) _ H1) as H2.
  destruct (write_output_mpd _ _) as [[[]|e] sys1]; [|done].
  destruct (bool_decide _); [by apply Hrefresh|done].
Qed.

Section Registry.
Variable manifest_server : nat → option manifest_response.

(** And so does [refresh_mpd], with its retries and its live refreshes. *)
Lemma refresh_mpd_invariant (reg : gmap nat DashDownloader) (fuel : nat) :
  ∀ (after error_cnt : Z) (sys : System),
    main_invariant reg sys →
    main_invariant reg (refresh_mpd manifest_server fuel after error_cnt sys).2.
Proof.
  induction fuel as [|fuel IH]; intros after error_cnt sys Hinv; [done|].
  cbn [refresh_mpd]. cbn zeta.
  set (sys1 := mkSystem _ (sys_mpds sys) _ _ (sys_gets sys) (sys_world sys)).
  assert (main_invariant reg sys1) as H1 by done.
  set (sys2 := if after >? 0 then sys_emit (Sleep after) sys1 else sys1).
  assert (main_invariant reg sys2) as H2 by (unfold sys2; by destruct (after >? 0)).
  set (sys3 := mkSystem _ _ _ _ (S (sys_gets sys2)) _).
  assert (main_invariant reg sys3) as H3 by done.
  destruct (manifest_server (sys_gets sys2)) as [r|]; [|done].
  set (retry := if (mr_status_code r <? 200) || (mr_status_code r >=? 300) then _ else _).
  assert (main_invariant reg retry.2) as H4.
  { unfold retry. destruct (_ || _); [|done].
    destruct (_ <? 10); [|done]. by apply IH. }
  destruct retry as [[[]|e] sys4]; [|done]. cbn [snd] in H4.
  destruct (mr_text r) as [mpd|]; [|done].
  destruct (bool_decide _); [done|].
  apply DashProxy_handle_mpd_invariant; [intros; by apply IH|].
  destruct H4 as (Ha & Hb & Hc). split; [done|]. split; [|done].
  cbn. rewrite length_app. revert Hb. apply Forall_impl. cbn. intros; lia.
Qed.

End Registry.

Section Threads.
Variable server : string → response.

(** A pass leaves the address object of its downloader alone. *)
Lemma handle_mpd_rep_addr (dl : DashDownloader) (mpd : MPD) (base_url : string) (w : World) :
  dl_rep_addr (handle_mpd server dl mpd base_url w).1.1.2 = dl_rep_addr dl.
Proof.
  unfold handle_mpd.
  destruct (_ ≫= _) as [[[rep [st|]] tl]|]; [|done..].
  set (dl0 := mkDownloader _ _ _ _).
  assert (dl_rep_addr (download_initialization server dl0 st rep w).1.2 = dl_rep_addr dl)
    as Hinit.
  { unfold download_initialization. destruct (_ && _); [|done].
    by destruct (download_template _ _ _ _ _ _ _). }
  destruct (download_initialization server dl0 st rep w) as [[[[]|] dl1] w0]; [|done].
  cbn [fst snd] in Hinit.
  destruct (select_timeline _ _ _ _) as [[[? ?] ?]|]; [|done].
  destruct (expand_loop _ _ _ _) as [[? ?] ?].
  destruct (time_info _ _) as [[]|]; [|done].
  by destruct (media_loop _ _ _ _ _ _ _ _ _ _ _) as [[? ?] ?].
Qed.

(** The membership test succeeds for the very object that was registered:
    the call logs and returns. *)
Lemma ensure_downloader_registered (proxy : DashProxy) (mpd : MPD)
    (rep_addr : RepAddrObj) (w : World) (dl : DashDownloader) :
  downloaders proxy !! obj_id rep_addr = Some dl →
  ensure_downloader server proxy mpd rep_addr w
  = (Ok (), proxy, mpd, emit (Log VERBOSE (MsgAlreadyStarted (obj_addr rep_addr))) w).
Proof. intros H. unfold ensure_downloader. by rewrite H. Qed.

(** For an object that is not a key of the registry, a downloader is
    registered under it, whatever other keys hold the same positions. *)
Lemma ensure_downloader_new (proxy : DashProxy) (mpd : MPD)
    (rep_addr : RepAddrObj) (w : World) :
  downloaders proxy !! obj_id rep_addr = None →
  ∃ dl, downloaders (ensure_downloader server proxy mpd rep_addr w).1.1.2
        = <[obj_id rep_addr := dl]> (downloaders proxy)
        ∧ dl_rep_addr dl = rep_addr.
Proof.
  intros H. unfold ensure_downloader. rewrite H.
  destruct (get_base_url proxy mpd) as [base_url|e].
  - pose proof (handle_mpd_rep_addr (DashDownloader_init (output_dir proxy) rep_addr)
                  mpd base_url
                  (emit (Log INFO (MsgStarting (obj_addr rep_addr))) w)) as Hdl.
    destruct (handle_mpd _ _ _ _ _) as [[[r dl] mpd'] w']. by exists dl.
  - by eexists.
Qed.

Lemma run_thread_new (th : Thread) (sys : System) :
  downloaders (sys_proxy sys) !! thread_id th = None →
  (th_mpd th < length (sys_mpds sys))%nat →
  ∃ dl, downloaders (sys_proxy (run_thread server th sys))
        = <[thread_id th := dl]> (downloaders (sys_proxy sys))
        ∧ dl_rep_addr dl = th_rep_addr th
        ∧ length (sys_mpds (run_thread server th sys)) = length (sys_mpds sys).
Proof.
  intros Hnew Hmpd. unfold run_thread.
  destruct (lookup_lt_is_Some_2 _ _ Hmpd) as [mpd ->].
  destruct (ensure_downloader_new (sys_proxy sys) mpd (th_rep_addr th) (sys_world sys) Hnew)
    as (dl & H1 & H2).
  destruct (ensure_downloader _ _ _ _ _) as [[[r proxy] mpd'] w'].
  exists dl. cbn in *. by rewrite length_insert.
Qed.

(** Threads on distinct objects that are not keys yet: each one registers
    its own downloader. *)
Lemma run_threads_register (ths : list Thread) :
  ∀ sys : System,
    base.NoDup (thread_id <$> ths) →
    Forall (fun th => downloaders (sys_proxy sys) !! thread_id th = None) ths →
    Forall (fun th => (th_mpd th < length (sys_mpds sys))%nat) ths →
    let reg := downloaders (sys_proxy (run_threads server ths sys)) in
    size reg = (size (downloaders (sys_proxy sys)) + length ths)%nat
    ∧ Forall (fun th => ∃ dl, reg !! thread_id th = Some dl
                              ∧ dl_rep_addr dl = th_rep_addr th) ths
    ∧ ∀ k, k ∉ thread_id <$> ths → reg !! k = downloaders (sys_proxy sys) !! k.
Proof.
  induction ths as [|th ths IH]; intros sys Hnd Hnew Hmpd.
  - cbn. split; [lia|]. done.
  - rewrite fmap_cons in Hnd.
    pose proof (NoDup_cons_1_1 _ _ Hnd) as Hth. apply NoDup_cons_1_2 in Hnd.
    inversion_clear Hnew as [|? ? Hnew1 Hnew'].
    inversion_clear Hmpd as [|? ? Hmpd1 Hmpd'].
    destruct (run_thread_new th sys Hnew1 Hmpd1) as (dl & H1 & H2 & H3).
    cbn [run_threads foldl]. fold (run_threads server ths (run_thread server th sys)).
    destruct (IH (run_thread server th sys) Hnd) as (G1 & G2 & G3).
    { rewrite H1. apply Forall_forall. intros th' Hin.
      rewrite lookup_insert_ne.
      - by apply (proj1 (Forall_forall _ _) Hnew').
      - intros E. apply Hth. rewrite E.
        apply list_elem_of_fmap_2. by apply list_elem_of_In. }
    { by rewrite H3. }
    cbn zeta. split; [|split].
    + rewrite G1, H1, map_size_insert_None by done. cbn. lia.
    + constructor; [|done].
      exists dl. split; [|done]. rewrite (G3 _ Hth), H1. apply lookup_insert_eq.
    + intros k Hk. rewrite fmap_cons in Hk. apply not_elem_of_cons in Hk as [Hk1 Hk2].
      rewrite (G3 _ Hk2), H1. by apply lookup_insert_ne.
Qed.

End Threads.

(** ** Arbitrary interleavings *)

Section Schedules.
Variable server : string → response.

(** Two threads are started on two objects. *)
Lemma thread_ids_distinct (ths : list Thread) (i j : nat) (th th' : Thread) :
  base.NoDup (thread_id <$> ths) → ths !! i = Some th → ths !! j = Some th' →
  i ≠ j → thread_id th ≠ thread_id th'.
Proof.
  intros Hnd Hi Hj Hne E. apply Hne.
  apply (NoDup_lookup _ i j (thread_id th) Hnd); rewrite list_lookup_fmap.
  - by rewrite Hi.
  - rewrite Hj. cbn. by rewrite E.
Qed.

(** Every step of every thread keeps the invariant: the membership test
    of a thread never finds its object. *)
Lemma step_thread_invariant (i : nat) (c : Config) :
  interleaving_invariant c → interleaving_invariant (step_thread server i c).
Proof.
  intros (Hnd & Hmpd & Hpc). unfold step_thread.
  destruct (sys_threads (cfg_sys c) !! i) as [th|] eqn:Hth; [|done].
  destruct (cfg_pcs c !! i) as [p|] eqn:Hp; [|done].
  pose proof (Hpc i th p Hth Hp) as Hi.
  assert (∀ (q : pc) j th' p', sys_threads (cfg_sys c) !! j = Some th' →
            <[i := q]> (cfg_pcs c) !! j = Some p' →
            (j = i ∧ th' = th ∧ p' = q) ∨ (j ≠ i ∧ cfg_pcs c !! j = Some p')) as Hcase.
  { intros q j th' p' Hj Hq. destruct (decide (j = i)) as [->|Hne].
    - left. rewrite list_lookup_insert_eq in Hq by (by eapply lookup_lt_Some).
      split; [done|]. split; congruence.
    - right. by rewrite list_lookup_insert_ne in Hq. }
  destruct p; fold (thread_id th).
  - (* the membership test *)
    rewrite Hi. split; [done|]. split; [done|]. intros j th' p' Hj Hq.
    destruct (Hcase _ j th' p' Hj Hq) as [(-> & -> & ->)|[Hne Hq']]; [done|].
    by apply (Hpc j th' p').
  - (* the store *)
    split; [done|]. split; [done|]. intros j th' p' Hj Hq. cbn in Hj |- *.
    destruct (Hcase _ j th' p' Hj Hq) as [(-> & -> & ->)|[Hne Hq']].
    + eexists. split; [apply lookup_insert_eq|done].
    + rewrite lookup_insert_ne by (by eapply thread_ids_distinct).
      by apply (Hpc j th' p').
  - (* the pass *)
    destruct Hi as (dl & Hdl & Hra). rewrite Hdl.
    destruct (lookup_lt_is_Some_2 _ _ (proj1 (Forall_forall _ _) Hmpd th
                (proj1 (list_elem_of_In _ _) (list_elem_of_lookup_2 _ _ _ Hth))))
      as [mpd Hm].
    rewrite Hm.
    destruct (get_base_url (sys_proxy (cfg_sys c)) mpd) as [base_url|e].
    + pose proof (handle_mpd_rep_addr server dl mpd base_url (sys_world (cfg_sys c))) as Hr.
      destruct (handle_mpd _ _ _ _ _) as [[[r dl'] mpd'] w']. cbn in Hr.
      split; [done|]. split.
      { cbn. rewrite length_insert. done. }
      intros j th' p' Hj Hq. cbn in Hj |- *.
      destruct (Hcase _ j th' p' Hj Hq) as [(-> & -> & ->)|[Hne Hq']].
      * exists dl'. split; [apply lookup_insert_eq|congruence].
      * rewrite lookup_insert_ne by (by eapply thread_ids_distinct).
        by apply (Hpc j th' p').
    + split; [done|]. split; [done|]. intros j th' p' Hj Hq.
      destruct (Hcase _ j th' p' Hj Hq) as [(-> & -> & ->)|[Hne Hq']]; [by exists dl|].
      by apply (Hpc j th' p').
  - done.
Qed.

Lemma run_schedule_invariant (schedule : list nat) :
  ∀ c, interleaving_invariant c → interleaving_invariant (run_schedule server schedule c).
Proof.
  induction schedule as [|i schedule IH]; intros c Hc; [done|].
  cbn [run_schedule foldl]. apply IH. by apply step_thread_invariant.
Qed.

End Schedules.

(** When [run] returns, the invariant of the main thread holds. *)
Lemma run_invariant (manifest_server : nat → option manifest_response) (fuel : nat)
    (url dir : string) (save : bool) :
  main_invariant ∅ (run manifest_server fuel (boot url dir save)).2.
Proof. unfold run. by apply refresh_mpd_invariant. Qed.

(** With every thread before its membership test, the invariant of the
    interleavings holds. *)
Lemma start_threads_invariant (sys : System) :
  main_invariant ∅ sys → interleaving_invariant (start_threads sys).
Proof.
  intros (Hids & Hmpd & Hreg). split; [|split]; cbn.
  - rewrite Hids. apply NoDup_seq.
  - done.
  - intros i th p Hth Hp. apply lookup_replicate in Hp as [-> _].
    by rewrite Hreg.
Qed.

(** No step starts or ends a thread. *)
Lemma step_thread_threads (server : string → response) (i : nat) (c : Config) :
  sys_threads (cfg_sys (step_thread server i c)) = sys_threads (cfg_sys c).
Proof.
  unfold step_thread.
  destruct (sys_threads (cfg_sys c) !! i) as [th|]; [|done].
  destruct (cfg_pcs c !! i) as [[]|]; try done.
  - by destruct (downloaders _ !! _).
  - destruct (downloaders _ !! _); [|done]. destruct (sys_mpds _ !! _); [|done].
    destruct (get_base_url _ _); [|done].
    by destruct (handle_mpd _ _ _ _ _) as [[[? ?] ?] ?].
Qed.

Lemma run_schedule_threads (server : string → response) (schedule : list nat) :
  ∀ c, sys_threads (cfg_sys (run_schedule server schedule c)) = sys_threads (cfg_sys c).
Proof.
  induction schedule as [|i schedule IH]; intros c; [done|].
  cbn [run_schedule foldl]. fold (run_schedule server schedule (step_thread server i c)).
  by rewrite IH, step_thread_threads.
Qed.

(** Whatever the manifests and whatever the interleaving of the threads:
    every thread that ran to its end registered a downloader of its own, so
    two threads started for the same positions leave two downloaders for
    them. *)
Theorem same_address_registered_twice (manifest_server : nat → option manifest_response)
    (server : string → response) (fuel : nat) (url dir : string) (save : bool)
    (schedule : list nat) (i j : nat) (thi thj : Thread) :
  let s := (run manifest_server fuel (boot url dir save)).2 in
  let c := run_schedule server schedule (start_threads s) in
  let reg := downloaders (sys_proxy (cfg_sys c)) in
  sys_threads s !! i = Some thi → sys_threads s !! j = Some thj → i ≠ j →
  thread_addr thi = thread_addr thj →
  cfg_pcs c !! i = Some Finished → cfg_pcs c !! j = Some Finished →
  thread_id thi ≠ thread_id thj
  ∧ ∃ dli dlj, reg !! thread_id thi = Some dli ∧ reg !! thread_id thj = Some dlj
               ∧ obj_addr (dl_rep_addr dli) = obj_addr (dl_rep_addr dlj).
Proof.
  intros s c reg Hi Hj Hne Haddr Hpi Hpj.
  pose proof (run_schedule_invariant server schedule _
                (start_threads_invariant s (run_invariant _ _ _ _ _))) as (Hnd & _ & Hpc).
  fold c in Hnd, Hpc.
  assert (sys_threads (cfg_sys c) = sys_threads s) as Hths
    by (unfold c; by rewrite run_schedule_threads).
  rewrite Hths in Hnd, Hpc.
  destruct (Hpc i thi Finished Hi Hpi) as (dli & Hdli & Hri).
  destruct (Hpc j thj Finished Hj Hpj) as (dlj & Hdlj & Hrj).
  split; [by eapply thread_ids_distinct|].
  exists dli, dlj. split; [done|]. split; [done|].
  rewrite Hri, Hrj. exact Haddr.
Qed.

(** The live manifest refreshed twice, its two threads interleaved step by
    step: two downloaders for the positions (0, 0, 0). *)
Lemma same_address_registered_twice_witness :
  let s := (run ex_manifest_live 20 ex_boot).2 in
  let c := run_schedule ex_server [0; 1; 0; 1; 0; 1]%nat (start_threads s) in
  ∃ thi thj dli dlj,
    sys_threads s !! 0%nat = Some thi ∧ sys_threads s !! 1%nat = Some thj
    ∧ thread_id thi ≠ thread_id thj
    ∧ downloaders (sys_proxy (cfg_sys c)) !! thread_id thi = Some dli
    ∧ downloaders (sys_proxy (cfg_sys c)) !! thread_id thj = Some dlj
    ∧ obj_addr (dl_rep_addr dli) = obj_addr (dl_rep_addr dlj).
Proof.
  intros s c.
  assert (∃ thi, sys_threads s !! 0%nat = Some thi ∧ thread_addr thi = mkRepAddr 0 0 0)
    as (thi & Hi & Hai) by (eexists; split; vm_compute; reflexivity).
  assert (∃ thj, sys_threads s !! 1%nat = Some thj ∧ thread_addr thj = mkRepAddr 0 0 0)
    as (thj & Hj & Haj) by (eexists; split; vm_compute; reflexivity).
  assert (cfg_pcs c !! 0%nat = Some Finished) as Hpi by (vm_compute; reflexivity).
  assert (cfg_pcs c !! 1%nat = Some Finished) as Hpj by (vm_compute; reflexivity).
  destruct (same_address_registered_twice ex_manifest_live ex_server 20
              "http://h/live.mpd" "out" false [0; 1; 0; 1; 0; 1]%nat 0%nat 1%nat thi thj
              Hi Hj ltac:(discriminate) (eq_trans Hai (eq_sym Haj)) Hpi Hpj)
    as (Hne & dli & dlj & H1 & H2 & H3).
  exists thi, thj, dli, dlj. repeat split; assumption.
Defined.

(** After [run], the threads run one after the other: as many downloaders
    as threads. *)
Theorem every_thread_registers (manifest_server : nat → option manifest_response)
    (server : string → response) (fuel : nat) (url dir : string) (save : bool) :
  let s := (run manifest_server fuel (boot url dir save)).2 in
  size (downloaders (sys_proxy (run_threads server (sys_threads s) s)))
  = length (sys_threads s).
Proof.
  intros s. destruct (run_invariant manifest_server fuel url dir save) as (Hids & Hmpd & Hreg).
  fold s in Hids, Hmpd, Hreg.
  destruct (run_threads_register server (sys_threads s) s) as (H & _).
  - rewrite Hids. apply NoDup_seq.
  - rewrite Hreg. by apply Forall_true.
  - done.
  - rewrite H, Hreg. by rewrite map_size_empty.
Qed.

(** C9 (the code departs from the claim): a live manifest refreshed twice
    starts two threads for the positions (0, 0, 0), on two [RepAddr] objects.
    Under the sequential schedule and under two interleaved ones, both
    threads miss in the membership test and the registry ends with two
    downloaders for these positions. *)
Theorem registry_two_downloaders_one_address :
  let s := (run ex_manifest_live 20 ex_boot).2 in
  thread_addr <$> sys_threads s = [mkRepAddr 0 0 0; mkRepAddr 0 0 0]
  ∧ Forall
      (fun schedule =>
         let c := run_schedule ex_server schedule (start_threads s) in
         cfg_pcs c = [Finished; Finished]
         ∧ length (downloaders_for (mkRepAddr 0 0 0) (sys_proxy (cfg_sys c))) = 2%nat)
      [[0; 0; 0; 1; 1; 1]; [0; 1; 0; 1; 0; 1]; [1; 1; 0; 1; 0; 0]]%nat.
Proof. split; [reflexivity|]. repeat constructor. Qed.

(** C10 (the code departs from the claim): the second refresh of a live
    manifest calls [ensure_downloader] for positions that already have a
    downloader; the call does not log that one was started already, it
    starts a second downloader, which resolves the later snapshot and
    requests the segment that first appears in it. *)
Theorem later_snapshot_is_downloaded :
  let '(r, s) := run ex_manifest_live 20 ex_boot in
  let s' := run_threads ex_server (sys_threads s) s in
  r = Ok ()
  ∧ thread_addr <$> sys_threads s = [mkRepAddr 0 0 0; mkRepAddr 0 0 0]
  ∧ filter (fun m => m = MsgAlreadyStarted (mkRepAddr 0 0 0)) (messages (sys_world s')) = []
  ∧ filter (fun m => m = MsgStarting (mkRepAddr 0 0 0)) (messages (sys_world s'))
    = [MsgStarting (mkRepAddr 0 0 0); MsgStarting (mkRepAddr 0 0 0)]
  ∧ requests (sys_world s')
    = ["http://h/live.mpd"; "http://h/live.mpd"; "http://h/v1/seg-0.m4s";
       "http://h/v1/seg-10.m4s"].
Proof. vm_compute. done. Qed.

(** ** The duration parser on the texts it is meant for *)

(** A number followed by another designator is not taken. *)
Lemma maybe_other (suffix c : ascii) (ds rest : string) :
  span_digits ds = (ds, EmptyString) → ds ≠ EmptyString →
  is_digit c = false → c ≠ "."%char → c ≠ suffix →
  maybe suffix (ds +:+ String c rest) = (None, ds +:+ String c rest).
Proof.
  intros Hds Hne Hc Hdot Hsuf. unfold maybe, a_float.
  rewrite (span_digits_app ds (String c rest) Hds Hc).
  destruct ds as [|c0 ds]; [done|].
  assert (Ascii.eqb c suffix = false) as Heq by (by apply Ascii.eqb_neq).
  destruct c as [[] [] [] [] [] [] [] []]; try done; by rewrite Heq.
Qed.

Lemma float_of_digits (ds : string) :
  span_digits ds = (ds, EmptyString) → float_of ds = nearest_float (digits_value 0 ds) 1.
Proof. intros H. unfold float_of. by rewrite H. Qed.

(** What [maybe] makes of a component and the text after it. *)
Lemma maybe_component (suffix : ascii) (n : option N) (rest : string) :
  is_digit suffix = false → suffix ≠ "."%char → follows suffix rest →
  maybe suffix (duration_component suffix n +:+ rest)
  = (pretty <$> n, rest).
Proof.
  intros Hs Hd Hrest. destruct n as [n|]; cbn [duration_component default].
  - rewrite append_assoc. change (String suffix "" +:+ rest) with (String suffix rest).
    by rewrite (maybe_digits suffix (pretty n) rest (pretty_N_digits n)
                  (pretty_N_nonempty n) Hs Hd).
  - change ("" +:+ rest) with rest. destruct Hrest as [|c r Hc|k c r Hc Hdot Hne].
    + reflexivity.
    + by apply maybe_absent.
    + by apply maybe_other; auto using pretty_N_digits, pretty_N_nonempty.
Qed.

Lemma float_or_0_component (n : option N) :
  float_or_0 (pretty <$> n) = nearest_float (Z.of_N (default 0%N n)) 1.
Proof.
  destruct n as [n|]; unfold float_or_0; simpl.
  - by rewrite (float_of_digits _ (pretty_N_digits n)), pretty_N_value.
  - reflexivity.
Qed.

Lemma follows_component (suffix c : ascii) (n : option N) (rest : string) :
  is_digit c = false → c ≠ "."%char → c ≠ suffix → follows suffix rest →
  follows suffix (duration_component c n +:+ rest).
Proof.
  intros Hc Hdot Hne Hrest. destruct n as [n|]; cbn [duration_component].
  - rewrite append_assoc. by apply follows_number.
  - exact Hrest.
Qed.

(** Parsing what [duration_text] writes gives the seconds it stands for,
    as floats: each of the whole days, hours, minutes and seconds, present
    or not, is rounded to the nearest float, and the float sum of their
    weighted values is returned. *)
Theorem ISO8601DurationSeconds_duration_text (d h m s : option N) :
  ISO8601DurationSeconds (duration_text d h m s) = Ok (duration_seconds d h m s).
Proof.
  unfold duration_text. rewrite <- (append_nil_r (duration_component "S" s)).
  change ("P" +:+ ?x) with (String "P" x).
  cbv beta iota delta [ISO8601DurationSeconds].
  rewrite (maybe_component "D" d) by (try done; by apply follows_letter).
  change ("T" +:+ ?x) with (String "T" x). cbv iota beta.
  rewrite (maybe_component "H" h)
    by (try done; repeat apply follows_component; try done; apply follows_end).
  rewrite (maybe_component "M" m)
    by (try done; repeat apply follows_component; try done; apply follows_end).
  rewrite (maybe_component "S" s) by (try done; apply follows_end).
  by rewrite !float_or_0_component.
Qed.

(** One day, two hours, three minutes and four seconds are 93784 seconds;
    a whole number of seconds above 2^53 is rounded to a float. *)
Lemma duration_seconds_examples :
  duration_text (Some 1%N) (Some 2%N) (Some 3%N) (Some 4%N) = "P1DT2H3M4S"
  ∧ duration_seconds (Some 1%N) (Some 2%N) (Some 3%N) (Some 4%N) = float_of_Z 93784
  ∧ duration_text None None None (Some 9007199254740993%N) = "PT9007199254740993S"
  ∧ duration_seconds None None None (Some 9007199254740993%N)
    = float_of_Z 9007199254740992.
Proof. repeat split; vm_compute; reflexivity. Qed.

(** ** The outcomes of the duration parser *)

Lemma is_digit_value (c : ascii) : is_digit c = true → 0 ≤ digit_value c ≤ 9.
Proof.
  unfold is_digit, digit_value. intros [H1 H2]%andb_prop.
  apply Nat.leb_le in H1, H2. lia.
Qed.

(** What [span_digits] returns: the input cut in two, the first part a run
    of digits. *)
Lemma span_digits_spec (s ds rest : string) :
  span_digits s = (ds, rest) → s = ds +:+ rest ∧ span_digits ds = (ds, EmptyString).
Proof.
  revert ds rest. induction s as [|c s IH]; intros ds rest H; cbn in H.
  - by injection H as <- <-.
  - destruct (is_digit c) eqn:Hc.
    + destruct (span_digits s) as [ds' rest'] eqn:E. injection H as <- <-.
      destruct (IH ds' rest' eq_refl) as [-> Hds]. split; [done|].
      cbn. by rewrite Hc, Hds.
    + by injection H as <- <-.
Qed.

Lemma digits_value_nonneg (ds : string) (acc : Z) :
  span_digits ds = (ds, EmptyString) → 0 ≤ acc → 0 ≤ digits_value acc ds.
Proof.
  revert acc. induction ds as [|c ds IH]; intros acc H Hacc; [done|].
  cbn in H. destruct (is_digit c) eqn:Hc; [|done].
  destruct (span_digits ds) as [ds' rest'] eqn:E. injection H as H1 H2. subst.
  cbn [digits_value]. apply IH; [done|]. pose proof (is_digit_value c Hc). lia.
Qed.

(** The number [a_float] matches is not negative. *)
Lemma a_float_nonneg (s txt rest : string) :
  a_float s = Some (txt, rest) → float_nonneg (float_of txt) = true.
Proof.
  unfold a_float. destruct (span_digits s) as [int_part r] eqn:E.
  destruct (span_digits_spec _ _ _ E) as [_ Hint].
  assert (float_nonneg (float_of int_part) = true) as Hwhole.
  { rewrite (float_of_digits _ Hint). apply nearest_float_nonneg.
    by apply digits_value_nonneg. }
  destruct int_part as [|c0 i0]; [done|]. set (int_part := String c0 i0) in *.
  destruct r as [|c r']; [by intros [= <- <-]|].
  destruct (decide (c = "."%char)) as [->|Hc].
  - destruct (span_digits r') as [frac r''] eqn:E'.
    destruct (span_digits_spec _ _ _ E') as [_ Hfrac].
    destruct frac as [|f0 fr]; [by intros [= <- <-]|].
    intros [= <- <-]. unfold float_of.
    rewrite (span_digits_app int_part ("." +:+ String f0 fr) Hint) by done.
    change ("." +:+ String f0 fr) with (String "." (String f0 fr)). cbv iota beta.
    apply nearest_float_nonneg. apply digits_value_nonneg; [done|].
    by apply digits_value_nonneg.
  - intros H. assert (txt = int_part) as ->; [|done].
    destruct c as [[] [] [] [] [] [] [] []]; try (by injection H as <- _). done.
Qed.

Lemma maybe_nonneg (suffix : ascii) (s : string) :
  float_nonneg (float_or_0 (maybe suffix s).1) = true.
Proof.
  unfold maybe. destruct (a_float s) as [[txt [|c rest]]|] eqn:E; try done.
  destruct (Ascii.eqb c suffix); [|done]. cbn [fst float_or_0 default].
  by eapply a_float_nonneg.
Qed.

(** The seconds the parser returns are not negative. *)
Lemma ISO8601DurationSeconds_nonneg (duration : string) (seconds : float) :
  ISO8601DurationSeconds duration = Ok seconds → float_nonneg seconds = true.
Proof.
  destruct duration as [|c r0]; [done|].
  destruct (decide (c = "P"%char)) as [->|Hc].
  2: { destruct c as [[] [] [] [] [] [] [] []]; try done. }
  cbv beta iota delta [ISO8601DurationSeconds].
  pose proof (maybe_nonneg "D" r0) as Hd.
  destruct (maybe "D" r0) as [d r1]. destruct r1 as [|c1 r2]; [done|].
  destruct (decide (c1 = "T"%char)) as [->|Hc1].
  2: { destruct c1 as [[] [] [] [] [] [] [] []]; try done. }
  cbv iota beta.
  pose proof (maybe_nonneg "H" r2) as Hh. destruct (maybe "H" r2) as [h r3].
  pose proof (maybe_nonneg "M" r3) as Hm. destruct (maybe "M" r3) as [m r4].
  pose proof (maybe_nonneg "S" r4) as Hs. destruct (maybe "S" r4) as [s r5].
  cbn [fst] in *. intros [= <-].
  repeat apply float_add_nonneg; try done.
  - change (float_of_Z 60) with (S754_finite false 60 0). by apply float_mul_nonneg.
  - change (float_of_Z (60 * 60)) with (S754_finite false 3600 0). by apply float_mul_nonneg.
  - change (float_of_Z (24 * 60 * 60)) with (S754_finite false 86400 0).
    by apply float_mul_nonneg.
Qed.

(** Every input is either given a number of seconds that is not negative,
    or refused with [RuntimeError] and the message that quotes it: the
    parser raises nothing else. *)
Theorem ISO8601DurationSeconds_outcome (duration : string) :
  (∃ seconds, ISO8601DurationSeconds duration = Ok seconds
              ∧ float_le float_zero seconds = true)
  ∨ ISO8601DurationSeconds duration
    = Raise (RuntimeError ("Invalid duration: " +:+ duration)).
Proof.
  destruct (ISO8601DurationSeconds duration) as [seconds|e] eqn:E.
  - left. exists seconds. split; [done|].
    by apply float_nonneg_le, (ISO8601DurationSeconds_nonneg duration).
  - right. revert E. destruct duration as [|c r0]; [by intros [= <-]|].
    destruct (decide (c = "P"%char)) as [->|Hc].
    2: { destruct c as [[] [] [] [] [] [] [] []]; try (by intros [= <-]); done. }
    cbv beta iota delta [ISO8601DurationSeconds].
    destruct (maybe "D" r0) as [d r1]. destruct r1 as [|c1 r2]; [by intros [= <-]|].
    destruct (decide (c1 = "T"%char)) as [->|Hc1].
    2: { destruct c1 as [[] [] [] [] [] [] [] []]; try (by intros [= <-]); done. }
    cbv iota beta.
    destruct (maybe "H" r2) as [h r3]. destruct (maybe "M" r3) as [m r4].
    by destruct (maybe "S" r4) as [s r5].
Qed.

(** ** Period timing *)

(** The start of the first period is 0 whatever the attributes of the
    periods; without any period the lookup fails. *)
Theorem period_start_first_period (fuel : nat) (mpd : MPD) (rep_addr : RepAddr) :
  period_idx rep_addr = 0%nat →
  MpdLocator.period_start (S fuel) mpd rep_addr
  = match mpd_Period mpd with
    | [] => Raise IndexError
    | _ => Ok (float_zero)
    end.
Proof.
  intros Hidx. destruct (mpd_Period mpd) as [|p ps] eqn:Hp.
  - cbn [MpdLocator.period_start]. unfold MpdLocator.period, MpdLocator.periods, index.
    by rewrite Hp, Hidx.
  - apply (period_start_first fuel mpd rep_addr p); [|done].
    unfold MpdLocator.period, MpdLocator.periods, index. by rewrite Hp, Hidx.
Qed.

Lemma period_start_first_period_witness :
  MpdLocator.period_start 1 ex_two_periods (mkRepAddr 0 0 0) = Ok (float_zero).
Proof. exact (period_start_first_period 0 ex_two_periods (mkRepAddr 0 0 0) eq_refl). Defined.

(** A later period with a [start] attribute starts at what the attribute
    parses to, and the parser's refusal is the call's: the start of the first
    period, which is subtracted, is 0 whatever that period declares. *)
Theorem period_start_later_period (fuel : nat) (mpd : MPD) (rep_addr : RepAddr)
    (p : Period) (text : string) :
  mpd_Period mpd !! period_idx rep_addr = Some p → period_idx rep_addr ≠ 0%nat →
  period_attr_start p = Some text →
  MpdLocator.period_start (S (S fuel)) mpd rep_addr = ISO8601DurationSeconds text.
Proof.
  intros Hp Hidx Hstart.
  assert (MpdLocator.period mpd rep_addr = Ok p) as Hp'.
  { unfold MpdLocator.period, MpdLocator.periods, index. by rewrite Hp. }
  destruct (ISO8601DurationSeconds text) as [start|e] eqn:Hparse.
  - rewrite (period_start_explicit fuel mpd rep_addr p text start Hp' Hidx Hstart Hparse).
    by rewrite float_sub_zero_r.
  - remember (S fuel) as n. cbn [MpdLocator.period_start]. rewrite Hp'. cbn.
    rewrite Hstart, bool_decide_eq_true_2 by done. by rewrite Hparse.
Qed.

Lemma period_start_later_period_witness :
  MpdLocator.period_start 2 ex_periods_started (mkRepAddr 1 0 0) = Ok (float_of_Z 150).
Proof.
  rewrite (period_start_later_period 0 ex_periods_started (mkRepAddr 1 0 0)
             (mkPeriod (Some "PT150S") None [ex_adaptation_set]) "PT150S"
             eq_refl ltac:(discriminate) eq_refl).
  compute_done.
Defined.

(** In a manifest of one period, the period ends at the duration of the
    presentation when the manifest declares it, else at the duration the
    period declares; with neither, the parser is called on [None]. *)
Theorem period_end_single_period (fuel : nat) (mpd : MPD) (rep_addr : RepAddr) (p : Period) :
  mpd_Period mpd = [p] → period_idx rep_addr = 0%nat →
  MpdLocator.period_end (S fuel) mpd rep_addr
  = ISO8601DurationSeconds_attr
      (match mpd_mediaPresentationDuration mpd with
       | Some text => Some text
       | None => period_attr_duration p
       end).
Proof.
  intros Hp Hidx. unfold MpdLocator.period_end, MpdLocator.periods.
  rewrite Hp, Hidx. cbn [length]. rewrite bool_decide_eq_true_2 by done.
  destruct (mpd_mediaPresentationDuration mpd) as [text|]; [done|].
  assert (MpdLocator.period mpd rep_addr = Ok p) as Hp'.
  { unfold MpdLocator.period, MpdLocator.periods, index. by rewrite Hp, Hidx. }
  rewrite Hp', (period_start_first fuel mpd rep_addr p Hp' Hidx).
  cbn [mbind result_bind].
  destruct (ISO8601DurationSeconds_attr (period_attr_duration p)) as [d|e] eqn:Hd; [|done].
  cbn. f_equal. apply float_add_zero_l.
  destruct (period_attr_duration p) as [text|]; [|done].
  by apply (ISO8601DurationSeconds_nonneg text).
Qed.

Lemma period_end_single_period_witness :
  MpdLocator.period_end 1 ex_period_duration (mkRepAddr 0 0 0) = Ok (float_of_Z 60).
Proof.
  rewrite (period_end_single_period 0 ex_period_duration (mkRepAddr 0 0 0)
             (mkPeriod None (Some "PT1M") [ex_adaptation_set]) eq_refl eq_refl).
  compute_done.
Defined.

(** The end of a period that is not the last one is never computed: the
    call [RepAddr(idx + 1)] raises. *)
Lemma period_end_not_last (fuel : nat) (mpd : MPD) (rep_addr : RepAddr) :
  S (period_idx rep_addr) ≠ length (mpd_Period mpd) →
  MpdLocator.period_end fuel mpd rep_addr = Raise TypeError.
Proof.
  intros H. unfold MpdLocator.period_end, MpdLocator.periods.
  rewrite bool_decide_eq_false_2 by lia. reflexivity.
Qed.

Section Requests.
Variable server : string → response.

(** A call of [download_template] issues at most one request, for the
    rendered template under the base URL, and none when it raises. *)
Lemma download_template_requests (dl : DashDownloader) (template : string)
    (rep : option Representation) (seg : option S_elem) (idx : option Z)
    (w : World) (r : result unit) (w' : World) :
  download_template server dl template rep seg idx w = (r, w') →
  requests w'
  = requests w ++
    match r, render_template template rep seg idx with
    | Ok _, Ok dest =>
        if isfile w (dest_path (dl_output_dir dl) dest) then []
        else [full_url dl dest]
    | _, _ => []
    end.
Proof.
  unfold download_template.
  destruct (render_template template rep seg idx) as [dest|e].
  2: { intros [= <- <-]. by rewrite app_nil_r. }
  destruct (isfile w _) eqn:Hfile.
  { intros [= <- <-]. by rewrite requests_emit_log, app_nil_r. }
  pose proof (makedirs_trace (dirname (dest_path (dl_output_dir dl) dest)) w) as Ht.
  destruct (makedirs _ w) as [[[]|e] w0]; cbn [snd] in Ht.
  2: { intros [= <- <-]. unfold requests. by rewrite Ht, app_nil_r. }
  set (w1 := emit (HttpGet (full_url dl dest)) (emit _ w0)).
  assert (requests w1 = requests w ++ [full_url dl dest]) as Hget.
  { unfold requests, emit. cbn. rewrite !omap_app, Ht. cbn. by rewrite app_nil_r. }
  assert (∀ c w2, create_file (dest_path (dl_output_dir dl) dest) c w1 = Some w2 →
            requests w2 = requests w1) as Hc.
  { intros c w2. unfold create_file. destruct (_ || _ || _); [done|]. by intros [= <-]. }
  destruct (server (full_url dl dest)) as [|status body|status body].
  { intros [= <- <-]. by rewrite requests_emit_log. }
  all: destruct (_ && _); [intros [= <- <-]; by rewrite requests_emit_log|].
  all: destruct (_ && _); [|intros [= <- <-]; by rewrite requests_emit_log].
  all: destruct (create_file _ _ w1) as [w2|] eqn:Hw2; intros [= <- <-];
    rewrite ?requests_emit_log; by rewrite ?(Hc _ _ Hw2).
Qed.

End Requests.

Section MultiPeriod.
Variable server : string → response.

(** In a manifest of more than one period, a representation of the first
    period whose template has no timeline entries is not downloaded: the
    pass ends with an exception before any media segment is requested, and
    with [TypeError] without any request when the initialization segment is
    behind it or the template names none. *)
Theorem implicit_timeline_multi_period (dl : DashDownloader) (mpd : MPD) (base_url : string)
    (w : World) (rep : Representation) (st : SegmentTemplate) :
  let rep_addr := obj_addr (dl_rep_addr dl) in
  (2 ≤ length (mpd_Period mpd))%nat → period_idx rep_addr = 0%nat →
  MpdLocator.representation mpd rep_addr = Ok rep →
  MpdLocator.segment_template mpd rep_addr = Ok (Some st) →
  st_SegmentTimeline st = None ∨ st_SegmentTimeline st = Some [] →
  ∃ e dl' w',
    handle_mpd server dl mpd base_url w = (Raise e, dl', mpd, w')
    ∧ (length (requests w') ≤ S (length (requests w)))%nat
    ∧ (default "" (st_initialization st) = "" ∨ dl_initialization_downloaded dl = true →
       e = TypeError ∧ w' = w).
Proof.
  intros rep_addr Hn Hidx Hrep Hst Htl.
  assert (select_timeline mpd rep_addr st (st_SegmentTimeline st) = Raise TypeError) as Hsel.
  { assert (MpdLocator.period_start recursion_limit mpd rep_addr = Ok (float_zero)) as Hstart.
    { unfold recursion_limit. rewrite period_start_first_period by done.
      destruct (mpd_Period mpd); [cbn in Hn; lia|done]. }
    assert (MpdLocator.period_end recursion_limit mpd rep_addr = Raise TypeError) as Hend.
    { apply period_end_not_last. rewrite Hidx. lia. }
    destruct Htl as [-> | ->]; cbn [select_timeline mbind result_bind];
      by rewrite Hstart, Hend. }
  unfold handle_mpd, download_initialization.
  cbn [dl_rep_addr dl_initialization_downloaded dl_output_dir dl_mpd_base_url].
  fold rep_addr. rewrite Hrep, Hst. unfold MpdLocator.segment_timeline. rewrite Hst.
  cbn [mbind result_bind].
  destruct (negb (bool_decide (default "" (st_initialization st) = ""))
            && negb (dl_initialization_downloaded dl)) eqn:Hinit.
  - destruct (download_template server _ (default "" (st_initialization st)) (Some rep)
                None None w) as [r w1] eqn:Hdl.
    assert (length (requests w1) ≤ S (length (requests w)))%nat as Hreq.
    { rewrite (download_template_requests server _ _ _ _ _ w r w1 Hdl).
      rewrite length_app. repeat case_match; cbn; lia. }
    destruct r as [[]|e].
    + rewrite Hsel. eexists _, _, _. split; [reflexivity|]. split; [done|].
      intros [Hnone|Htrue]; [rewrite bool_decide_eq_true_2 in Hinit by done; done|].
      rewrite Htrue, andb_false_r in Hinit. done.
    + eexists _, _, _. split; [reflexivity|]. split; [done|].
      intros [Hnone|Htrue]; [rewrite bool_decide_eq_true_2 in Hinit by done; done|].
      rewrite Htrue, andb_false_r in Hinit. done.
  - rewrite Hsel. eexists _, _, _. split; [reflexivity|]. split; [lia|]. done.
Qed.

End MultiPeriod.

Lemma implicit_timeline_multi_period_witness :
  ∃ dl',
    handle_mpd ex_server ex_downloader ex_two_periods_implicit "http://h/" (mkWorld ∅ [])
    = (Raise TypeError, dl', ex_two_periods_implicit, mkWorld ∅ []).
Proof.
  destruct (implicit_timeline_multi_period ex_server ex_downloader ex_two_periods_implicit
              "http://h/" (mkWorld ∅ []) (mkRepresentation (Some "a") (Some ex_template_duration))
              ex_template_duration ltac:(cbn; lia) eq_refl eq_refl eq_refl (or_introl eq_refl))
    as (e & dl' & w' & H & _ & H3).
  destruct (H3 (or_introl eq_refl)) as [-> ->]. by exists dl'.
Defined.

(** ** Base URLs *)

Lemma rfind_app (c : ascii) (a b : string) :
  rfind c (a +:+ b)
  = match rfind c b with
    | Some j => Some (String.length a + j)%nat
    | None => rfind c a
    end.
Proof.
  induction a as [|x a IH].
  { change ("" +:+ b) with b. by destruct (rfind c b). }
  rewrite append_cons. cbn [rfind String.length]. rewrite IH.
  destruct (rfind c b); [done|]. reflexivity.
Qed.

Lemma string_take_app (a b : string) : string_take (String.length a) (a +:+ b) = a.
Proof.
  induction a as [|x a IH]; [by destruct b|].
  rewrite append_cons. cbn [String.length string_take]. by rewrite IH.
Qed.

Lemma string_take_app_next (a b : string) (c : ascii) :
  string_take (S (String.length a)) (a +:+ String c b) = a +:+ String c EmptyString.
Proof.
  induction a as [|x a IH]; [by destruct b|].
  rewrite !append_cons. cbn [String.length]. remember (S (String.length a)) as n.
  cbn [string_take]. subst n. by rewrite IH.
Qed.

Lemma rfind_directory (dir name : string) :
  rfind "/" name = None →
  rfind "/" (dir +:+ "/" +:+ name) = Some (String.length dir).
Proof.
  intros Hname. rewrite rfind_app. change ("/" +:+ name) with (String "/" name).
  cbn [rfind]. rewrite Hname. change (Ascii.eqb "/" "/") with true. cbv iota.
  by rewrite Nat.add_0_r.
Qed.

(** The directory part of a URL: for a URL made of a directory, a slash, a
    file name and possibly a query after a question mark, [baseUrl] returns
    the directory with the slash, whether or not the query holds slashes. *)
Theorem baseUrl_directory (dir name query : string) :
  rfind "?" dir = None → rfind "/" name = None → rfind "?" name = None →
  rfind "?" query = None →
  baseUrl (dir +:+ "/" +:+ name) = dir +:+ "/"
  ∧ baseUrl (dir +:+ "/" +:+ name +:+ "?" +:+ query) = dir +:+ "/".
Proof.
  intros Hdir Hname Hname' Hquery.
  assert (baseUrl (dir +:+ "/" +:+ name) = dir +:+ "/") as Hbase.
  { unfold baseUrl.
    assert (rfind "?" (dir +:+ "/" +:+ name) = None) as ->.
    { rewrite !rfind_app, Hname'. cbn. exact Hdir. }
    rewrite (rfind_directory dir name Hname).
    change ("/" +:+ name) with (String "/" name). apply string_take_app_next. }
  split; [exact Hbase|].
  unfold baseUrl at 1.
  replace (dir +:+ "/" +:+ name +:+ "?" +:+ query)
    with ((dir +:+ "/" +:+ name) +:+ "?" +:+ query) by (by rewrite !append_assoc).
  rewrite rfind_app. change ("?" +:+ query) with (String "?" query).
  cbn [rfind]. rewrite Hquery. change (Ascii.eqb "?" "?") with true. cbv iota.
  rewrite Nat.add_0_r, string_take_app, (rfind_directory dir name Hname).
  change ("/" +:+ name) with (String "/" name). apply string_take_app_next.
Qed.

Lemma baseUrl_directory_witness :
  baseUrl "http://h/live/manifest.mpd" = "http://h/live/"
  ∧ baseUrl "http://h/live/manifest.mpd?token=a/b" = "http://h/live/".
Proof.
  exact (baseUrl_directory "http://h/live" "manifest.mpd" "token=a/b"
           eq_refl eq_refl eq_refl eq_refl).
Defined.

(** ** What a pass keeps *)

(** A pass of a downloader removes no file and changes the content of none:
    what [download_template] writes, it writes under names that were free. *)
Theorem handle_mpd_keeps_files (server : string → response) (dl : DashDownloader)
    (mpd : MPD) (base_url : string) (w : World) :
  files w ⊆ files (handle_mpd server dl mpd base_url w).2.
Proof. apply (handle_mpd_under server dl mpd base_url w). Qed.

(** Every URL a pass requests starts with the base URL the pass was given. *)
Theorem handle_mpd_requests_under_base_url (server : string → response)
    (dl : DashDownloader) (mpd : MPD) (base_url : string) (w : World) :
  ∃ urls, requests (handle_mpd server dl mpd base_url w).2 = requests w ++ urls
          ∧ Forall (fun url => String.prefix base_url url = true) urls.
Proof.
  destruct (handle_mpd_under server dl mpd base_url w) as [_ (es & Ht & Hes)].
  exists (omap (fun e => match e with HttpGet url => Some url | _ => None end) es).
  split; [unfold requests; by rewrite Ht, omap_app|].
  clear Ht. induction Hes as [|e es He _ IH]; [constructor|].
  destruct e as [l m|url|sec]; cbn; [exact IH|by constructor|done].
Qed.

(** ** Destination paths *)

Lemma rev_app_acc (s acc : string) : String.rev_app s acc = String.rev s +:+ acc.
Proof.
  unfold String.rev. revert acc. induction s as [|c s IH]; intros acc; [done|].
  cbn [String.rev_app]. rewrite (IH (String c acc)), (IH (String c "")).
  by rewrite append_assoc.
Qed.

Lemma rev_cons (c : ascii) (s : string) :
  String.rev (String c s) = String.rev s +:+ String c EmptyString.
Proof. unfold String.rev at 1. cbn [String.rev_app]. apply rev_app_acc. Qed.

Lemma rev_cons_nonempty (s : string) : s ≠ EmptyString → String.rev s ≠ EmptyString.
Proof.
  destruct s as [|c s]; [done|]. intros _. rewrite rev_cons.
  destruct (String.rev s); [by change ("" +:+ ?x) with x|by rewrite append_cons].
Qed.

Lemma ends_with_slash_rfind (a : string) :
  ends_with_slash a = true → rfind "/" a ≠ None.
Proof.
  unfold ends_with_slash. induction a as [|c a IH]; [done|].
  rewrite rev_cons. cbn [rfind]. destruct a as [|c' a'].
  - cbn. destruct (decide (c = "/"%char)) as [->|Hc]; [done|].
    destruct c as [[] [] [] [] [] [] [] []]; done.
  - pose proof (rev_cons_nonempty (String c' a') ltac:(done)) as Hne.
    destruct (String.rev (String c' a')) as [|y z]; [done|].
    rewrite append_cons. intros H. specialize (IH H).
    destruct (rfind "/" (String c' a')); done.
Qed.

Lemma prefix_cons (a b : ascii) (s1 s2 : string) :
  String.prefix (String a s1) (String b s2)
  = if ascii_dec a b then String.prefix s1 s2 else false.
Proof. reflexivity. Qed.

Lemma prefix_slash_rfind (b : string) : String.prefix "/" b = true → rfind "/" b ≠ None.
Proof.
  destruct b as [|c b]; [done|]. rewrite prefix_cons.
  destruct (ascii_dec "/" c) as [<-|]; [|done].
  intros _. cbn [rfind]. by destruct (rfind "/" b).
Qed.

(** A path under a named directory has a slash. *)
Lemma path_join_rfind (a b : string) : a ≠ EmptyString → rfind "/" (path_join a b) ≠ None.
Proof.
  intros Ha. unfold path_join.
  destruct (String.prefix "/" b) eqn:Hb; [by apply prefix_slash_rfind|].
  rewrite bool_decide_eq_false_2 by done. cbn [orb].
  destruct (ends_with_slash a) eqn:Hs.
  - apply ends_with_slash_rfind in Hs. rewrite rfind_app.
    destruct (rfind "/" b); done.
  - rewrite rfind_app. change ("/" +:+ b) with (String "/" b). cbn [rfind].
    destruct (rfind "/" b); done.
Qed.

Lemma lstrip_slashes_app (a b : string) :
  lstrip_slashes a ≠ EmptyString → lstrip_slashes (a +:+ b) ≠ EmptyString.
Proof.
  induction a as [|c a IH]; [done|]. rewrite append_cons.
  destruct (decide (c = "/"%char)) as [->|Hc]; [exact IH|].
  intros _. destruct c as [[] [] [] [] [] [] [] []]; done.
Qed.

Lemma lstrip_slashes_app_r (a b : string) :
  lstrip_slashes b ≠ EmptyString → lstrip_slashes (a +:+ b) ≠ EmptyString.
Proof.
  intros Hb. induction a as [|c a IH]; [done|]. rewrite append_cons.
  destruct (decide (c = "/"%char)) as [->|Hc]; [exact IH|].
  destruct c as [[] [] [] [] [] [] [] []]; done.
Qed.

Lemma lstrip_slashes_rev (s : string) :
  lstrip_slashes s ≠ EmptyString → lstrip_slashes (String.rev s) ≠ EmptyString.
Proof.
  induction s as [|c s IH]; [done|]. rewrite rev_cons.
  destruct (decide (c = "/"%char)) as [->|Hc].
  - intros H. by apply lstrip_slashes_app, IH.
  - intros _. apply lstrip_slashes_app_r.
    destruct c as [[] [] [] [] [] [] [] []]; done.
Qed.

(** The directory of a path with a slash has a name. *)
Lemma dirname_nonempty (p : string) : rfind "/" p ≠ None → dirname p ≠ EmptyString.
Proof.
  unfold dirname. destruct (rfind "/" p) as [i|] eqn:Hi; [intros _|done].
  assert (string_take (S i) p ≠ EmptyString) as Hhead.
  { destruct p; [done|]. done. }
  destruct (lstrip_slashes (string_take (S i) p)) as [|c r] eqn:Hl; [done|].
  apply rev_cons_nonempty, lstrip_slashes_rev. by rewrite Hl.
Qed.

(** A new directory is no regular file. *)
Lemma isfile_write_directory (path p : string) (w : World) :
  isfile w p = false → isfile (write_file path Directory w) p = false.
Proof.
  unfold isfile, write_file. cbn [files]. intros H.
  destruct (decide (path = p)) as [->|Hne].
  - by rewrite lookup_insert_eq.
  - by rewrite lookup_insert_ne.
Qed.

(** The directories are created when no regular file has the name of one
    of them. *)
Lemma mkdirs_returns (paths : list string) :
  ∀ w : World, Forall (fun p => isfile w p = false) paths → (mkdirs paths w).1 = Ok ().
Proof.
  induction paths as [|path rest IH]; intros w H; [done|].
  inversion H as [|? ? H1 H2]; subst. cbn [mkdirs]. rewrite H1.
  apply IH. destruct (isdir w path); [done|].
  revert H2. apply Forall_impl. intros p. apply isfile_write_directory.
Qed.

Section Answers.
Variable server : string → response.


End Answers.


(** With a regular file [out/x] on disk, the template [x/y] needs a
    directory of that name: the creation of the directory raises, outside
    the [try], and no request is made. *)
Lemma download_template_file_in_the_way :
  download_template ex_server_down ex_downloader "x/y" None None None
    (mkWorld {["out/x" := Bytes "b"]} [])
  = (Raise FileExistsError, mkWorld {["out/x" := Bytes "b"]} []).
Proof. vm_compute. reflexivity. Qed.

(** ** The expansion of arbitrary elements *)

(** The expansion loop on the children of the timeline it fills. *)
Lemma expand_loop_expansion (segments pre : list S_elem) (total : Z) :
  (expand_loop segments (length pre) total (pre ++ segments)).2
  = pre ++ expansion segments.
Proof.
  revert pre total. induction segments as [|s segments IH]; intros pre total.
  - reflexivity.
  - cbn [expand_loop].
    pose proof (insert_repeats_app (Z.to_nat (default 0 (S_r s))) (default 0 (S_d s))
                  (pre ++ [s]) segments) as H.
    rewrite length_app, Nat.add_1_r, <- (assoc (++)) in H.
    change ([s] ++ ?l) with (s :: l) in H. rewrite H. clear H.
    specialize (IH ((pre ++ [s]) ++ replicate (Z.to_nat (default 0 (S_r s)))
                                      (mkS None (Some (default 0 (S_d s))) None))).
    rewrite !length_app, length_replicate, Nat.add_1_r in IH.
    rewrite (assoc (++)), IH.
    cbn [expansion flat_map]. fold (expansion segments). unfold repeats.
    by rewrite <- !(assoc (++)).
Qed.

Lemma expansion_length (segments : list S_elem) :
  length (expansion segments) = (length segments + sum_list (repeats <$> segments))%nat.
Proof.
  induction segments as [|s segments IH]; [done|].
  cbn [expansion flat_map]. fold (expansion segments).
  rewrite fmap_cons, length_app. cbn [length]. rewrite length_replicate, IH.
  change (sum_list (repeats s :: (repeats <$> segments)))
    with (repeats s + sum_list (repeats <$> segments))%nat. lia.
Qed.

Lemma assign_times_length (timeline : list S_elem) (timescale clock : Z) :
  length (assign_times timescale clock timeline) = length timeline.
Proof.
  revert clock. induction timeline as [|s timeline IH]; intros clock; [done|].
  cbn [assign_times]. destruct (assign_time clock s) as [[s' clock']|]; [|done].
  destruct (time_info clock' timescale); [|done].
  cbn [length]. by rewrite IH.
Qed.

(** The resolution of a timeline with entries, whatever their attributes:
    the expansion of the entries, with the start times the second loop
    sets when it is reached. *)
Lemma resolved_segments_explicit (mpd : MPD) (rep_addr : RepAddr) (s : S_elem)
    (tl : list S_elem) :
  MpdLocator.segment_timeline mpd rep_addr = Ok (Some (s :: tl)) →
  ∃ timescale,
    resolved_segments mpd rep_addr = Ok (expansion (s :: tl))
    ∨ resolved_segments mpd rep_addr
      = Ok (assign_times timescale 0 (expansion (s :: tl))).
Proof.
  intros H. unfold resolved_segments. unfold MpdLocator.segment_timeline in *.
  destruct (MpdLocator.segment_template mpd rep_addr) as [[st|]|err]; [|done..].
  cbn [mbind result_bind] in *. injection H as H. rewrite H.
  cbn [select_timeline mbind result_bind].
  pose proof (expand_loop_expansion (s :: tl) [] 0) as Hex.
  cbn [app length] in Hex.
  destruct (expand_loop _ _ _ _) as [[idx total] expanded]. cbn [snd] in Hex.
  subst expanded. exists (default 1 (st_timescale st)).
  destruct (time_info _ _); [by right|by left].
Qed.

(** The number of segments a timeline with entries resolves to: one for
    each entry and one more for each repeat; an entry whose repeat count is
    absent, zero or negative stands for one segment. *)
Theorem resolved_segments_count (mpd : MPD) (rep_addr : RepAddr) (s : S_elem)
    (tl : list S_elem) :
  MpdLocator.segment_timeline mpd rep_addr = Ok (Some (s :: tl)) →
  length <$> resolved_segments mpd rep_addr
  = Ok (length (s :: tl) + sum_list (repeats <$> s :: tl))%nat.
Proof.
  intros H.
  destruct (resolved_segments_explicit mpd rep_addr s tl H) as [timescale [-> | ->]];
    cbn [fmap result_fmap]; by rewrite ?assign_times_length, expansion_length.
Qed.

Lemma resolved_segments_count_witness :
  length <$> resolved_segments ex_explicit (mkRepAddr 0 0 0) = Ok 3%nat.
Proof.
  exact (resolved_segments_count ex_explicit (mkRepAddr 0 0 0)
           (mkS (Some "0") (Some 10) (Some 2)) [] eq_refl).
Defined.

(** ** A timeline shared by the representations of an adaptation set *)

(** Where the template of an address is the adaptation set's: the period,
    the set, and the set's template. *)
Lemma set_timeline_shared (mpd : MPD) (a1 : RepAddr) (p : Period) (a : AdaptationSet)
    (rep1 : Representation) (st : SegmentTemplate) (tl : list S_elem) :
  mpd_Period mpd !! period_idx a1 = Some p →
  period_AdaptationSet p !! adaptation_set_idx a1 = Some a →
  as_Representation a !! representation_idx a1 = Some rep1 →
  rep_SegmentTemplate rep1 = None → as_SegmentTemplate a = Some st →
  ∃ p' a',
    mpd_Period (set_timeline mpd a1 tl) !! period_idx a1 = Some p'
    ∧ period_AdaptationSet p' !! adaptation_set_idx a1 = Some a'
    ∧ as_Representation a' = as_Representation a
    ∧ as_SegmentTemplate a' = Some (set_template_timeline tl st).
Proof.
  intros Hp Ha Hrep Hnone Hst. unfold set_timeline. cbn [mpd_Period].
  eexists _, _. split; [by rewrite list_lookup_alter_eq, Hp|].
  cbn [period_AdaptationSet]. split; [by rewrite list_lookup_alter_eq, Ha|].
  cbn [fmap option_fmap option_map].
  unfold set_adaptation_set_timeline. rewrite Hrep, Hnone, Hst. done.
Qed.

Lemma locate_shared (mpd : MPD) (a2 : RepAddr) (p : Period) (a : AdaptationSet)
    (rep2 : Representation) (st : SegmentTemplate) :
  mpd_Period mpd !! period_idx a2 = Some p →
  period_AdaptationSet p !! adaptation_set_idx a2 = Some a →
  as_Representation a !! representation_idx a2 = Some rep2 →
  rep_SegmentTemplate rep2 = None → as_SegmentTemplate a = Some st →
  MpdLocator.representation mpd a2 = Ok rep2
  ∧ MpdLocator.segment_template mpd a2 = Ok (Some st)
  ∧ MpdLocator.segment_timeline mpd a2 = Ok (st_SegmentTimeline st).
Proof.
  intros Hp Ha Hrep Hnone Hst.
  assert (MpdLocator.adaptation_set mpd a2 = Ok a) as Hset.
  { unfold MpdLocator.adaptation_set, MpdLocator.period, MpdLocator.periods, index.
    rewrite Hp. cbn [mbind result_bind]. by rewrite Ha. }
  assert (MpdLocator.representation mpd a2 = Ok rep2) as Hr.
  { unfold MpdLocator.representation, index. rewrite Hset. cbn [mbind result_bind].
    by rewrite Hrep. }
  assert (MpdLocator.segment_template mpd a2 = Ok (Some st)) as Ht.
  { unfold MpdLocator.segment_template. rewrite Hr. cbn [mbind result_bind].
    rewrite Hnone, Hset. cbn [mbind result_bind]. by rewrite Hst. }
  split; [done|]. split; [done|].
  unfold MpdLocator.segment_timeline. by rewrite Ht.
Qed.

Section Shared.
Variable server : string → response.

(** The manifest a pass over a timeline with entries leaves, when the pass
    ends without an exception: the timeline holds the resolved segments. *)
Lemma handle_mpd_writes_back (dl : DashDownloader) (mpd : MPD) (base_url : string)
    (w : World) (s : S_elem) (tl : list S_elem) (dl' : DashDownloader) (mpd' : MPD)
    (w' : World) :
  let rep_addr := obj_addr (dl_rep_addr dl) in
  MpdLocator.segment_timeline mpd rep_addr = Ok (Some (s :: tl)) →
  handle_mpd server dl mpd base_url w = (Ok (), dl', mpd', w') →
  ∃ timescale,
    mpd' = set_timeline (set_timeline mpd rep_addr (expansion (s :: tl))) rep_addr
             (assign_times timescale 0 (expansion (s :: tl))).
Proof.
  intros rep_addr Htl. unfold handle_mpd.
  cbn [dl_rep_addr dl_initialization_downloaded dl_output_dir dl_mpd_base_url].
  fold rep_addr. rewrite Htl.
  destruct (MpdLocator.representation mpd rep_addr) as [rep|e]; [|done].
  destruct (MpdLocator.segment_template mpd rep_addr) as [[st|]|e]; [|done..].
  cbn [mbind result_bind].
  destruct (download_initialization _ _ _ _ _) as [[r_init dl1] w1].
  destruct r_init as [[]|e]; [|done].
  cbn [select_timeline].
  pose proof (expand_loop_expansion (s :: tl) [] 0) as Hex. cbn [app length] in Hex.
  destruct (expand_loop _ _ _ _) as [[idx total] expanded]. cbn [snd] in Hex.
  subst expanded. destruct (time_info _ _) as [[]|]; [|done].
  pose proof (media_loop_visited server dl1 (default "" (st_media st)) rep
                (default 0 (st_startNumber st)) (default 1 (st_timescale st))
                (expansion (s :: tl)) 0%nat 0 []
                (emits (replicate (length (expansion (s :: tl)) - length (s :: tl))
                          (Log VERBOSE MsgAppending)) w1)) as Hvisited.
  destruct (media_loop _ _ _ _ _ _ _ _ _ _ _) as [[r visited] w2].
  intros [= -> _ <- _]. exists (default 1 (st_timescale st)).
  by rewrite (Hvisited eq_refl).
Qed.

End Shared.

Lemma repeats_assign_times (timeline : list S_elem) (timescale clock : Z) :
  repeats <$> assign_times timescale clock timeline = repeats <$> timeline.
Proof.
  revert clock. induction timeline as [|s timeline IH]; intros clock; [done|].
  cbn [assign_times]. unfold assign_time.
  destruct (int_of_text _) as [current_time|]; [|done]. cbn [mbind result_bind].
  assert (repeats (if current_time =? -1
                   then mkS (Some (pretty clock)) (S_d s) (S_r s) else s) = repeats s)
    as Hr by (by destruct (_ =? _)).
  destruct (time_info _ _); rewrite !fmap_cons, ?IH; by rewrite Hr.
Qed.

Lemma repeats_expansion (segments : list S_elem) :
  sum_list (repeats <$> expansion segments) = sum_list (repeats <$> segments).
Proof.
  induction segments as [|s segments IH]; [done|].
  cbn [expansion flat_map]. fold (expansion segments).
  rewrite fmap_app, !fmap_cons, fmap_replicate, sum_list_with_app, IH.
  change (sum_list (?x :: ?l)) with (x + sum_list l)%nat.
  assert (∀ n, sum_list (replicate n (repeats (mkS None (Some (default 0 (S_d s))) None)))
               = 0%nat) as ->; [|lia].
  induction n as [|n IHn]; [done|]. cbn [replicate].
  change (sum_list (?x :: ?l)) with (x + sum_list l)%nat. by rewrite IHn.
Qed.

Section SharedTheorem.
Variable server : string → response.

(** Two representations that use the template of their adaptation set share
    its timeline in the manifest object.  After a pass for one of them that
    ends without an exception, the timeline holds the resolved segments, the
    entries still with their repeat counts: a pass for the other one
    resolves them again and gets, besides the segments of the timeline as it
    was parsed, one more segment for every repeat. *)
Theorem shared_timeline_expanded_again (dl : DashDownloader) (mpd : MPD)
    (base_url : string) (w : World) (dl' : DashDownloader) (mpd' : MPD) (w' : World)
    (a2 : RepAddr) (p : Period) (a : AdaptationSet) (rep1 rep2 : Representation)
    (st : SegmentTemplate) (s : S_elem) (tl : list S_elem) :
  let a1 := obj_addr (dl_rep_addr dl) in
  let n := (length (s :: tl) + sum_list (repeats <$> s :: tl))%nat in
  mpd_Period mpd !! period_idx a1 = Some p →
  period_AdaptationSet p !! adaptation_set_idx a1 = Some a →
  as_SegmentTemplate a = Some st → st_SegmentTimeline st = Some (s :: tl) →
  as_Representation a !! representation_idx a1 = Some rep1 →
  rep_SegmentTemplate rep1 = None →
  period_idx a2 = period_idx a1 → adaptation_set_idx a2 = adaptation_set_idx a1 →
  as_Representation a !! representation_idx a2 = Some rep2 →
  rep_SegmentTemplate rep2 = None →
  handle_mpd server dl mpd base_url w = (Ok (), dl', mpd', w') →
  length <$> resolved_segments mpd a2 = Ok n
  ∧ length <$> resolved_segments mpd' a2
    = Ok (n + sum_list (repeats <$> s :: tl))%nat.
Proof.
  intros a1 n Hp Ha Hst Htl Hrep1 Hnone1 Hpi Hai Hrep2 Hnone2 Hpass.
  destruct (locate_shared mpd a1 p a rep1 st Hp Ha Hrep1 Hnone1 Hst) as (_ & _ & Htl1).
  rewrite Htl in Htl1.
  destruct (handle_mpd_writes_back server dl mpd base_url w s tl dl' mpd' w' Htl1 Hpass)
    as [timescale Hmpd']. fold a1 in Hmpd'.
  assert (mpd_Period mpd !! period_idx a2 = Some p) as Hp' by (by rewrite Hpi).
  assert (period_AdaptationSet p !! adaptation_set_idx a2 = Some a) as Ha'
    by (by rewrite Hai).
  destruct (locate_shared mpd a2 p a rep2 st Hp' Ha' Hrep2 Hnone2 Hst) as (_ & _ & Htl2).
  rewrite Htl in Htl2. split; [by apply resolved_segments_count|].
  destruct (set_timeline_shared mpd a1 p a rep1 st (expansion (s :: tl))
              Hp Ha Hrep1 Hnone1 Hst) as (p1 & s1 & Hp1 & Ha1 & Hreps1 & Hst1).
  rewrite <- Hreps1 in Hrep1, Hrep2.
  destruct (set_timeline_shared _ a1 p1 s1 rep1 _
              (assign_times timescale 0 (expansion (s :: tl)))
              Hp1 Ha1 Hrep1 Hnone1 Hst1) as (p2 & s2 & Hp2 & Ha2 & Hreps2 & Hst2).
  rewrite <- Hmpd' in Hp2. rewrite <- Hreps2 in Hrep2.
  rewrite <- Hpi in Hp2. rewrite <- Hai in Ha2.
  destruct (locate_shared mpd' a2 p2 s2 rep2 _ Hp2 Ha2 Hrep2 Hnone2 Hst2)
    as (_ & _ & Hafter).
  cbn [set_template_timeline st_SegmentTimeline] in Hafter.
  destruct (assign_times timescale 0 (expansion (s :: tl))) as [|v vs] eqn:Hv.
  { apply (f_equal length) in Hv. rewrite assign_times_length in Hv. done. }
  rewrite (resolved_segments_count mpd' a2 v vs Hafter), <- Hv.
  rewrite assign_times_length, repeats_assign_times, expansion_length, repeats_expansion.
  done.
Qed.

End SharedTheorem.

(** The timeline [{t:0, d:10, r:2}] of a set with two representations: three
    segments for the second one from the manifest as parsed, five after the
    pass for the first one. *)
Lemma shared_timeline_expanded_again_witness :
  ∃ dl' mpd' w',
    handle_mpd ex_server ex_downloader ex_two_representations "http://h/" (mkWorld ∅ [])
    = (Ok (), dl', mpd', w')
    ∧ length <$> resolved_segments ex_two_representations (mkRepAddr 0 0 1) = Ok 3%nat
    ∧ length <$> resolved_segments mpd' (mkRepAddr 0 0 1) = Ok 5%nat.
Proof.
  destruct (handle_mpd ex_server ex_downloader ex_two_representations "http://h/"
              (mkWorld ∅ [])) as [[[r dl'] mpd'] w'] eqn:E.
  assert (r = Ok ()) as ->.
  { vm_compute in E. by injection E as <- _ _ _. }
  exists dl', mpd', w'. split; [reflexivity|].
  exact (shared_timeline_expanded_again ex_server ex_downloader ex_two_representations
           "http://h/" (mkWorld ∅ []) dl' mpd' w' (mkRepAddr 0 0 1)
           (mkPeriod None None
              [mkAdaptationSet [] (Some ex_template_timeline)
                 [mkRepresentation (Some "v1") None; mkRepresentation (Some "v2") None]])
           (mkAdaptationSet [] (Some ex_template_timeline)
              [mkRepresentation (Some "v1") None; mkRepresentation (Some "v2") None])
           (mkRepresentation (Some "v1") None) (mkRepresentation (Some "v2") None)
           ex_template_timeline (mkS (Some "0") (Some 10) (Some 2)) []
           eq_refl eq_refl eq_refl eq_refl eq_refl eq_refl eq_refl eq_refl eq_refl eq_refl E).
Defined.

(** ** Dispatch, in general *)

Lemma emits_emit (e : event) (es : list event) (w : World) :
  emit e (emits es w) = emits (es ++ [e]) w.
Proof. unfold emit, emits. cbn. by rewrite (assoc (++)). Qed.

Lemma emits_emits (es es' : list event) (w : World) :
  emits es' (emits es w) = emits (es ++ es') w.
Proof. unfold emits. cbn. by rewrite (assoc (++)). Qed.

Lemma emits_nil (w : World) : emits [] w = w.
Proof. destruct w. unfold emits. cbn. by rewrite app_nil_r. Qed.

(** The inner loop, as one step: the threads it starts, on new address
    objects, and the lines it logs. *)
Lemma dispatch_representations_effect (mpd_id as_idx : nat) (reps : list Representation) :
  ∀ (rep_idx : nat) (sys : System),
    ∃ logs,
      dispatch_representations mpd_id as_idx rep_idx reps sys
      = mkSystem (sys_proxy sys) (sys_mpds sys) (sys_next_id sys + length reps)
          (sys_threads sys
           ++ ((fun k => mkThread mpd_id
                           (mkObj (sys_next_id sys + k) (mkRepAddr 0 as_idx (rep_idx + k))))
                 <$> seq 0 (length reps)))
          (sys_gets sys) (emits logs (sys_world sys))
      ∧ forallb is_log logs = true.
Proof.
  induction reps as [|rep reps IH]; intros rep_idx sys; cbn [dispatch_representations].
  - exists []. split; [|done]. destruct sys. cbn. by rewrite Nat.add_0_r, app_nil_r, emits_nil.
  - cbn zeta. edestruct IH as (logs & -> & Hlogs).
    cbn [sys_emit sys_proxy sys_mpds sys_next_id sys_threads sys_gets sys_world].
    exists (Log VERBOSE (MsgFoundRepresentation (default "UKN" (rep_id rep))) :: logs).
    split; [|done]. f_equal.
    + cbn [length]. lia.
    + cbn [length seq fmap list_fmap]. rewrite <- (assoc (++)). cbn [app].
      rewrite !Nat.add_0_r. do 2 f_equal.
      rewrite <- fmap_S_seq, <- list_fmap_compose.
      apply list_fmap_ext. intros i k _. cbn. do 3 f_equal; lia.
    + unfold emit, emits. cbn. by rewrite <- (assoc (++)).
Qed.

(** The outer loop, as one step. *)
Lemma dispatch_adaptation_sets_effect (mpd_id : nat) (sets : list AdaptationSet) :
  ∀ (as_idx : nat) (sys : System),
    ∃ new logs,
      dispatch_adaptation_sets mpd_id as_idx sets sys
      = mkSystem (sys_proxy sys) (sys_mpds sys) (sys_next_id sys + length new)
          (sys_threads sys ++ new) (sys_gets sys) (emits logs (sys_world sys))
      ∧ forallb is_log logs = true
      ∧ thread_addr <$> new = dispatched_from as_idx sets
      ∧ thread_id <$> new = seq (sys_next_id sys) (length new)
      ∧ Forall (fun th => th_mpd th = mpd_id) new.
Proof.
  induction sets as [|a sets IH]; intros as_idx sys; cbn [dispatch_adaptation_sets].
  - exists [], []. destruct sys. cbn. by rewrite Nat.add_0_r, app_nil_r, emits_nil.
  - cbn zeta. cbn [dispatched_from]. destruct (is_trickmode a).
    + apply IH.
    + destruct (dispatch_representations_effect mpd_id as_idx (as_Representation a) 0%nat sys)
        as (logs1 & -> & Hlogs1).
      edestruct IH as (new & logs & -> & Hlogs & Haddr & Hids & Hmpd).
      cbn [sys_proxy sys_mpds sys_next_id sys_threads sys_gets sys_world] in *.
      set (first := (fun k => mkThread mpd_id (mkObj (sys_next_id sys + k)
                                                 (mkRepAddr 0 as_idx (0 + k))))
                    <$> seq 0 (length (as_Representation a))).
      assert (length first = length (as_Representation a)) as Hlen
        by (subst first; by rewrite length_fmap, length_seq).
      exists (first ++ new), (logs1 ++ logs). split; [|split; [|split; [|split]]].
      * rewrite emits_emits, <- (assoc (++)). f_equal. rewrite length_app. lia.
      * rewrite forallb_app. by rewrite Hlogs1, Hlogs.
      * rewrite fmap_app, Haddr. f_equal. subst first.
        rewrite <- list_fmap_compose. by apply list_fmap_ext.
      * rewrite fmap_app, Hids, length_app, seq_app, Hlen. f_equal.
        subst first. rewrite <- list_fmap_compose.
        replace (seq (sys_next_id sys) (length (as_Representation a)))
          with (Nat.add (sys_next_id sys) <$> seq 0 (length (as_Representation a)))
          by (by rewrite fmap_add_seq, Nat.add_0_r).
        by apply list_fmap_ext.
      * apply Forall_app. split; [|done]. subst first. by apply Forall_fmap, Forall_true.
Qed.

(** What the list of dispatched positions holds. *)
Lemma elem_of_dispatched_from (a : RepAddr) (sets : list AdaptationSet) :
  ∀ n : nat,
    a ∈ dispatched_from n sets ↔
    ∃ i aset, sets !! i = Some aset ∧ is_trickmode aset = false
              ∧ period_idx a = 0%nat ∧ adaptation_set_idx a = (n + i)%nat
              ∧ (representation_idx a < length (as_Representation aset))%nat.
Proof.
  induction sets as [|s sets IH]; intros n; cbn [dispatched_from].
  - split; [by intros ?%elem_of_nil|]. by intros (i & aset & ? & _).
  - rewrite elem_of_app, IH. split.
    + intros [H|(i & aset & H1 & H2 & H3 & H4 & H5)].
      * destruct (is_trickmode s) eqn:Hs; [by apply elem_of_nil in H|].
        apply list_elem_of_fmap in H as (j & -> & Hj%elem_of_seq).
        exists 0%nat, s. cbn. repeat split; try done; lia.
      * exists (S i), aset. repeat split; try done. lia.
    + intros (i & aset & H1 & H2 & H3 & H4 & H5). destruct i as [|i].
      * left. injection H1 as ->. rewrite H2. apply list_elem_of_fmap.
        exists (representation_idx a). split.
        -- destruct a as [p q r]. cbn in *. subst. f_equal. lia.
        -- apply elem_of_seq. lia.
      * right. exists i, aset. repeat split; try done. lia.
Qed.

(** No position is dispatched twice. *)
Lemma NoDup_dispatched_from (sets : list AdaptationSet) :
  ∀ n : nat, base.NoDup (dispatched_from n sets).
Proof.
  induction sets as [|s sets IH]; intros n; cbn [dispatched_from]; [constructor|].
  apply list.NoDup_app. split; [|split; [|apply IH]].
  - destruct (is_trickmode s); [constructor|].
    assert (Inj (=) (=) (mkRepAddr 0 n)) by (by intros i j [= ->]).
    apply (NoDup_fmap_2 (mkRepAddr 0 n)), NoDup_seq.
  - intros a Ha Hrest.
    apply elem_of_dispatched_from in Hrest as (i & aset & _ & _ & _ & Hidx & _).
    destruct (is_trickmode s); [by apply elem_of_nil in Ha|].
    apply list_elem_of_fmap in Ha as (j & -> & _). cbn in Hidx. lia.
Qed.

(** One refresh starts its threads on positions that resolve: in the
    manifest object a thread is given, its address names a representation of
    an adaptation set of the first period that fails the trick-mode test;
    every such representation has a thread, and none has two.  This holds
    whether or not the manifest file can be written afterwards. *)
Theorem dispatched_threads_resolve (refresh : System → result unit * System)
    (mpd_id : nat) (sys : System) (mpd : MPD) :
  sys_mpds sys !! mpd_id = Some mpd → mpd_Period mpd ≠ [] →
  ∃ sys1 new,
    sys_threads sys1 = sys_threads sys ++ new
    ∧ sys_mpds sys1 = sys_mpds sys
    ∧ Forall (fun th => th_mpd th = mpd_id) new
    ∧ base.NoDup (thread_addr <$> new)
    ∧ (∀ rep_addr,
         rep_addr ∈ thread_addr <$> new ↔
         period_idx rep_addr = 0%nat
         ∧ ∃ a rep, MpdLocator.adaptation_set mpd rep_addr = Ok a
                    ∧ is_trickmode a = false
                    ∧ MpdLocator.representation mpd rep_addr = Ok rep)
    ∧ (DashProxy_handle_mpd refresh mpd_id sys = (Raise FileNotFoundError, sys1)
       ∨ DashProxy_handle_mpd refresh mpd_id sys = refresh sys1
       ∨ DashProxy_handle_mpd refresh mpd_id sys = (Ok (), sys_emit (Log INFO MsgVod) sys1)).
Proof.
  intros Hmpd Hperiods. destruct (mpd_Period mpd) as [|period rest] eqn:Hp; [done|].
  unfold DashProxy_handle_mpd. rewrite Hmpd, Hp.
  set (sys0 := sys_emit _ (sys_emit _ sys)).
  destruct (dispatch_adaptation_sets_effect mpd_id (period_AdaptationSet period) 0%nat sys0)
    as (new & logs & -> & Hlogs & Haddr & Hids & Hthreads).
  set (sysd := mkSystem _ _ _ _ _ _).
  assert (∃ sys1, sys_threads sys1 = sys_threads sys ++ new
                  ∧ sys_mpds sys1 = sys_mpds sys
                  ∧ (write_output_mpd (remove_trickmode mpd) sysd
                     = (Raise FileNotFoundError, sys1)
                     ∨ write_output_mpd (remove_trickmode mpd) sysd = (Ok (), sys1)))
    as (sys1 & Hth1 & Hmpds1 & Hwrite).
  { unfold write_output_mpd. destruct (bool_decide _).
    - eexists. split; [|split; [|left; reflexivity]]; done.
    - destruct (save_mpds _); eexists; (split; [|split; [|right; reflexivity]]); done. }
  exists sys1, new. split; [done|]. split; [done|]. split; [done|].
  split; [rewrite Haddr; apply NoDup_dispatched_from|]. split.
  - intros rep_addr. rewrite Haddr, elem_of_dispatched_from. split.
    + intros (i & a & Hi & Ha & Hpi & Hai & Hri). split; [done|]. cbn in Hai.
      apply lookup_lt_is_Some in Hri as [rep Hrep]. exists a, rep.
      assert (MpdLocator.adaptation_set mpd rep_addr = Ok a) as Hset.
      { unfold MpdLocator.adaptation_set, MpdLocator.period, MpdLocator.periods, index.
        rewrite Hp, Hpi. cbn. by rewrite Hai, Hi. }
      split; [done|]. split; [done|].
      unfold MpdLocator.representation, index. rewrite Hset. cbn. by rewrite Hrep.
    + intros (Hpi & a & rep & Hset & Ha & Hrep).
      unfold MpdLocator.representation in Hrep. rewrite Hset in Hrep.
      unfold MpdLocator.adaptation_set, MpdLocator.period, MpdLocator.periods, index in Hset.
      rewrite Hp, Hpi in Hset. cbn in Hset, Hrep.
      destruct (period_AdaptationSet period !! adaptation_set_idx rep_addr) as [a'|] eqn:Hi;
        [|done].
      injection Hset as ->. unfold index in Hrep.
      destruct (as_Representation a !! representation_idx rep_addr) as [rep'|] eqn:Hr;
        [|done].
      exists (adaptation_set_idx rep_addr), a. repeat split; try done.
      by eapply lookup_lt_Some.
  - destruct Hwrite as [-> | ->]; [by left|]. right.
    destruct (bool_decide _); [by left|by right].
Qed.

(** The manifest with a trick-mode set and a set of two representations. *)
Lemma dispatched_threads_resolve_witness :
  ∃ new,
    base.NoDup (thread_addr <$> new)
    ∧ (mkRepAddr 0 1 1 ∈ thread_addr <$> new ↔
       period_idx (mkRepAddr 0 1 1) = 0%nat
       ∧ ∃ a rep, MpdLocator.adaptation_set ex_trickmode (mkRepAddr 0 1 1) = Ok a
                  ∧ is_trickmode a = false
                  ∧ MpdLocator.representation ex_trickmode (mkRepAddr 0 1 1) = Ok rep).
Proof.
  destruct (dispatched_threads_resolve (fun s => (Ok (), s)) 0 (ex_system ex_trickmode)
              ex_trickmode eq_refl ltac:(discriminate))
    as (sys1 & new & _ & _ & _ & Hnodup & Hiff & _).
  exists new. split; [exact Hnodup|apply Hiff].
Defined.

(** ** The refresh loop *)

Lemma main_event_log (url : string) (es : list event) :
  forallb is_log es = true → Forall (main_event url) es.
Proof.
  induction es as [|e es IH]; [constructor|]. cbn. intros [He Hes]%andb_prop.
  constructor; [by destruct e|by apply IH].
Qed.

(** One call of [DashProxy.handle_mpd], up to the call of [refresh_mpd] it
    may end with: log lines, threads and files, and one of four ends. *)
Lemma DashProxy_handle_mpd_steps (refresh : System → result unit * System)
    (mpd_id : nat) (sys : System) (mpd : MPD) :
  sys_mpds sys !! mpd_id = Some mpd →
  ∃ sys1 es,
    (DashProxy_handle_mpd refresh mpd_id sys = (Raise IndexError, sys1)
     ∨ DashProxy_handle_mpd refresh mpd_id sys = (Raise FileNotFoundError, sys1)
     ∨ (is_live mpd = true ∧ DashProxy_handle_mpd refresh mpd_id sys = refresh sys1)
     ∨ (is_live mpd = false ∧ DashProxy_handle_mpd refresh mpd_id sys = (Ok (), sys1)))
    ∧ proxy_mpd (sys_proxy sys1) = proxy_mpd (sys_proxy sys)
    ∧ sys_mpds sys1 = sys_mpds sys
    ∧ sys_gets sys1 = sys_gets sys
    ∧ trace (sys_world sys1) = trace (sys_world sys) ++ es
    ∧ forallb is_log es = true.
Proof.
  intros Hmpd. unfold DashProxy_handle_mpd. rewrite Hmpd.
  destruct (mpd_Period mpd) as [|period rest].
  { eexists _, [_; _]. split; [left; reflexivity|]. repeat split.
    - cbn. by rewrite <- (assoc (++)).
    - reflexivity. }
  set (sys0 := sys_emit _ (sys_emit _ sys)).
  destruct (dispatch_adaptation_sets_effect mpd_id (period_AdaptationSet period) 0%nat sys0)
    as (new & logs & -> & Hlogs & _).
  unfold write_output_mpd.
  cbn [sys_emit sys_proxy sys_mpds sys_next_id sys_threads sys_gets sys_world].
  set (w1 := emit (Log INFO MsgWriting) (emits logs (sys_world sys0))).
  set (head := [Log INFO MsgPeriods;
                Log VERBOSE (MsgFoundPeriods (length (period :: rest)))]
               ++ logs ++ [Log INFO MsgWriting]).
  assert (trace w1 = trace (sys_world sys) ++ head) as Htrace.
  { subst w1 head. cbn. by rewrite <- !(assoc (++)). }
  assert (trace (emit (Log INFO MsgVod) w1) = trace (sys_world sys) ++ head ++ [Log INFO MsgVod])
    as Hvod.
  { cbn [emit trace]. by rewrite Htrace, <- (assoc (++)). }
  assert (forallb is_log head = true) as Hhead.
  { subst head. cbn. rewrite forallb_app, Hlogs. done. }
  assert (forallb is_log (head ++ [Log INFO MsgVod]) = true) as Hheadvod.
  { by rewrite forallb_app, Hhead. }
  destruct (bool_decide (output_dir _ = "")).
  { eexists _, _. split; [right; left; reflexivity|]. repeat split; [exact Htrace|exact Hhead]. }
  fold (is_live mpd). unfold remove_trickmode. cbn [mpd_minimumUpdatePeriod].
  destruct (save_mpds _); destruct (is_live mpd) eqn:Hlive;
    (eexists _, _;
     split; [first [right; right; left; split; [done|reflexivity]
                   |right; right; right; split; [done|reflexivity]]|];
     repeat split;
     first [exact Htrace|exact Hvod|exact Hhead|exact Hheadvod]).
Qed.

Lemma main_thread_steps_refl (sys : System) : main_thread_steps sys sys.
Proof.
  split; [done|]. split; [exists []; by rewrite app_nil_r|].
  exists []. by rewrite app_nil_r.
Qed.

Lemma main_thread_steps_trans (s1 s2 s3 : System) :
  main_thread_steps s1 s2 → main_thread_steps s2 s3 → main_thread_steps s1 s3.
Proof.
  intros (Hu1 & (es1 & Ht1 & He1) & (m1 & Hm1)) (Hu2 & (es2 & Ht2 & He2) & (m2 & Hm2)).
  split; [congruence|]. split.
  - exists (es1 ++ es2). split; [by rewrite Ht2, Ht1, <- (assoc (++))|].
    apply Forall_app. split; [done|]. by rewrite <- Hu1.
  - exists (m1 ++ m2). by rewrite Hm2, Hm1, <- (assoc (++)).
Qed.

(** A step that adds events to the trace and manifests to the heap. *)
Lemma main_thread_steps_intro (sys s' : System) (es : list event) (mpds : list MPD) :
  proxy_mpd (sys_proxy s') = proxy_mpd (sys_proxy sys) →
  trace (sys_world s') = trace (sys_world sys) ++ es →
  Forall (main_event (proxy_mpd (sys_proxy sys))) es →
  sys_mpds s' = sys_mpds sys ++ mpds →
  main_thread_steps sys s'.
Proof. intros H1 H2 H3 H4. split; [done|]. split; [by exists es|by exists mpds]. Qed.

Lemma Exists_steps (P : MPD → Prop) (sys s' : System) :
  main_thread_steps sys s' → Exists P (sys_mpds sys) → Exists P (sys_mpds s').
Proof. intros (_ & _ & (mpds & ->)) H. apply Exists_app. by left. Qed.

Section RefreshLoop.
Variable manifest_server : nat → option manifest_response.

(** What the refresh loop keeps true, however deep it recurses and however
    it ends: its events are the main thread's, and it only returns without
    an exception after a manifest that is not live. *)
Lemma refresh_mpd_steps (fuel : nat) :
  ∀ (after error_cnt : Z) (sys : System) (r : result unit) (s' : System),
    after = 0 ∨ after = 10 →
    refresh_mpd manifest_server fuel after error_cnt sys = (r, s') →
    main_thread_steps sys s'
    ∧ (r = Ok () → Exists (fun mpd => is_live mpd = false) (sys_mpds s')).
Proof.
  induction fuel as [|fuel IH]; intros after error_cnt sys r s' Hafter; cbn [refresh_mpd].
  { intros [= <- <-]. split; [apply main_thread_steps_refl|done]. }
  cbn zeta.
  set (sysA := mkSystem (mkProxy _ _ _ (S _) _) _ _ _ _ _).
  set (sysB := if after >? 0 then sys_emit (Sleep after) sysA else sysA).
  set (sysC := mkSystem (sys_proxy sysB) _ _ _ (S _) _).
  assert (main_thread_steps sys sysC) as HC.
  { destruct (after >? 0) eqn:Hpos.
    - apply (main_thread_steps_intro sys sysC
               [Sleep after; HttpGet (proxy_mpd (sys_proxy sys))] []).
      + done.
      + subst sysC sysB. cbn. by rewrite <- (assoc (++)).
      + repeat constructor. cbn. destruct Hafter as [->| ->]; done.
      + subst sysC sysB. cbn. by rewrite app_nil_r.
    - apply (main_thread_steps_intro sys sysC [HttpGet (proxy_mpd (sys_proxy sys))] []).
      + done.
      + done.
      + by repeat constructor.
      + subst sysC sysB. cbn. by rewrite app_nil_r. }
  destruct (manifest_server (sys_gets sysB)) as [resp|].
  2: { intros [= <- <-]. split; [exact HC|done]. }
  assert (∀ l m s, main_thread_steps s (sys_emit (Log l m) s)) as Hlog.
  { intros l m s. apply (main_thread_steps_intro s _ [Log l m] []); try done.
    - by repeat constructor.
    - cbn. by rewrite app_nil_r. }
  set (retry := if (_ <? 200) || (_ >=? 300) then _ else _).
  assert (∀ rr sR, retry = (rr, sR) → main_thread_steps sys sR) as Hretry.
  { intros rr sR. subst retry. destruct (_ || _).
    - destruct (_ <? 10).
      + intros Hrec. apply IH in Hrec as [Hsteps _]; [|by right].
        eapply main_thread_steps_trans; [exact HC|].
        eapply main_thread_steps_trans; [apply Hlog|exact Hsteps].
      + intros [= <- <-].
        eapply main_thread_steps_trans; [exact HC|].
        eapply main_thread_steps_trans; apply Hlog.
    - by intros [= <- <-]. }
  destruct retry as [rr sR]. pose proof (Hretry rr sR eq_refl) as HR.
  clear Hretry. destruct rr as [[]|e].
  2: { intros [= <- <-]. split; [exact HR|done]. }
  destruct (mr_text resp) as [mpd|].
  2: { intros [= <- <-]. split; [exact HR|done]. }
  destruct (bool_decide _).
  { intros [= <- <-]. split; [exact HR|done]. }
  set (sysY := mkSystem _ (sys_mpds _ ++ [mpd]) _ _ _ _).
  assert (main_thread_steps sR sysY) as HY.
  { apply (main_thread_steps_intro sR sysY [] [mpd]); try done.
    cbn. by rewrite app_nil_r. }
  assert (sys_mpds sysY !! length (sys_mpds (sys_write (output_dir (sys_proxy sys)
                                                         +:+ "/manifest.mpd.orig")
                                               (Manifest mpd) sR)) = Some mpd) as Hlookup.
  { subst sysY. cbn. by rewrite lookup_app_r, Nat.sub_diag by done. }
  destruct (DashProxy_handle_mpd_steps (refresh_mpd manifest_server fuel 10 0) _ sysY mpd
              Hlookup) as (sys1 & es & Hout & Hu & Hm & _ & Ht & Hes).
  assert (main_thread_steps sysY sys1) as H1.
  { apply (main_thread_steps_intro sysY sys1 es []); try done.
    - by apply main_event_log.
    - by rewrite Hm, app_nil_r. }
  assert (main_thread_steps sys sys1) as Hsys1.
  { eapply main_thread_steps_trans; [exact HR|].
    eapply main_thread_steps_trans; [exact HY|exact H1]. }
  assert (mpd ∈ sys_mpds sys1) as Hin.
  { rewrite Hm. subst sysY. cbn. apply elem_of_app. right. by apply list_elem_of_singleton. }
  destruct Hout as [-> | [-> | [[Hlive ->] | [Hlive ->]]]].
  - intros [= <- <-]. split; [exact Hsys1|done].
  - intros [= <- <-]. split; [exact Hsys1|done].
  - intros Hrec. apply IH in Hrec as [Hsteps Hvod]; [|by right].
    split; [|exact Hvod]. eapply main_thread_steps_trans; [exact Hsys1|exact Hsteps].
  - intros [= <- <-]. split; [exact Hsys1|]. intros _.
    apply list.Exists_exists. by exists mpd.
Qed.

End RefreshLoop.

(** Whatever the server answers and however deep the refreshes go, the main
    thread does three things only: it logs, it requests the manifest URL it
    was started with, and it pauses for ten seconds, whatever
    [minimumUpdatePeriod] the manifests declare. *)
Theorem run_main_thread_events (manifest_server : nat → option manifest_response)
    (fuel : nat) (url dir : string) (save : bool) :
  Forall (main_event url)
    (trace (sys_world (run manifest_server fuel (boot url dir save)).2)).
Proof.
  unfold run. destruct (refresh_mpd _ _ _ _ _) as [r s'] eqn:E.
  apply refresh_mpd_steps in E as [(_ & (es & Ht & Hes) & _) _]; [|by left].
  cbn [snd]. rewrite Ht. apply Forall_app. split; [by repeat constructor|exact Hes].
Qed.

(** [run] returns without an exception only after it has parsed a manifest
    that is not live: as long as the manifests declare a
    [minimumUpdatePeriod], the refreshes go on, one call inside the other. *)
Theorem run_returns_after_vod (manifest_server : nat → option manifest_response)
    (fuel : nat) (url dir : string) (save : bool) (s : System) :
  run manifest_server fuel (boot url dir save) = (Ok (), s) →
  Exists (fun mpd => is_live mpd = false) (sys_mpds s).
Proof.
  unfold run. intros E. apply refresh_mpd_steps in E as [_ H]; [|by left]. by apply H.
Qed.

(** A live manifest followed by one that is not: [run] returns after the
    second. *)
Lemma run_returns_after_vod_witness :
  ∃ s, run ex_manifest_live 20 ex_boot = (Ok (), s)
       ∧ Exists (fun mpd => is_live mpd = false) (sys_mpds s).
Proof.
  destruct (run ex_manifest_live 20 ex_boot) as [r s] eqn:E.
  assert (r = Ok ()) as -> by (vm_compute in E; by injection E as <- _).
  exists s. split; [reflexivity|].
  exact (run_returns_after_vod ex_manifest_live 20 "http://h/live.mpd" "out" false s E).
Defined.

(** ** A run on a manifest that is not live *)

Lemma requests_emits_logs (logs : list event) (w : World) :
  forallb is_log logs = true → requests (emits logs w) = requests w.
Proof.
  intros H. unfold requests, emits. cbn. rewrite omap_app.
  assert (omap (fun e => match e with HttpGet url => Some url | _ => None end) logs = [])
    as ->; [|by rewrite app_nil_r].
  induction logs as [|e logs IH]; [done|]. cbn in H. apply andb_prop in H as [He Hl].
  destruct e; try done. cbn. by apply IH.
Qed.

(** The copy of the manifest as it was received has a name of its own. *)
Lemma manifest_orig_path_differs (dir name : string) :
  (String.length name < 17)%nat →
  dir +:+ "/manifest.mpd.orig" ≠ path_join dir name.
Proof.
  intros Hlen. unfold path_join. destruct (String.prefix "/" name).
  - intros H%(f_equal String.length). rewrite string_length_append in H. cbn in H. lia.
  - destruct (_ || _); intros H%(inj (String.app dir))%(f_equal String.length);
      rewrite ?string_length_append in H; cbn in H; lia.
Qed.

(** The run on a manifest that is not live and that the server delivers at
    once: one request, no pause; the manifest as received is stored under
    [manifest.mpd.orig], the manifest without its trick-mode sets under
    [manifest.mpd] (and under [manifest.1.mpd] when snapshots are kept); one
    thread is started for every position to dispatch, and [run] returns. *)
Theorem run_vod (manifest_server : nat → option manifest_response) (fuel : nat)
    (url dir : string) (save : bool) (status : Z) (mpd : MPD) (period : Period)
    (rest : list Period) :
  manifest_server 0%nat = Some (mkManifestResponse status (Some mpd)) →
  200 ≤ status < 300 → is_live mpd = false → mpd_Period mpd = period :: rest →
  dir ≠ "" →
  ∃ s,
    run manifest_server (S fuel) (boot url dir save) = (Ok (), s)
    ∧ trace (sys_world s) !! 1%nat = Some (HttpGet url)
    ∧ requests (sys_world s) = [url]
    ∧ sys_mpds s = [mpd]
    ∧ thread_addr <$> sys_threads s = dispatched_from 0 (period_AdaptationSet period)
    ∧ files (sys_world s) !! (dir +:+ "/manifest.mpd.orig") = Some (Manifest mpd)
    ∧ files (sys_world s) !! path_join dir "manifest.mpd"
      = Some (Manifest (remove_trickmode mpd))
    ∧ (save = true →
       files (sys_world s) !! path_join dir "manifest.1.mpd"
       = Some (Manifest (remove_trickmode mpd))).
Proof.
  intros Hanswer Hstatus Hlive Hperiod Hdir.
  unfold run, boot. cbn [refresh_mpd]. cbn zeta.
  cbn [sys_emit sys_proxy sys_mpds sys_next_id sys_threads sys_gets sys_world
       DashProxy_init proxy_mpd output_dir save_mpds i_refresh downloaders].
  change (0 >? 0) with false. cbv iota.
  cbn [sys_emit sys_proxy sys_mpds sys_next_id sys_threads sys_gets sys_world].
  rewrite Hanswer. cbn [mr_status_code mr_text].
  assert ((status <? 200) || (status >=? 300) = false) as ->.
  { apply orb_false_iff. split; [apply Z.ltb_ge; lia|rewrite Z.geb_leb; apply Z.leb_gt; lia]. }
  rewrite (bool_decide_eq_false_2 _ Hdir).
  unfold DashProxy_handle_mpd.
  cbn [sys_emit sys_write sys_proxy sys_mpds sys_next_id sys_threads sys_gets sys_world
       length lookup list_lookup app].
  rewrite Hperiod.
  match goal with
  | |- context [dispatch_adaptation_sets 0 0 _ ?s0] =>
      destruct (dispatch_adaptation_sets_effect 0 (period_AdaptationSet period) 0%nat s0)
        as (new & logs & -> & Hlogs & Haddr & _)
  end.
  unfold write_output_mpd.
  cbn [sys_emit sys_write sys_proxy sys_mpds sys_next_id sys_threads sys_gets sys_world
       proxy_mpd output_dir save_mpds i_refresh].
  rewrite (bool_decide_eq_false_2 _ Hdir).
  unfold is_live in Hlive. cbn [mpd_minimumUpdatePeriod remove_trickmode]. rewrite Hlive.
  eexists. split; [reflexivity|].
  assert (path_join dir "manifest.1.mpd" ≠ path_join dir "manifest.mpd") as Hne1
    by apply (manifest_paths_differ dir 1).
  assert (dir +:+ "/manifest.mpd.orig" ≠ path_join dir "manifest.mpd") as Hne2
    by (apply manifest_orig_path_differs; cbn; lia).
  assert (dir +:+ "/manifest.mpd.orig" ≠ path_join dir "manifest.1.mpd") as Hne3
    by (apply manifest_orig_path_differs; cbn; lia).
  change (pretty 1%nat) with "1".
  change ("manifest." +:+ "1" +:+ ".mpd") with "manifest.1.mpd".
  destruct save;
    cbn [sys_emit sys_write sys_proxy sys_mpds sys_next_id sys_threads sys_gets sys_world].
  - split; [reflexivity|]. split.
    { rewrite requests_emit_log.
      change (requests (write_file ?p ?c ?w)) with (requests w).
      change (requests (write_file ?p ?c ?w)) with (requests w).
      rewrite requests_emit_log, (requests_emits_logs logs _ Hlogs), !requests_emit_log.
      reflexivity. }
    split; [reflexivity|]. split; [exact Haddr|].
    cbn [files emit emits write_file]. split; [|split].
    + rewrite !lookup_insert_ne by done. apply lookup_insert_eq.
    + rewrite lookup_insert_ne by done. apply lookup_insert_eq.
    + intros _. apply lookup_insert_eq.
  - split; [reflexivity|]. split.
    { rewrite requests_emit_log.
      change (requests (write_file ?p ?c ?w)) with (requests w).
      rewrite requests_emit_log, (requests_emits_logs logs _ Hlogs), !requests_emit_log.
      reflexivity. }
    split; [reflexivity|]. split; [exact Haddr|].
    cbn [files emit emits write_file]. split; [|split].
    + rewrite lookup_insert_ne by done. apply lookup_insert_eq.
    + apply lookup_insert_eq.
    + done.
Qed.

(** The manifest with a trick-mode set and a set of two representations. *)
Lemma run_vod_witness :
  ∃ s,
    run ex_manifest_vod 1 ex_boot = (Ok (), s)
    ∧ requests (sys_world s) = ["http://h/live.mpd"]
    ∧ thread_addr <$> sys_threads s = [mkRepAddr 0 1 0; mkRepAddr 0 1 1].
Proof.
  destruct (run_vod ex_manifest_vod 0 "http://h/live.mpd" "out" false 200 ex_trickmode
              _ [] eq_refl ltac:(lia) eq_refl eq_refl ltac:(discriminate))
    as (s & H1 & _ & H2 & _ & H3 & _).
  exists s. split; [exact H1|]. split; [exact H2|exact H3].
Defined.

(** A manifest without any [Period]: the manifest as received is stored,
    then [periods[0]] raises [IndexError], which leaves [run]; no thread is
    started and [manifest.mpd] is not written. *)
Theorem run_no_period (manifest_server : nat → option manifest_response) (fuel : nat)
    (url dir : string) (save : bool) (status : Z) (mpd : MPD) :
  manifest_server 0%nat = Some (mkManifestResponse status (Some mpd)) →
  200 ≤ status < 300 → mpd_Period mpd = [] → dir ≠ "" →
  ∃ s,
    run manifest_server (S fuel) (boot url dir save) = (Raise IndexError, s)
    ∧ sys_threads s = []
    ∧ files (sys_world s) = {[ dir +:+ "/manifest.mpd.orig" := Manifest mpd ]}.
Proof.
  intros Hanswer Hstatus Hperiod Hdir.
  unfold run, boot. cbn [refresh_mpd]. cbn zeta.
  cbn [sys_emit sys_proxy sys_mpds sys_next_id sys_threads sys_gets sys_world
       DashProxy_init proxy_mpd output_dir save_mpds i_refresh downloaders].
  change (0 >? 0) with false. cbv iota.
  cbn [sys_emit sys_proxy sys_mpds sys_next_id sys_threads sys_gets sys_world].
  rewrite Hanswer. cbn [mr_status_code mr_text].
  assert ((status <? 200) || (status >=? 300) = false) as ->.
  { apply orb_false_iff. split; [apply Z.ltb_ge; lia|rewrite Z.geb_leb; apply Z.leb_gt; lia]. }
  rewrite (bool_decide_eq_false_2 _ Hdir).
  unfold DashProxy_handle_mpd.
  cbn [sys_emit sys_write sys_proxy sys_mpds sys_next_id sys_threads sys_gets sys_world
       length lookup list_lookup app].
  rewrite Hperiod. eexists. split; [reflexivity|]. split; [reflexivity|].
  cbn. apply insert_empty.
Qed.

Lemma run_no_period_witness :
  ∃ s, run ex_manifest_no_period 1 ex_boot = (Raise IndexError, s) ∧ sys_threads s = [].
Proof.
  destruct (run_no_period ex_manifest_no_period 0 "http://h/live.mpd" "out" false 200
              ex_no_period eq_refl ltac:(lia) eq_refl ltac:(discriminate))
    as (s & H1 & H2 & _).
  exists s. split; [exact H1|exact H2].
Defined.

(** ** Scanning a template for a placeholder *)

Lemma append_char (c : ascii) (t : string) : String c EmptyString +:+ t = String c t.
Proof. reflexivity. Qed.

Lemma eqb_dollar (c : ascii) : Ascii.eqb c "$" = false → "$"%char ≠ c.
Proof. intros H <-. by rewrite Ascii.eqb_refl in H. Qed.

Lemma prefix_not_dollar (old rest : string) (c : ascii) :
  Ascii.eqb c "$" = false → String.prefix (String "$" old) (String c rest) = false.
Proof.
  intros H. rewrite prefix_cons. destruct (ascii_dec "$" c) as [Heq|]; [|done].
  by apply eqb_dollar in H.
Qed.

Section Scan.
Variables (oname new : string).
Hypothesis oname_free : dollar_free oname = true.


Lemma replace_go_free (t rest : string) :
  dollar_free t = true →
  replace_go (String "$" (oname +:+ "$")) new 0 (t +:+ rest) = t +:+ replace_go (String "$" (oname +:+ "$")) new 0 rest.
Proof.
  induction t as [|c t IH]; [done|]. cbn [dollar_free]. intros [Hc Ht]%andb_prop.
  apply negb_true_iff in Hc. rewrite !append_cons. cbn [replace_go].
  rewrite (prefix_not_dollar _ _ _ Hc). by rewrite IH.
Qed.

Lemma replace_go_skip (a rest : string) :
  replace_go (String "$" (oname +:+ "$")) new (String.length a) (a +:+ rest) = replace_go (String "$" (oname +:+ "$")) new 0 rest.
Proof.
  induction a as [|c a IH]; [done|]. rewrite append_cons. cbn [String.length replace_go].
  exact IH.
Qed.

Lemma replace_go_hit (rest : string) :
  replace_go (String "$" (oname +:+ "$")) new 0 (String "$" (oname +:+ "$") +:+ rest)
  = new +:+ replace_go (String "$" (oname +:+ "$")) new 0 rest.
Proof.
  pose proof (prefix_app (String "$" (oname +:+ "$")) rest) as Hp.
  rewrite append_cons in *. cbn [replace_go]. rewrite Hp. cbn [String.length].
  replace (S (String.length (oname +:+ "$")) - 1)%nat
    with (String.length (oname +:+ "$")) by lia.
  by rewrite replace_go_skip.
Qed.

(** Two names that end at the first dollar sign: one text starts with the
    other only if the names are the same. *)
Lemma prefix_names (a b x y : string) :
  dollar_free a = true → dollar_free b = true →
  String.prefix (a +:+ String "$" x) (b +:+ String "$" y) = true → a = b.
Proof.
  revert b. induction a as [|c a IH]; intros [|d b] Ha Hb.
  - done.
  - cbn [dollar_free] in Hb. apply andb_prop in Hb as [Hd _].
    apply negb_true_iff in Hd. change ("" +:+ ?s) with s.
    rewrite append_cons, (prefix_not_dollar _ _ _ Hd). done.
  - cbn [dollar_free] in Ha. apply andb_prop in Ha as [Hc _].
    apply negb_true_iff in Hc. change ("" +:+ ?s) with s. rewrite append_cons, prefix_cons.
    destruct (ascii_dec c "$") as [->|]; [by rewrite Ascii.eqb_refl in Hc|done].
  - cbn [dollar_free] in Ha, Hb. apply andb_prop in Ha as [_ Ha], Hb as [_ Hb].
    rewrite !append_cons, prefix_cons. destruct (ascii_dec c d) as [->|]; [|done].
    intros H. f_equal. by apply IH.
Qed.

Lemma replace_go_other (name rest : string) :
  dollar_free name = true → name ≠ oname →
  String.prefix (oname +:+ "$") rest = false →
  replace_go (String "$" (oname +:+ "$")) new 0 ("$" +:+ name +:+ "$" +:+ rest)
  = "$" +:+ name +:+ "$" +:+ replace_go (String "$" (oname +:+ "$")) new 0 rest.
Proof.
  intros Hname Hne Hrest.
  assert (String.prefix (String "$" (oname +:+ "$")) (String "$" (name +:+ String "$" rest)) = false) as Hfirst.
  { rewrite prefix_cons. destruct (ascii_dec "$" "$"); [|done].
    destruct (String.prefix (oname +:+ "$") (name +:+ String "$" rest)) eqn:Hp; [|done].
    apply prefix_names in Hp; [|done..]. by subst. }
  assert (String.prefix (String "$" (oname +:+ "$")) (String "$" rest) = false) as Hlast.
  { rewrite prefix_cons. by destruct (ascii_dec "$" "$"). }
  rewrite !append_char. cbn [replace_go]. rewrite Hfirst.
  f_equal. rewrite replace_go_free by done. f_equal. cbn [replace_go]. by rewrite Hlast.
Qed.

(** The scan of a run of stretches. *)
Lemma replace_go_items (items : list item) :
  items_ok oname items →
  replace_go (String "$" (oname +:+ "$")) new 0 (concat_strings (item_in (String "$" (oname +:+ "$")) <$> items))
  = concat_strings (item_out new <$> items).
Proof.
  change ("$" +:+ oname +:+ "$") with (String "$" (oname +:+ "$")) in *.
  induction items as [|i items IH]; [done|]. rewrite !fmap_cons.
  cbn [concat_strings items_ok]. change ("$" +:+ oname +:+ "$") with (String "$" (oname +:+ "$")) in *.
  destruct i as [t| |name]; cbn [item_in item_out].
  - intros [Ht Hrest]. by rewrite replace_go_free, IH.
  - intros Hrest. by rewrite replace_go_hit, IH.
  - intros (Hname & Hne & Hsafe & Hrest). rewrite !append_assoc.
    by rewrite replace_go_other, IH.
Qed.

End Scan.

(** ** The steps of [render_template] on a well-formed template *)

Lemma template_text_stage (ps : list piece) : template_text ps = stage_text 0 ps.
Proof.
  reflexivity.
Qed.

Lemma plain_dollar_free (s : string) : plain s = true → dollar_free s = true.
Proof.
  induction s as [|c s IH]; [done|]. cbn.
  intros [[[H1 _]%andb_prop _]%andb_prop H4]%andb_prop. by rewrite H1, IH.
Qed.

Lemma dollar_free_app (a b : string) :
  dollar_free (a +:+ b) = dollar_free a && dollar_free b.
Proof.
  induction a as [|c a IH]; [done|]. rewrite append_cons. cbn. rewrite IH.
  by rewrite andb_assoc.
Qed.

Lemma digit_not_dollar (c : ascii) : is_digit c = true → Ascii.eqb c "$" = false.
Proof.
  intros H. apply Ascii.eqb_neq. intros ->. done.
Qed.

Lemma digits_dollar_free (w : string) : all_digits w = true → dollar_free w = true.
Proof.
  unfold all_digits. destruct (span_digits w) as [ds rest] eqn:E.
  destruct rest; [|done]. intros _.
  apply span_digits_spec in E as [-> E]. rewrite append_nil_r.
  induction ds as [|c ds IH]; [done|]. cbn in E.
  destruct (is_digit c) eqn:Hc; [|done].
  destruct (span_digits ds) as [ds' rest'] eqn:E'. injection E as -> ->.
  cbn. rewrite (digit_not_dollar c Hc). by apply IH.
Qed.

(** The first character after a placeholder stays harmless from step to
    step. *)
Lemma safe_start_stage (stage : nat) (ps : list piece) :
  safe_start (stage_text stage ps) = safe_start (template_text ps).
Proof.
  rewrite template_text_stage. unfold stage_text.
  induction ps as [|p ps IH]; [done|]. rewrite !fmap_cons. cbn [concat_strings].
  destruct p as [s| | |w|]; cbn [stage_piece].
  - destruct s as [|c s]; [exact IH|done].
  - by destruct (1 <=? stage)%nat.
  - by destruct (2 <=? stage)%nat.
  - by destruct (3 <=? stage)%nat.
  - by destruct (4 <=? stage)%nat.
Qed.

Lemma safe_start_prefix (name rest : string) :
  String.prefix "R" name = true ∨ String.prefix "N" name = true
  ∨ String.prefix "T" name = true →
  safe_start rest = true →
  String.prefix (name +:+ "$") rest = false.
Proof.
  intros Hname Hsafe. destruct name as [|c name]; [by destruct Hname as [|[|]]|].
  destruct rest as [|d rest]; [done|]. rewrite append_cons, prefix_cons.
  destruct (ascii_dec c d) as [->|]; [|done]. cbn in Hsafe.
  rewrite !prefix_cons in Hname.
  destruct Hname as [H|[H|H]]; destruct (ascii_dec _ d) as [<-|]; done.
Qed.

Lemma width_name (w : string) :
  "$" +:+ ("Number%" +:+ w +:+ "d") +:+ "$" = "$Number%" +:+ w +:+ "d$".
Proof.
  change ("$" +:+ ("Number%" +:+ w +:+ "d") +:+ "$")
    with ("$Number%" +:+ ((w +:+ "d") +:+ "$")).
  by rewrite append_assoc.
Qed.

Lemma width_name_free (w : string) :
  all_digits w = true → dollar_free ("Number%" +:+ w +:+ "d") = true.
Proof.
  intros H. change ("Number%" +:+ w +:+ "d") with ("Number%" +:+ (w +:+ "d")).
  by rewrite !dollar_free_app, (digits_dollar_free w H).
Qed.

Lemma width_field_free (w : string) :
  all_digits w = true → dollar_free ("{number:" +:+ w +:+ "d}") = true.
Proof.
  intros H. change ("{number:" +:+ w +:+ "d}") with ("{number:" +:+ (w +:+ "d}")).
  by rewrite !dollar_free_app, (digits_dollar_free w H).
Qed.

(** A piece before and after step [stage], as the scan sees it. *)
Lemma classify_in (stage : nat) (p : piece) :
  stage = 1%nat ∨ stage = 2%nat ∨ stage = 4%nat →
  item_in (String "$" (stage_name stage +:+ "$")) (classify stage p)
  = stage_piece (stage - 1) p.
Proof.
  intros [-> | [-> | ->]]; destruct p as [s| | |w|]; try reflexivity;
    cbn [classify stage_piece Nat.eqb Nat.leb Nat.sub item_in]; apply width_name.
Qed.

Lemma classify_out (stage : nat) (p : piece) :
  stage = 1%nat ∨ stage = 2%nat ∨ stage = 4%nat →
  item_out (stage_field stage) (classify stage p) = stage_piece stage p.
Proof.
  intros [-> | [-> | ->]]; destruct p as [s| | |w|]; try reflexivity;
    cbn [classify stage_piece Nat.eqb Nat.leb Nat.sub item_out]; apply width_name.
Qed.

Lemma classify_text_in (stage : nat) (ps : list piece) :
  stage = 1%nat ∨ stage = 2%nat ∨ stage = 4%nat →
  concat_strings (item_in (String "$" (stage_name stage +:+ "$")) <$> (classify stage <$> ps))
  = stage_text (stage - 1) ps.
Proof.
  intros Hstage. unfold stage_text. f_equal. rewrite <- list_fmap_compose.
  apply list_fmap_ext. intros i p _. by apply classify_in.
Qed.

Lemma classify_text_out (stage : nat) (ps : list piece) :
  stage = 1%nat ∨ stage = 2%nat ∨ stage = 4%nat →
  concat_strings (item_out (stage_field stage) <$> (classify stage <$> ps))
  = stage_text stage ps.
Proof.
  intros Hstage. unfold stage_text. f_equal. rewrite <- list_fmap_compose.
  apply list_fmap_ext. intros i p _. by apply classify_out.
Qed.

Lemma stage_name_start (stage : nat) :
  String.prefix "R" (stage_name stage) = true ∨ String.prefix "N" (stage_name stage) = true
  ∨ String.prefix "T" (stage_name stage) = true.
Proof.
  unfold stage_name. destruct (stage =? 1)%nat; [by left|].
  destruct (stage =? 2)%nat; [right; by left|right; by right].
Qed.

(** A well-formed template is scanned without harm. *)
Lemma items_ok_classify (stage : nat) (ps : list piece) :
  stage = 1%nat ∨ stage = 2%nat ∨ stage = 4%nat →
  well_formed ps = true → items_ok (stage_name stage) (classify stage <$> ps).
Proof.
  intros Hstage. induction ps as [|p ps IH]; [done|]. rewrite fmap_cons.
  assert (safe_start (template_text ps) = true →
          String.prefix (stage_name stage +:+ "$")
            (concat_strings (item_in ("$" +:+ stage_name stage +:+ "$")
                               <$> (classify stage <$> ps))) = false) as Hsafe.
  { intros H. change ("$" +:+ stage_name stage +:+ "$")
      with (String "$" (stage_name stage +:+ "$")).
    rewrite (classify_text_in stage ps Hstage).
    apply safe_start_prefix; [apply stage_name_start|]. by rewrite safe_start_stage. }
  destruct p as [s| | |w|]; cbn [well_formed];
    [intros [Hs Hps]%andb_prop
    |intros [Hs Hps]%andb_prop
    |intros [Hs Hps]%andb_prop
    |intros [[Hw Hs]%andb_prop Hps]%andb_prop
    |intros [Hs Hps]%andb_prop];
    specialize (IH Hps); try specialize (Hsafe Hs);
    destruct Hstage as [-> | [-> | ->]];
    cbn [classify Nat.eqb Nat.leb items_ok];
    repeat split;
    auto using width_name_free, width_field_free, plain_dollar_free;
    try done;
    try (by intros [=]);
    try (intros H%(f_equal String.length); cbn in H;
         rewrite ?string_length_append in H; cbn in H; lia).
Qed.

(** Steps 1, 2 and 4 of [render_template] on a well-formed template. *)
Lemma str_replace_stage (stage : nat) (ps : list piece) :
  stage = 1%nat ∨ stage = 2%nat ∨ stage = 4%nat →
  well_formed ps = true →
  str_replace (String "$" (stage_name stage +:+ "$")) (stage_field stage)
    (stage_text (stage - 1) ps)
  = stage_text stage ps.
Proof.
  intros Hstage Hwf. unfold str_replace.
  rewrite <- (classify_text_in stage ps Hstage), <- (classify_text_out stage ps Hstage).
  apply replace_go_items; [|by apply items_ok_classify].
  by destruct Hstage as [-> | [-> | ->]].
Qed.

(** ** Step 3: the widths *)

Lemma all_digits_span (w : string) : all_digits w = true → span_digits w = (w, EmptyString).
Proof.
  unfold all_digits. destruct (span_digits w) as [ds rest] eqn:E.
  destruct rest; [|done]. intros _.
  apply span_digits_spec in E as [E _]. rewrite append_nil_r in E. by subst.
Qed.

Lemma match_number_format_not_dollar (c : ascii) (rest : string) :
  Ascii.eqb c "$" = false → match_number_format (String c rest) = None.
Proof.
  intros H. unfold match_number_format.
  change "$Number%" with (String "$" "Number%"). by rewrite (prefix_not_dollar _ _ _ H).
Qed.

Lemma sub_number_go_free (t rest : string) :
  dollar_free t = true →
  sub_number_go 0 (t +:+ rest) = t +:+ sub_number_go 0 rest.
Proof.
  induction t as [|c t IH]; [done|]. cbn [dollar_free]. intros [Hc Ht]%andb_prop.
  apply negb_true_iff in Hc. rewrite !append_cons. cbn [sub_number_go].
  rewrite (match_number_format_not_dollar _ _ Hc). by rewrite IH.
Qed.

Lemma sub_number_go_skip (a rest : string) :
  sub_number_go (String.length a) (a +:+ rest) = sub_number_go 0 rest.
Proof.
  induction a as [|c a IH]; [done|]. rewrite append_cons.
  cbn [String.length sub_number_go]. exact IH.
Qed.

Lemma string_drop_app (a b : string) : string_drop (String.length a) (a +:+ b) = b.
Proof. induction a as [|c a IH]; [by destruct b|]. rewrite append_cons. exact IH. Qed.

Lemma sub_number_go_hit (w rest : string) :
  all_digits w = true →
  sub_number_go 0 (("$Number%" +:+ w +:+ "d$") +:+ rest)
  = ("{number:" +:+ w +:+ "d}") +:+ sub_number_go 0 rest.
Proof.
  intros Hw.
  assert (match_number_format (("$Number%" +:+ w +:+ "d$") +:+ rest)
          = Some (w, (8 + String.length w + 2)%nat)) as Hm.
  { unfold match_number_format. rewrite !append_assoc.
    rewrite (prefix_app "$Number%" _).
    replace (string_drop 8 ("$Number%" +:+ w +:+ "d$" +:+ rest))
      with (w +:+ "d$" +:+ rest) by (symmetry; apply (string_drop_app "$Number%")).
    rewrite (span_digits_app w ("d$" +:+ rest) (all_digits_span w Hw)) by done.
    by rewrite (prefix_app "d$" rest). }
  change (("$Number%" +:+ w +:+ "d$") +:+ rest)
    with (String "$" (("Number%" +:+ w +:+ "d$") +:+ rest)) in *.
  cbn [sub_number_go]. rewrite Hm. rewrite !append_assoc. do 3 f_equal.
  rewrite <- !append_assoc.
  replace (8 + String.length w + 2 - 1)%nat
    with (String.length (("Number%" +:+ w) +:+ "d$"))
    by (rewrite !string_length_append; cbn; lia).
  apply sub_number_go_skip.
Qed.

Lemma sub_number_go_time (rest : string) :
  safe_start rest = true →
  sub_number_go 0 ("$Time$" +:+ rest) = "$Time$" +:+ sub_number_go 0 rest.
Proof.
  intros Hsafe.
  change ("$Time$" +:+ rest) with (String "$" ("Time" +:+ String "$" rest)).
  cbn [sub_number_go].
  assert (match_number_format (String "$" ("Time" +:+ String "$" rest)) = None) as ->
    by reflexivity.
  rewrite sub_number_go_free by done. cbn [sub_number_go].
  assert (match_number_format (String "$" rest) = None) as ->.
  { unfold match_number_format. change "$Number%" with (String "$" (String "N" "umber%")).
    rewrite prefix_cons. destruct (ascii_dec "$" "$"); [|done].
    destruct rest as [|c rest]; [done|]. rewrite prefix_cons.
    destruct (ascii_dec "N" c) as [<-|]; [|done]. done. }
  reflexivity.
Qed.

(** Step 3 of [render_template] on a well-formed template. *)
Lemma sub_number_format_stage (ps : list piece) :
  well_formed ps = true → sub_number_format (stage_text 2 ps) = stage_text 3 ps.
Proof.
  unfold sub_number_format, stage_text.
  induction ps as [|p ps IH]; [done|]. rewrite !fmap_cons. cbn [concat_strings].
  destruct p as [s| | |w|]; cbn [well_formed stage_piece Nat.leb].
  - intros [Hs Hps]%andb_prop.
    rewrite sub_number_go_free by (by apply plain_dollar_free). by rewrite IH.
  - intros [Hs Hps]%andb_prop. rewrite sub_number_go_free by done. by rewrite IH.
  - intros [Hs Hps]%andb_prop. rewrite sub_number_go_free by done. by rewrite IH.
  - intros [[Hw Hs]%andb_prop Hps]%andb_prop. rewrite sub_number_go_hit by done.
    by rewrite IH.
  - intros [Hs Hps]%andb_prop. rewrite sub_number_go_time.
    + by rewrite IH.
    + fold (stage_text 2 ps). by rewrite safe_start_stage.
Qed.

(** ** The last step: [str.format] *)

Lemma result_fmap_compose {A B C} (f : A → B) (g : B → C) (r : result A) :
  g <$> (f <$> r) = (g ∘ f) <$> r.
Proof. by destruct r. Qed.

Section Format.
Variable args : list (string * pyval).

(** Plain text is copied. *)
Lemma format_go_plain (t rest : string) :
  plain t = true →
  format_go args None (t +:+ rest) = (fun r => t +:+ r) <$> format_go args None rest.
Proof.
  induction t as [|c t IH].
  { intros _. change ("" +:+ rest) with rest.
    destruct (format_go args None rest); reflexivity. }
  cbn [plain]. intros [[[_ H2]%andb_prop H3]%andb_prop Ht]%andb_prop.
  apply negb_true_iff in H2, H3. rewrite append_cons. cbn [format_go].
  rewrite H2, H3, (IH Ht). by destruct (format_go args None rest).
Qed.

(** A replacement field is read up to its closing brace. *)
Lemma format_go_acc (field rest acc : string) :
  plain field = true →
  format_go args (Some acc) (field +:+ String "}" rest)
  = (v ← format_field args (acc +:+ field);
     r ← format_go args None rest;
     Ok (v +:+ r)).
Proof.
  revert acc. induction field as [|c field IH]; intros acc.
  - intros _. change ("" +:+ ?x) with x. cbn [format_go].
    change (Ascii.eqb "}" "}") with true. cbv iota. by rewrite append_nil_r.
  - cbn [plain]. intros [[[_ H2]%andb_prop H3]%andb_prop Ht]%andb_prop.
    apply negb_true_iff in H2, H3. rewrite append_cons. cbn [format_go].
    rewrite H2, H3, (IH _ Ht). by rewrite append_assoc.
Qed.

Lemma format_go_field (field rest : string) :
  plain field = true →
  format_go args None (String "{" (field +:+ String "}" rest))
  = (v ← format_field args field;
     r ← format_go args None rest;
     Ok (v +:+ r)).
Proof.
  intros Hfield. pose proof (format_go_acc field rest "" Hfield) as Hacc.
  change ("" +:+ field) with field in Hacc. rewrite <- Hacc. clear Hacc.
  cbn [format_go]. change (Ascii.eqb "{" "{") with true. cbv iota.
  destruct field as [|c field]; [reflexivity|]. rewrite append_cons.
  cbn [plain] in Hfield. apply andb_prop in Hfield as [[[_ H2]%andb_prop _]%andb_prop _].
  apply negb_true_iff in H2.
  destruct c as [[] [] [] [] [] [] [] []]; try reflexivity. done.
Qed.

End Format.

Lemma plain_app (a b : string) : plain (a +:+ b) = plain a && plain b.
Proof.
  induction a as [|c a IH]; [done|]. rewrite append_cons. cbn. rewrite IH.
  by rewrite !andb_assoc.
Qed.

Lemma digits_plain (w : string) : all_digits w = true → plain w = true.
Proof.
  intros H. apply all_digits_span in H.
  induction w as [|c w IH]; [done|]. cbn in H.
  destruct (is_digit c) eqn:Hc; [|done].
  destruct (span_digits w) as [ds rest] eqn:E. injection H as -> ->.
  cbn. rewrite (IH eq_refl).
  assert (Ascii.eqb c "$" = false ∧ Ascii.eqb c "{" = false ∧ Ascii.eqb c "}" = false)
    as (-> & -> & ->); [|done].
  repeat split; apply Ascii.eqb_neq; by intros ->.
Qed.

Section Fields.
Variables (representation : option Representation) (segment : option S_elem)
  (index : option Z).

Lemma format_field_representation_id :
  format_field (template_args representation segment index) "representation_id"
  = piece_value representation segment index PRepresentationID.
Proof. destruct representation, segment, index; reflexivity. Qed.

Lemma format_field_number :
  format_field (template_args representation segment index) "number"
  = piece_value representation segment index PNumber.
Proof. destruct representation, segment, index; reflexivity. Qed.

Lemma format_field_time :
  format_field (template_args representation segment index) "time"
  = piece_value representation segment index PTime.
Proof. destruct representation, segment, index; reflexivity. Qed.

Lemma list_find_number :
  snd <$> list_find (fun kv => bool_decide (kv.1 = "number"))
            (template_args representation segment index)
  = (fun i => ("number", PyInt i)) <$> index.
Proof. destruct representation, segment, index; reflexivity. Qed.

Lemma format_field_width (w : string) :
  all_digits w = true →
  format_field (template_args representation segment index) ("number:" +:+ w +:+ "d")
  = piece_value representation segment index (PNumberWidth w).
Proof.
  intros Hw. unfold format_field.
  change (split_field ("number:" +:+ w +:+ "d")) with ("number", Some (w +:+ "d")).
  cbv iota beta. change (all_digits "number") with false. cbv iota.
  assert (span_digits (w +:+ "d") = (w, "d")) as Hspan
    by (by apply span_digits_app; [apply all_digits_span|]).
  pose proof list_find_number as Hfind.
  destruct (list_find _ _) as [[k [key v]]|]; destruct index as [i|];
    cbn [fmap option_fmap option_map snd] in Hfind; try done.
  injection Hfind as -> ->. cbn [piece_value].
  destruct w as [|c w]; [reflexivity|].
  rewrite append_cons in *. cbv iota. by rewrite Hspan.
Qed.

End Fields.

Lemma width_field (w rest : string) :
  ("{number:" +:+ w +:+ "d}") +:+ rest
  = String "{" (("number:" +:+ w +:+ "d") +:+ String "}" rest).
Proof.
  change (("{number:" +:+ w +:+ "d}") +:+ rest)
    with (String "{" (("number:" +:+ (w +:+ "d}")) +:+ rest)).
  change ("number:" +:+ w +:+ "d") with ("number:" +:+ (w +:+ "d")).
  f_equal. rewrite !append_assoc. reflexivity.
Qed.

Section Render.
Variables (representation : option Representation) (segment : option S_elem)
  (index : option Z).

(** The last step on what the four substitutions leave. *)
Lemma str_format_stage (ps : list piece) :
  well_formed ps = true →
  str_format (stage_text 4 ps) (template_args representation segment index)
  = pieces_value representation segment index ps.
Proof.
  unfold str_format, stage_text.
  induction ps as [|p ps IH]; [done|]. rewrite fmap_cons.
  cbn [concat_strings pieces_value].
  destruct p as [s| | |w|]; cbn [well_formed stage_piece Nat.leb].
  - intros [Hs Hps]%andb_prop. rewrite (format_go_plain _ _ _ Hs), (IH Hps).
    cbn [piece_value]. by destruct (pieces_value _ _ _ ps).
  - intros [Hs Hps]%andb_prop.
    change ("{representation_id}" +:+ ?r)
      with (String "{" ("representation_id" +:+ String "}" r)).
    rewrite format_go_field by done.
    by rewrite format_field_representation_id, (IH Hps).
  - intros [Hs Hps]%andb_prop.
    change ("{number}" +:+ ?r) with (String "{" ("number" +:+ String "}" r)).
    rewrite format_go_field by done. by rewrite format_field_number, (IH Hps).
  - intros [[Hw Hs]%andb_prop Hps]%andb_prop. rewrite width_field.
    rewrite format_go_field.
    + by rewrite (format_field_width _ _ _ w Hw), (IH Hps).
    + change ("number:" +:+ w +:+ "d") with ("number:" +:+ (w +:+ "d")).
      by rewrite !plain_app, (digits_plain w Hw).
  - intros [Hs Hps]%andb_prop.
    change ("{time}" +:+ ?r) with (String "{" ("time" +:+ String "}" r)).
    rewrite format_go_field by done. by rewrite format_field_time, (IH Hps).
Qed.


End Render.


(** The start time is substituted as the manifest writes it, leading zeros
    included; an element without [t] gives the empty text. *)
Lemma render_template_time_as_written :
  render_template "seg-$Time$.m4s" None (Some (mkS (Some "007") (Some 10) None)) None
  = Ok "seg-007.m4s"
  ∧ render_template "seg-$Time$.m4s" None (Some (mkS None (Some 10) None)) None
    = Ok "seg-.m4s".
Proof. split; vm_compute; reflexivity. Qed.

(** ** The base URL of a downloader *)

Lemma downloads_under_requests (base_url : string) (w w' : World) :
  downloads_under base_url w w' →
  ∃ urls, requests w' = requests w ++ urls
          ∧ Forall (fun url => String.prefix base_url url = true) urls.
Proof.
  intros [_ (es & Ht & Hes)].
  exists (omap (fun e => match e with HttpGet url => Some url | _ => None end) es).
  split; [unfold requests; by rewrite Ht, omap_app|].
  clear Ht. induction Hes as [|e es He _ IH]; [constructor|].
  destruct e as [l m|url|sec]; cbn; [exact IH|by constructor|done].
Qed.

(** A [BaseUrl] element without children is falsy, and its text is not
    read. *)
Lemma get_base_url_childless (proxy : DashProxy) (mpd : MPD) :
  (∀ text, mpd_BaseUrl mpd ≠ Some (true, text)) →
  get_base_url proxy mpd
  = match mpd_Location mpd with
    | Some text => baseUrl_text text
    | None => Ok (baseUrl (proxy_mpd proxy))
    end.
Proof.
  intros H. unfold get_base_url.
  destruct (mpd_BaseUrl mpd) as [[[] text]|]; [by destruct (H text)|..];
    by destruct (mpd_Location mpd) as [[t|]|].
Qed.

(** When the manifest has no [BaseUrl] element, or one without child
    elements (its text, a URL or a path, is then not read), every URL
    [ensure_downloader] requests starts with the directory of the text of the
    [Location] element, and with the directory of the manifest URL when
    there is no [Location]. *)
Theorem ensure_downloader_requests_childless_BaseUrl (server : string → response)
    (proxy : DashProxy) (mpd : MPD) (rep_addr : RepAddrObj) (w : World) :
  (∀ text, mpd_BaseUrl mpd ≠ Some (true, text)) →
  ∃ urls,
    requests (ensure_downloader server proxy mpd rep_addr w).2 = requests w ++ urls
    ∧ Forall (fun url =>
                String.prefix
                  match mpd_Location mpd with
                  | Some (Some t) => baseUrl t
                  | _ => baseUrl (proxy_mpd proxy)
                  end url = true) urls.
Proof.
  intros H. apply downloads_under_requests.
  unfold ensure_downloader. rewrite (get_base_url_childless proxy mpd H).
  destruct (downloaders proxy !! obj_id rep_addr); [apply downloads_under_log|].
  destruct (mpd_Location mpd) as [[t|]|]; cbn [baseUrl_text];
    try apply downloads_under_log.
  - pose proof (handle_mpd_under server
      (DashDownloader_init (output_dir proxy) rep_addr) mpd (baseUrl t)
      (emit (Log INFO (MsgStarting (obj_addr rep_addr))) w)) as Hu.
    destruct (handle_mpd _ _ _ _ _) as [[[r dl] mpd'] w'].
    eapply downloads_under_trans; [apply downloads_under_log|exact Hu].
  - pose proof (handle_mpd_under server
      (DashDownloader_init (output_dir proxy) rep_addr) mpd (baseUrl (proxy_mpd proxy))
      (emit (Log INFO (MsgStarting (obj_addr rep_addr))) w)) as Hu.
    destruct (handle_mpd _ _ _ _ _) as [[[r dl] mpd'] w'].
    eapply downloads_under_trans; [apply downloads_under_log|exact Hu].
Qed.

(** The text of the childless [BaseUrl] of [ex_base_url_text] names another
    host; the four segments are requested from the host of the manifest. *)
Lemma ensure_downloader_requests_childless_BaseUrl_witness :
  (∀ text, mpd_BaseUrl ex_base_url_text ≠ Some (true, text))
  ∧ requests (ensure_downloader ex_server (mkProxy "http://h/live.mpd" "out" false 0 ∅)
                ex_base_url_text (mkObj 0 (mkRepAddr 0 0 0)) (mkWorld ∅ [])).2
    = ["http://h/v1/init.mp4"; "http://h/v1/seg-0.m4s"; "http://h/v1/seg-10.m4s";
       "http://h/v1/seg-20.m4s"]
  ∧ ∃ urls,
      requests (ensure_downloader ex_server (mkProxy "http://h/live.mpd" "out" false 0 ∅)
                  ex_base_url_text (mkObj 0 (mkRepAddr 0 0 0)) (mkWorld ∅ [])).2
      = requests (mkWorld ∅ []) ++ urls
      ∧ Forall (fun url => String.prefix (baseUrl "http://h/live.mpd") url = true) urls.
Proof.
  assert (∀ text, mpd_BaseUrl ex_base_url_text ≠ Some (true, text)) as H by done.
  split; [exact H|]. split; [vm_compute; reflexivity|].
  exact (ensure_downloader_requests_childless_BaseUrl ex_server
           (mkProxy "http://h/live.mpd" "out" false 0 ∅) ex_base_url_text
           (mkObj 0 (mkRepAddr 0 0 0)) (mkWorld ∅ []) H).
Defined.
